(** * Inventory feed processor: the orchestration pipeline of [handler.ts]

    A shallow embedding of the feed-processor function (both checked-in
    versions of [handler.ts]: the one that merges every item into the Stash
    keyspace and the one that only forwards the feed) and of
    [lib/converter.ts], with the properties of the pipeline proved over it.

    Conventions of the embedding:
    - a JavaScript string is a [string] of bytes holding its UTF-8 form; every
      separator the code looks for (["/"], ["+"], ["%"], [" "]) is ASCII, so
      splitting and replacing act on bytes exactly as they act on code units;
    - a JavaScript object used as a dictionary is a [gmap string _];
    - a [throw] is the left injection of a sum; asynchronous code is a state
      and exception monad over the outside world, one call after the other. *)

From stdpp Require Import base option list strings gmap pretty.
From Stdlib Require Import Ascii String.

Local Open Scope string_scope.
Local Open Scope list_scope.

(** ** Thrown values *)

(** An [Error] object: its [name] and its [message]. *)
Record JsError := mkJsError { errName : string; errMessage : string }.

(** [new Error(message)] *)
Definition newError (message : string) : JsError := mkJsError "Error" message.

(** What a [throw] carries: an [Error] instance or any other value (kept as
    the text it renders to). *)
Inductive Thrown :=
  | ThrownError (e : JsError)
  | ThrownValue (text : string).

(** Synchronous fallible code: [inl] is a throw. *)
Definition bindE {A B} (m : Thrown + A) (k : A -> Thrown + B) : Thrown + B :=
  match m with
  | inl e => inl e
  | inr a => k a
  end.

Definition throwE {A} (e : JsError) : Thrown + A := inl (ThrownError e).

(** ** The JavaScript string primitives the handler calls *)

Module Js.

(** [s.endsWith(suffix)] *)
Definition endsWith (s suffix : string) : bool :=
  let n := String.length s in
  let m := String.length suffix in
  (m <=? n)%nat && String.eqb (substring (n - m) m s) suffix.

(** [s.split(sep)] for a one-character separator: never empty, the empty
    string splits into one empty segment. *)
Fixpoint split (sep : ascii) (s : string) : list string :=
  match s with
  | EmptyString => [EmptyString]
  | String c rest =>
      if Ascii.eqb c sep then EmptyString :: split sep rest
      else match split sep rest with
           | [] => [String c EmptyString]
           | seg :: segs => String c seg :: segs
           end
  end.

(** [s.replace(/c+/g, by)] for a character class [c]: the scanner is either
    outside a match or inside the greedy [+] of one; a match is replaced
    when it starts and its remaining characters are consumed. *)
Fixpoint replaceRuns (inClass : ascii -> bool) (by_ : string)
    (inMatch : bool) (s : string) : string :=
  match s with
  | EmptyString => EmptyString
  | String c rest =>
      if inClass c then
        if inMatch then replaceRuns inClass by_ true rest
        else by_ +:+ replaceRuns inClass by_ true rest
      else String c (replaceRuns inClass by_ false rest)
  end.

(** [s.replace(/\+/g, " ")]: every match is one character long. *)
Fixpoint replaceEach (target by_ : ascii) (s : string) : string :=
  match s with
  | EmptyString => EmptyString
  | String c rest =>
      String (if Ascii.eqb c target then by_ else c)
             (replaceEach target by_ rest)
  end.

(** *** [decodeURIComponent] (ECMA-262, abstract operation Decode with an
    empty preserve set) *)

Definition uriMalformed : JsError := mkJsError "URIError" "URI malformed".

Definition hexDigit (c : ascii) : option N :=
  let n := N_of_ascii c in
  if (48 <=? n)%N && (n <=? 57)%N then Some (n - 48)%N
  else if (65 <=? n)%N && (n <=? 70)%N then Some (n - 55)%N
  else if (97 <=? n)%N && (n <=? 102)%N then Some (n - 87)%N
  else None.

(** Number of leading 1 bits of an octet (5 stands for "more than 4"). *)
Definition leadingOnes (b : N) : nat :=
  if (b <? 128)%N then 0
  else if (b <? 192)%N then 1
  else if (b <? 224)%N then 2
  else if (b <? 240)%N then 3
  else if (b <? 248)%N then 4
  else 5.

Definition isContinuation (b : N) : bool := (128 <=? b)%N && (b <=? 191)%N.

(** The octets are the UTF-8 encoding of one code point: shortest form, not
    a surrogate, at most U+10FFFF. *)
Definition validUtf8 (octets : list N) : bool :=
  match octets with
  | [b0; b1] => (194 <=? b0)%N && (b0 <=? 223)%N && isContinuation b1
  | [b0; b1; b2] =>
      (224 <=? b0)%N && (b0 <=? 239)%N && isContinuation b2 &&
      (if (b0 =? 224)%N then (160 <=? b1)%N && (b1 <=? 191)%N
       else if (b0 =? 237)%N then (128 <=? b1)%N && (b1 <=? 159)%N
       else isContinuation b1)
  | [b0; b1; b2; b3] =>
      (240 <=? b0)%N && (b0 <=? 244)%N && isContinuation b2 &&
      isContinuation b3 &&
      (if (b0 =? 240)%N then (144 <=? b1)%N && (b1 <=? 191)%N
       else if (b0 =? 244)%N then (128 <=? b1)%N && (b1 <=? 143)%N
       else isContinuation b1)
  | _ => false
  end.

Definition octetsToString (octets : list N) : string :=
  fold_right (fun b acc => String (ascii_of_N b) acc) EmptyString octets.

(** The loop of Decode.  [need] is the number of continuation escapes still
    owed to the multi-byte sequence whose octets so far are [pending];
    outside such a sequence [need] is 0. *)
Fixpoint decodeFrom (pending : list N) (need : nat) (s : string)
    : Thrown + string :=
  match s with
  | EmptyString =>
      match need with
      | O => inr EmptyString
      | S _ => throwE uriMalformed
      end
  | String c rest =>
      if Ascii.eqb c "%" then
        match rest with
        | String h1 (String h2 rest') =>
            match hexDigit h1, hexDigit h2 with
            | Some d1, Some d2 =>
                let b := (16 * d1 + d2)%N in
                match need with
                | O =>
                    match leadingOnes b with
                    | 0 => bindE (decodeFrom [] 0 rest')
                             (fun r => inr (String (ascii_of_N b) r))
                    | 2 => decodeFrom [b] 1 rest'
                    | 3 => decodeFrom [b] 2 rest'
                    | 4 => decodeFrom [b] 3 rest'
                    | _ => throwE uriMalformed
                    end
                | 1 =>
                    let octets := pending ++ [b] in
                    if validUtf8 octets then
                      bindE (decodeFrom [] 0 rest')
                        (fun r => inr (octetsToString octets +:+ r))
                    else throwE uriMalformed
                | S need' => decodeFrom (pending ++ [b]) need' rest'
                end
            | _, _ => throwE uriMalformed
            end
        | _ => throwE uriMalformed
        end
      else
        match need with
        | O => bindE (decodeFrom [] 0 rest) (fun r => inr (String c r))
        | S _ => throwE uriMalformed
        end
  end.

Definition decodeURIComponent (s : string) : Thrown + string :=
  decodeFrom [] 0 s.

End Js.

(** ** [types.ts] and the notification record *)

(** [record.s3.bucket.name] and [record.s3.object.key] of a
    [BucketNotificationRecord]; the key is raw, as the transport encoded it. *)
Record BucketNotificationRecord := mkRecord {
  s3_bucket_name : string;
  s3_object_key : string
}.

Record FilteredKey := mkFilteredKey { fk_key : string; fk_reason : string }.

Record KeyToProcess := mkKeyToProcess { bucketName : string; key : string }.

Record GroupedEventKeys := mkGrouped {
  g_filteredKeys : list FilteredKey;
  g_keysToProcess : list KeyToProcess
}.

(** ** The event key classifier *)

Definition folderReason : string := "key represents a folder".
Definition mismatchReason : string :=
  "key does not match an item in an `inventory` directory".

(** [decodeObjectKey]: [decodeURIComponent(objectKey.replace(/\+/g, " "))] *)
Definition decodeObjectKey (objectKey : string) : Thrown + string :=
  Js.decodeURIComponent (Js.replaceEach "+" " " objectKey).

(** [splitKey.length < 2 || splitKey[splitKey.length - 2] !== "inventory"].
    The index is only meaningful when the length test fails, as in the
    short-circuit of the source. *)
Definition notInInventoryDirectory (splitKey : list string) : bool :=
  (List.length splitKey <? 2)%nat
  || negb (bool_decide (splitKey !! (List.length splitKey - 2)%nat = Some "inventory")).

(** The callback of [records.reduce]: the accumulator [collectedKeys] of the
    reduce and the array [filteredKeys] it pushes to are threaded together. *)
Definition groupStep (acc : list FilteredKey * list KeyToProcess)
    (record : BucketNotificationRecord)
    : Thrown + (list FilteredKey * list KeyToProcess) :=
  let '(filteredKeys, collectedKeys) := acc in
  let eventKey := s3_object_key record in
  if Js.endsWith eventKey "/" then
    inr (filteredKeys ++ [mkFilteredKey eventKey folderReason], collectedKeys)
  else
    let splitKey := Js.split "/" eventKey in
    if notInInventoryDirectory splitKey then
      inr (filteredKeys ++ [mkFilteredKey eventKey mismatchReason], collectedKeys)
    else
      bindE (decodeObjectKey eventKey) (fun decoded =>
        inr (filteredKeys,
             collectedKeys ++ [mkKeyToProcess (s3_bucket_name record) decoded])).

Definition groupEventKeys (records : list BucketNotificationRecord)
    : Thrown + GroupedEventKeys :=
  bindE (fold_left (fun acc record => bindE acc (fun st => groupStep st record))
                   records (inr ([], [])))
        (fun '(filteredKeys, keysToProcess) =>
           inr (mkGrouped filteredKeys keysToProcess)).

(** [extractShopIdFromKey] *)
Definition extractShopIdFromKey (objectKey : string) : Thrown + string :=
  let keyParts := Js.split "/" objectKey in
  if negb (List.length keyParts =? 4)%nat then
    throwE (newError "unable to extract sender ID from object key")
  else
    match keyParts !! 1%nat with
    | Some senderId => inr senderId
    | None => inr EmptyString
    end.

(** ** The header transformation of the CSV conversion *)

Definition isSpace (c : ascii) : bool := Ascii.eqb c " ".
Definition isSpaceOrSlash (c : ascii) : bool := Ascii.eqb c " " || Ascii.eqb c "/".

(** [String.prototype.toLowerCase] follows the Unicode case mapping; the
    handler only composes it with the replacement, so it is an argument. *)

(** The handler that merges into Stash:
    [header.toLowerCase().replace(/ +/g, "_")] *)
Definition transformHeader_stash (toLowerCase : string -> string)
    (header : string) : string :=
  Js.replaceRuns isSpace "_" false (toLowerCase header).

(** The handler that only forwards:
    [header.toLowerCase().replace(/[ \/]+/g, "_")] *)
Definition transformHeader_forward (toLowerCase : string -> string)
    (header : string) : string :=
  Js.replaceRuns isSpaceOrSlash "_" false (toLowerCase header).

(** The case mapping restricted to ASCII letters, to run examples. *)
Definition asciiToLowerCase (s : string) : string :=
  let lower (c : ascii) :=
    let n := N_of_ascii c in
    if (65 <=? n)%N && (n <=? 90)%N then ascii_of_N (n + 32) else c in
  (fix go (s : string) : string :=
     match s with
     | EmptyString => EmptyString
     | String c rest => String (lower c) (go rest)
     end) s.

(** *** The rule in the words of the specification

    "Collapse runs of space/slash characters into a single underscore": cut
    the header into its maximal runs, a run being made either of separators
    only or of other characters only, and put one underscore for each run of
    separators. *)
Fixpoint maximalRuns (inClass : ascii -> bool) (s : string)
    : list (bool * string) :=
  match s with
  | EmptyString => []
  | String c rest =>
      match maximalRuns inClass rest with
      | (b, run) :: runs =>
          if Bool.eqb b (inClass c) then (b, String c run) :: runs
          else (inClass c, String c EmptyString) :: (b, run) :: runs
      | [] => [(inClass c, String c EmptyString)]
      end
  end.

Definition collapseRun (run : bool * string) : string :=
  if fst run then "_" else snd run.

Definition joinStrings (parts : list string) : string :=
  fold_right String.append EmptyString parts.

Definition collapseRuns (inClass : ascii -> bool) (s : string) : string :=
  joinStrings (map collapseRun (maximalRuns inClass s)).

(** What makes the runs of [maximalRuns] the maximal runs: each is not empty
    and of one kind, and two neighbours are of different kinds. *)
Definition homogeneous (inClass : ascii -> bool) (run : bool * string) : Prop :=
  snd run <> EmptyString /\
  forall c, In c (list_ascii_of_string (snd run)) -> inClass c = fst run.

Fixpoint alternating (runs : list (bool * string)) : Prop :=
  match runs with
  | r1 :: ((r2 :: _) as rest) => fst r1 <> fst r2 /\ alternating rest
  | _ => True
  end.

(** The runs left to a scanner that is inside a match. *)
Definition dropLeadingMatch (runs : list (bool * string))
    : list (bool * string) :=
  match runs with
  | (true, _) :: rest => rest
  | _ => runs
  end.

(** The header rule of the specification, for both versions of the handler. *)
Definition specTransformHeader (toLowerCase : string -> string)
    (header : string) : string :=
  collapseRuns isSpaceOrSlash (toLowerCase header).

(** ** The classifier in the words of the specification *)

Inductive Classification :=
  | Filtered (f : FilteredKey)
  | Eligible (k : KeyToProcess).

(** Rules 1 to 3, in order, for one record. *)
Definition classify (record : BucketNotificationRecord)
    : Thrown + Classification :=
  let rawKey := s3_object_key record in
  if Js.endsWith rawKey "/" then
    inr (Filtered (mkFilteredKey rawKey folderReason))
  else if notInInventoryDirectory (Js.split "/" rawKey) then
    inr (Filtered (mkFilteredKey rawKey mismatchReason))
  else
    bindE (decodeObjectKey rawKey) (fun decodedKey =>
      inr (Eligible (mkKeyToProcess (s3_bucket_name record) decodedKey))).

Fixpoint classifyAll (records : list BucketNotificationRecord)
    : Thrown + list Classification :=
  match records with
  | [] => inr []
  | record :: rest =>
      bindE (classify record) (fun c =>
        bindE (classifyAll rest) (fun cs => inr (c :: cs)))
  end.

Definition filteredOf (cs : list Classification) : list FilteredKey :=
  omap (fun c => match c with Filtered f => Some f | Eligible _ => None end) cs.

Definition eligibleOf (cs : list Classification) : list KeyToProcess :=
  omap (fun c => match c with Eligible k => Some k | Filtered _ => None end) cs.

Definition specClassifier (records : list BucketNotificationRecord)
    : Thrown + GroupedEventKeys :=
  bindE (classifyAll records) (fun cs =>
    inr (mkGrouped (filteredOf cs) (eligibleOf cs))).

(** ** Data of the per-key processor *)

(** A row converted with [header: true]: column header to cell text. *)
Abbreviation Item := (gmap string string).

(** The entry the handler stores for one sender. *)
Record PriceQuantity := mkPriceQuantity { price : string; quantity : string }.

(** The value kept in the Stash keyspace for one sku: sender identifier to
    that sender's entry. *)
Abbreviation StashValue := (gmap string PriceQuantity).

Record KeyError := mkKeyError { ke_key : string; ke_error : JsError }.

Record ProcessingResults := mkResults {
  filteredKeys : list FilteredKey;
  processingErrors : list KeyError;
  processedKeys : list string
}.

(** [papaparse.ParseConfig], the fields the repository sets. *)
Record ParseConfig := mkParseConfig {
  header : bool;
  skipEmptyLines : bool;
  quoteChar : string;
  transformHeader : option (string -> string)
}.

Record ParseError := mkParseError {
  pe_type : string;
  pe_code : string;
  pe_message : string
}.

Record ParseResult := mkParseResult {
  data : list Item;
  errors : list ParseError
}.

(** [defaultCsvToJsonConversionOptions] of [lib/converter.ts] *)
Definition defaultCsvToJsonConversionOptions : ParseConfig :=
  mkParseConfig true true (String (ascii_of_nat 34) EmptyString) None.

(** [INVENTORY_DATA_STASH_KEYSPACE_NAME] of [lib/constants.ts] *)
Definition INVENTORY_DATA_STASH_KEYSPACE_NAME : string := "inventory-data".

Definition requiredInventoryItemAttributes : list string :=
  ["sku"; "quantity"; "price"].

Definition skipMessage : string :=
  "inventory item(s) skipped due to missing required attributes".

(** [item.hasOwnProperty(attribute)] *)
Definition hasOwnProperty (item : Item) (attribute : string) : bool :=
  bool_decide (is_Some (item !! attribute)).

(** [requiredInventoryItemAttributes.some((attribute) =>
    !item.hasOwnProperty(attribute))] *)
Definition missingRequired (item : Item) : bool :=
  existsb (fun attribute => negb (hasOwnProperty item attribute))
          requiredInventoryItemAttributes.

(** A property read, [item.sku]; only read once the item passed the check. *)
Definition prop (item : Item) (name : string) : string :=
  default EmptyString (item !! name).

(** [{ ...((existing.value as object) ?? {}), [senderId]: { price: item.price,
    quantity: item.quantity } }] *)
Definition mergedValue (existing : option StashValue) (senderId : string)
    (item : Item) : StashValue :=
  <[senderId := mkPriceQuantity (prop item "price") (prop item "quantity")]>
    (default ∅ existing).

(** [results.processingErrors.push({ key, error })] *)
Definition pushError (results : ProcessingResults) (k : string) (error : JsError)
    : ProcessingResults :=
  mkResults (filteredKeys results)
            (processingErrors results ++ [mkKeyError k error])
            (processedKeys results).

(** [results.processedKeys.push(key)] *)
Definition pushProcessed (results : ProcessingResults) (k : string)
    : ProcessingResults :=
  mkResults (filteredKeys results) (processingErrors results)
            (processedKeys results ++ [k]).

(** [`${count} ${noun}`] followed by an ["s"] when [count > 1] *)
Definition counted (count : nat) (noun : string) : string :=
  pretty count +:+ " " +:+ noun +:+ (if (1 <? count)%nat then "s" else EmptyString).

(** The summary of a batch that had failures. *)
Definition summaryMessage (errorCount keyCount : nat) : string :=
  "encountered " +:+ counted errorCount "error"
  +:+ " while attempting to process " +:+ counted keyCount "key".

(** The catch clause of the key loop:
    [e instanceof Error ? e : new Error(`unknown error: ${serializeError(e)}`)] *)
Definition keyLevelError (e : Thrown) : JsError :=
  match e with
  | ThrownError err => err
  | ThrownValue text => newError ("unknown error: " +:+ text)
  end.

(** The catch clause of the handler: the same with [JSON.stringify(e)]; the
    embedding keeps one text for a thrown value that is not an [Error]. *)
Definition handlerLevelError (e : Thrown) : JsError :=
  match e with
  | ThrownError err => err
  | ThrownValue text => newError ("unknown error: " +:+ text)
  end.

(** ** The handler over its collaborators

    The collaborators are their awaited calls: each takes the outside world
    and gives back a result or a throw, and the world after the call.  The
    repository's own modules that the handler imports ([lib/execution.ts],
    [lib/progressTracking.ts], [lib/environment.ts], the event type guard) and
    the SDK clients, [node-fetch] and [papaparse] are the fields of [Env]. *)

Section Pipeline.

Context {Event World Failure : Type}.

(** The second argument of [trackProgress], by call site. *)
Inductive ProgressContext :=
  | CtxStart (input : Event) (executionId : string)
  | CtxGrouped (grouped : GroupedEventKeys)
  | CtxConverted (senderId : string) (inventoryJson : list Item)
  | CtxSkipped (k : string) (skippedInventoryItems : list Item)
  | CtxKeyError (k : string) (error : JsError)
  | CtxResults (results : ProcessingResults)
  | CtxHandlerError (error : JsError).

Record Env := mkEnv {
  (* lib/execution.ts *)
  functionName : Thrown + string;
  generateExecutionId : Event -> Thrown + string;
  recordNewExecution : string -> Event -> World -> (Thrown + unit) * World;
  markExecutionAsSuccessful : string -> World -> (Thrown + unit) * World;
  failedExecution : string -> JsError -> World -> (Thrown + Failure) * World;
  (* lib/progressTracking.ts *)
  trackProgress : string -> ProgressContext -> World -> (Thrown + unit) * World;
  (* Convert.toBucketNotificationEvent(JSON.stringify(event)).Records *)
  toBucketNotificationEvent : Event -> Thrown + list BucketNotificationRecord;
  (* lib/environment.ts *)
  requiredEnvVar : string -> Thrown + string;
  (* bucketsClient.send(new GetObjectCommand(k)), then consumers.text *)
  getObjectText : KeyToProcess -> World -> (Thrown + string) * World;
  (* bucketsClient.send(new DeleteObjectCommand(k)) *)
  deleteObject : KeyToProcess -> World -> (Thrown + unit) * World;
  (* stashClient.send(new GetValueCommand({ key, keyspaceName })).value *)
  getValue : string -> string -> World -> (Thrown + option StashValue) * World;
  (* stashClient.send(new SetValueCommand({ key, value, keyspaceName })) *)
  setValue : string -> StashValue -> string -> World -> (Thrown + unit) * World;
  (* fetch(url, { method: "POST", ..., body: JSON.stringify({ [senderId]: items }) }) *)
  fetchPost : string -> string -> list Item -> World -> (Thrown + unit) * World;
  (* papaparse.parse *)
  papaparse_parse : string -> ParseConfig -> ParseResult;
  (* String.prototype.toLowerCase *)
  toLowerCase : string -> string
}.

(** The calls that leave the function, in the order they are made. *)
Inductive Call :=
  | CallTrackProgress (message : string) (context : ProgressContext)
  | CallRecordNewExecution (executionId : string)
  | CallMarkExecutionAsSuccessful (executionId : string)
  | CallFailedExecution (executionId : string) (error : JsError)
  | CallGetObject (k : KeyToProcess)
  | CallDeleteObject (k : KeyToProcess)
  | CallGetValue (k keyspaceName : string) (response : Thrown + option StashValue)
  | CallSetValue (k : string) (value : StashValue) (keyspaceName : string)
  | CallFetchPost (url senderId : string) (inventoryJson : list Item).

Record State := mkState { world : World; trace : list Call }.

(** An asynchronous computation: runs from a state, ends in a value or a
    throw (a rejected promise) and the state it leaves behind. *)
Definition M (A : Type) : Type := State -> (Thrown + A) * State.

Definition ret {A} (a : A) : M A := fun s => (inr a, s).

Definition bind {A B} (m : M A) (k : A -> M B) : M B :=
  fun s =>
    match m s with
    | (inr a, s') => k a s'
    | (inl e, s') => (inl e, s')
    end.

(** A synchronous step that may throw and touches nothing outside. *)
Definition liftE {A} (r : Thrown + A) : M A := fun s => (r, s).

(** [try { body } catch (e) { handler e }]: what [body] did before it threw
    stays done. *)
Definition tryCatch {A} (body : M A) (handler : Thrown -> M A) : M A :=
  fun s =>
    match body s with
    | (inl e, s') => handler e s'
    | (inr a, s') => (inr a, s')
    end.

(** An awaited call to a collaborator, entered in the trace. *)
Definition call {A} (event : Thrown + A -> Call)
    (op : World -> (Thrown + A) * World) : M A :=
  fun s =>
    let '(r, w) := op (world s) in
    (r, mkState w (trace s ++ [event r])).

(** [Promise.all(callbacks)]: every callback runs (each one here to its end
    before the next, in the order [map] started them); the result is the
    list of their values, or the first rejection. *)
Fixpoint promiseAll {A} (callbacks : list (M A)) : M (list A) :=
  match callbacks with
  | [] => ret []
  | callback :: rest =>
      fun s =>
        match callback s with
        | (inr a, s1) =>
            match promiseAll rest s1 with
            | (inr l, s2) => (inr (a :: l), s2)
            | (inl e, s2) => (inl e, s2)
            end
        | (inl e, s1) => (inl e, snd (promiseAll rest s1))
        end
  end.

End Pipeline.

Arguments ProgressContext : clear implicits.
Arguments Env : clear implicits.
Arguments Call : clear implicits.
Arguments State : clear implicits.
Arguments M : clear implicits.

Declare Scope async_scope.
Delimit Scope async_scope with async.
Notation "x <- m ;; k" := (bind m (fun x => k))
  (at level 100, m at next level, right associativity) : async_scope.
Notation "m ;;; k" := (bind m (fun _ => k))
  (at level 100, right associativity) : async_scope.

(** What the handler hands back to its caller. *)
Inductive Outcome {Failure : Type} :=
  | Results (results : ProcessingResults)
  | Failed (failure : Failure).
Arguments Outcome : clear implicits.

(** What a [return] statement of the handler carries: the results, or the
    promise of [failedExecution(executionId, error)], which is returned
    without being awaited and so settles outside the [try]. *)
Inductive Returned :=
  | ReturnResults (results : ProcessingResults)
  | ReturnFailedExecution (executionId : string) (error : JsError).

Section Handler.

Context {Event World Failure : Type}.
Variable env : Env Event World Failure.

Local Open Scope async_scope.
Local Abbreviation Async := (M Event World).

Definition awaitTrackProgress (message : string)
    (context : ProgressContext Event) : Async unit :=
  call (fun _ => CallTrackProgress message context)
       (trackProgress env message context).

Definition awaitRecordNewExecution (executionId : string) (event : Event)
    : Async unit :=
  call (fun _ => CallRecordNewExecution executionId)
       (recordNewExecution env executionId event).

Definition awaitMarkExecutionAsSuccessful (executionId : string) : Async unit :=
  call (fun _ => CallMarkExecutionAsSuccessful executionId)
       (markExecutionAsSuccessful env executionId).

Definition awaitFailedExecution (executionId : string) (error : JsError)
    : Async Failure :=
  call (fun _ => CallFailedExecution executionId error)
       (failedExecution env executionId error).

Definition awaitGetObject (k : KeyToProcess) : Async string :=
  call (fun _ => CallGetObject k) (getObjectText env k).

Definition awaitDeleteObject (k : KeyToProcess) : Async unit :=
  call (fun _ => CallDeleteObject k) (deleteObject env k).

Definition awaitGetValue (k keyspaceName : string) : Async (option StashValue) :=
  call (fun r => CallGetValue k keyspaceName r) (getValue env k keyspaceName).

Definition awaitSetValue (k : string) (value : StashValue)
    (keyspaceName : string) : Async unit :=
  call (fun _ => CallSetValue k value keyspaceName)
       (setValue env k value keyspaceName).

Definition awaitFetch (url senderId : string) (inventoryJson : list Item)
    : Async unit :=
  call (fun _ => CallFetchPost url senderId inventoryJson)
       (fetchPost env url senderId inventoryJson).

(** *** [lib/converter.ts] *)

(** [`${result.errors}`]: the array of error objects as a string. *)
Definition renderErrors (errs : list ParseError) : string :=
  String.concat "," (map (fun _ => "[object Object]") errs).

Definition convertCsvToJson (inputCsv : string)
    (parseConfig : option ParseConfig) : Thrown + list Item :=
  let config := default defaultCsvToJsonConversionOptions parseConfig in
  let result := papaparse_parse env inputCsv config in
  if (0 <? List.length (errors result))%nat then
    throwE (newError
      ("error" +:+ (if (1 <? List.length (errors result))%nat then "s"
                    else EmptyString)
       +:+ " encountered converting CSV to JSON: "
       +:+ renderErrors (errors result)))
  else inr (data result).

(** [{ ...defaultCsvToJsonConversionOptions, transformHeader }] *)
Definition conversionOptions (f : string -> string) : ParseConfig :=
  mkParseConfig (header defaultCsvToJsonConversionOptions)
                (skipEmptyLines defaultCsvToJsonConversionOptions)
                (quoteChar defaultCsvToJsonConversionOptions)
                (Some f).

(** *** The body of the [try] of the key loop, handler that merges into
    Stash *)

(** The callback of [inventoryJson.map]; its value is the item when it was
    pushed to [skippedInventoryItems]. *)
Definition itemCallback (senderId : string) (item : Item)
    : Async (option Item) :=
  if missingRequired item then ret (Some item)
  else
    existingInventoryForSku <-
      awaitGetValue (prop item "sku") INVENTORY_DATA_STASH_KEYSPACE_NAME;;
    let value := mergedValue existingInventoryForSku senderId item in
    awaitSetValue (prop item "sku") value INVENTORY_DATA_STASH_KEYSPACE_NAME;;;
    ret None.

(** From [const skippedInventoryItems = []] to the end of the [try]. *)
Definition persistAndSettle (keyToProcess : KeyToProcess) (senderId : string)
    (inventoryJson : list Item) (results : ProcessingResults)
    : Async ProcessingResults :=
  outcomes <- promiseAll (map (itemCallback senderId) inventoryJson);;
  let skippedInventoryItems := omap id outcomes in
  if (0 <? List.length skippedInventoryItems)%nat then
    awaitTrackProgress skipMessage
      (CtxSkipped (key keyToProcess) skippedInventoryItems);;;
    ret (pushError results (key keyToProcess) (newError skipMessage))
  else
    awaitDeleteObject keyToProcess;;;
    ret (pushProcessed results (key keyToProcess)).

Definition tryBlock_stash (destinationWebhookUrl : string)
    (keyToProcess : KeyToProcess) (senderId fileContents : string)
    (results : ProcessingResults) : Async ProcessingResults :=
  inventoryJson <- liftE (convertCsvToJson fileContents
    (Some (conversionOptions (transformHeader_stash (toLowerCase env)))));;
  awaitTrackProgress "converted inventory JSON"
    (CtxConverted senderId inventoryJson);;;
  awaitFetch destinationWebhookUrl senderId inventoryJson;;;
  persistAndSettle keyToProcess senderId inventoryJson results.

(** *** The same, handler that only forwards *)

Definition tryBlock_forward (destinationWebhookUrl : string)
    (keyToProcess : KeyToProcess) (senderId fileContents : string)
    (results : ProcessingResults) : Async ProcessingResults :=
  inventoryJson <- liftE (convertCsvToJson fileContents
    (Some (conversionOptions (transformHeader_forward (toLowerCase env)))));;
  awaitTrackProgress "converted inventory JSON"
    (CtxConverted senderId inventoryJson);;;
  awaitFetch destinationWebhookUrl senderId inventoryJson;;;
  awaitDeleteObject keyToProcess;;;
  ret (pushProcessed results (key keyToProcess)).

(** *** The handler, common to both versions *)

Variable tryBlock :
  string -> KeyToProcess -> string -> string -> ProcessingResults ->
  Async ProcessingResults.

(** One turn of [for await (const keyToProcess of ...)]. *)
Definition processKey (destinationWebhookUrl : string)
    (results : ProcessingResults) (keyToProcess : KeyToProcess)
    : Async ProcessingResults :=
  senderId <- liftE (extractShopIdFromKey (key keyToProcess));;
  fileContents <- awaitGetObject keyToProcess;;
  tryCatch
    (tryBlock destinationWebhookUrl keyToProcess senderId fileContents results)
    (fun e =>
       let error := keyLevelError e in
       awaitTrackProgress "error processing document"
         (CtxKeyError (key keyToProcess) error);;;
       ret (pushError results (key keyToProcess) error)).

Fixpoint processKeys (destinationWebhookUrl : string)
    (results : ProcessingResults) (keysToProcess : list KeyToProcess)
    : Async ProcessingResults :=
  match keysToProcess with
  | [] => ret results
  | keyToProcess :: rest =>
      results' <- processKey destinationWebhookUrl results keyToProcess;;
      processKeys destinationWebhookUrl results' rest
  end.

(** After the loop: failure summary or success. *)
Definition finalize (executionId : string) (groupedEventKeys : GroupedEventKeys)
    (results : ProcessingResults) : Async Returned :=
  let errorCount := List.length (processingErrors results) in
  if (0 <? errorCount)%nat then
    let keyCount := List.length (g_keysToProcess groupedEventKeys) in
    ret (ReturnFailedExecution executionId
           (newError (summaryMessage errorCount keyCount)))
  else
    awaitMarkExecutionAsSuccessful executionId;;;
    awaitTrackProgress "results" (CtxResults results);;;
    ret (ReturnResults results).

(** The body of the handler's [try]. *)
Definition handlerTry (executionId : string) (event : Event) : Async Returned :=
  awaitRecordNewExecution executionId event;;;
  records <- liftE (toBucketNotificationEvent env event);;
  destinationWebhookUrl <- liftE (requiredEnvVar env "DESTINATION_WEBHOOK_URL");;
  groupedEventKeys <- liftE (groupEventKeys records);;
  awaitTrackProgress "grouped event keys" (CtxGrouped groupedEventKeys);;;
  let results :=
    mkResults (g_filteredKeys groupedEventKeys) [] [] in
  results' <- processKeys destinationWebhookUrl results
                (g_keysToProcess groupedEventKeys);;
  finalize executionId groupedEventKeys results'.

(** The handler's [catch]. *)
Definition handlerCatch (executionId : string) (e : Thrown) : Async Returned :=
  let error := handlerLevelError e in
  awaitTrackProgress "handler error" (CtxHandlerError error);;;
  ret (ReturnFailedExecution executionId error).

(** Settling what was returned. *)
Definition settle (r : Returned) : Async (Outcome Failure) :=
  match r with
  | ReturnResults results => ret (Results results)
  | ReturnFailedExecution executionId error =>
      failure <- awaitFailedExecution executionId error;;
      ret (Failed failure)
  end.

Definition handlerWith (event : Event) : Async (Outcome Failure) :=
  executionId <- liftE (generateExecutionId env event);;
  name <- liftE (functionName env);;
  awaitTrackProgress ("starting " +:+ name) (CtxStart event executionId);;;
  returned <- tryCatch (handlerTry executionId event) (handlerCatch executionId);;
  settle returned.

End Handler.

(** The two checked-in handlers. *)
Definition handler_stash {Event World Failure} (env : Env Event World Failure)
    : Event -> M Event World (Outcome Failure) :=
  handlerWith env (tryBlock_stash env).

Definition handler_forward {Event World Failure} (env : Env Event World Failure)
    : Event -> M Event World (Outcome Failure) :=
  handlerWith env (tryBlock_forward env).

(** ** Vocabulary of the properties *)

Section Vocabulary.

Context {Event World Failure : Type}.

(** Modelled from the spec: the bodies of [generateExecutionId],
    [functionName], [failedExecution] ([lib/execution.ts]) and [trackProgress]
    ([lib/progressTracking.ts]) are not part of the sources at hand.  The
    specification has the tracker "return a structured failure result instead
    of throwing" and the progress events be an observer hook: the four
    helpers, which the handler calls outside its [try], do not throw. *)
Definition trackerNeverThrows (env : Env Event World Failure) : Prop :=
  (exists name, functionName env = inr name)
  /\ (forall event, exists executionId,
        generateExecutionId env event = inr executionId)
  /\ (forall message context w,
        fst (trackProgress env message context w) = inr tt)
  /\ (forall executionId error w, exists failure,
        fst (failedExecution env executionId error w) = inr failure).

(** A [try] block that ends normally has pushed the key to [processedKeys]
    or an entry for it to [processingErrors], and nothing else. *)
Definition settlesKey
    (tryBlock : string -> KeyToProcess -> string -> string ->
                ProcessingResults -> M Event World ProcessingResults) : Prop :=
  forall url k senderId fileContents results s results' s',
    tryBlock url k senderId fileContents results s = (inr results', s') ->
    results' = pushProcessed results (key k)
    \/ exists error, results' = pushError results (key k) error.

(** [m] only adds to the trace, and what it adds satisfies [P]. *)
Definition emits {A} (P : Call Event -> Prop) (m : M Event World A) : Prop :=
  forall s, exists calls,
    trace (snd (m s)) = trace s ++ calls /\ Forall P calls.

(** A call of the item callbacks: a read of the keyspace, or the write of a
    complete item of [items] merged for [senderId] into some read value. *)
Definition storeCall (senderId : string) (items : list Item)
    (c : Call Event) : Prop :=
  match c with
  | CallGetValue _ _ _ => True
  | CallSetValue k value keyspaceName =>
      exists item existing,
        item ∈ items /\ missingRequired item = false
        /\ k = prop item "sku"
        /\ keyspaceName = INVENTORY_DATA_STASH_KEYSPACE_NAME
        /\ value = mergedValue existing senderId item
  | _ => False
  end.

(** A call of the [try] block of one key in the handler that merges into
    Stash: a write to the keyspace comes from a complete item; a POST
    carries every converted item. *)
Definition keyCall (url senderId : string) (items : list Item)
    (c : Call Event) : Prop :=
  match c with
  | CallSetValue _ _ _ => storeCall senderId items c
  | CallFetchPost u sid body => u = url /\ sid = senderId /\ body = items
  | _ => True
  end.

Definition notDelete (c : Call Event) : Prop :=
  match c with
  | CallDeleteObject _ => False
  | _ => True
  end.

End Vocabulary.

(** ** A small concrete deployment, to run the handler

    One bucket, the Stash keyspace, the destination webhook, and a line-based
    CSV reader in place of [papaparse]. A missing object makes [GetObject]
    throw; [stashWritable = false] makes every [SetValue] throw. *)

Module Demo.

Record World := mkWorld {
  objects : gmap string string;
  stash : gmap string StashValue;
  posts : list (string * string * list Item);
  stashWritable : bool
}.

Definition Event : Type := list BucketNotificationRecord.

Record Failure := mkFailure { f_executionId : string; f_error : JsError }.

Definition lineFeed : ascii := ascii_of_nat 10.

Definition nonEmpty (s : string) : bool := negb (String.eqb s EmptyString).

Definition applyTransform (config : ParseConfig) (h : string) : string :=
  match transformHeader config with
  | Some f => f h
  | None => h
  end.

Definition parse (input : string) (config : ParseConfig) : ParseResult :=
  match List.filter nonEmpty (Js.split lineFeed input) with
  | [] => mkParseResult [] []
  | headerLine :: rows =>
      let headers := map (applyTransform config) (Js.split "," headerLine) in
      let cells (row : string) := Js.split "," row in
      let short (row : string) :=
        negb (List.length (cells row) =? List.length headers)%nat in
      mkParseResult
        (map (fun row => list_to_map (zip headers (cells row))) rows)
        (map (fun _ => mkParseError "FieldMismatch" "TooFewFields"
                         "wrong number of fields")
             (List.filter short rows))
  end.

Definition webhookUrl : string := "https://webhook.example/inbox".

Definition env : Env Event World Failure := {|
  functionName := inr "inventory-feed-processor";
  generateExecutionId := fun _ => inr "execution-1";
  recordNewExecution := fun _ _ w => (inr tt, w);
  markExecutionAsSuccessful := fun _ w => (inr tt, w);
  failedExecution := fun executionId error w =>
    (inr (mkFailure executionId error), w);
  trackProgress := fun _ _ w => (inr tt, w);
  toBucketNotificationEvent := fun event => inr event;
  requiredEnvVar := fun name =>
    if String.eqb name "DESTINATION_WEBHOOK_URL" then inr webhookUrl
    else throwE (newError "required environment variable missing");
  getObjectText := fun k w =>
    match objects w !! key k with
    | Some text => (inr text, w)
    | None => (throwE (newError "NoSuchKey"), w)
    end;
  deleteObject := fun k w =>
    (inr tt, mkWorld (delete (key k) (objects w)) (stash w) (posts w)
                     (stashWritable w));
  getValue := fun k _ w => (inr (stash w !! k), w);
  setValue := fun k value _ w =>
    if stashWritable w then
      (inr tt, mkWorld (objects w) (<[k := value]> (stash w)) (posts w) true)
    else (throwE (newError "stash unavailable"), w);
  fetchPost := fun url senderId inventoryJson w =>
    (inr tt, mkWorld (objects w) (stash w)
                     (posts w ++ [(url, senderId, inventoryJson)])
                     (stashWritable w));
  papaparse_parse := parse;
  toLowerCase := asciiToLowerCase
|}.

Definition lines (ls : list string) : string :=
  String.concat (String lineFeed EmptyString) ls.

(** Two complete rows. *)
Definition feedComplete : string :=
  lines ["SKU,Quantity,Price"; "X,3,10"; "Y,1,25"].

(** No price column: every row lacks [price]. *)
Definition feedNoPrice : string :=
  lines ["SKU,Quantity"; "X,3"].

(** The state before an invocation: the objects of the bucket, an empty
    keyspace, nothing posted yet, an empty trace. *)
Definition start (objs : list (string * string)) (writable : bool)
    : State Event World :=
  mkState (mkWorld (list_to_map objs) ∅ [] writable) [].

Definition keyA : string := "trading_partners/shop_1/inventory/feed.csv".

End Demo.

(** ** Vocabulary of the further properties *)

(** [s.includes(c)] for one character. *)
Fixpoint hasChar (c : ascii) (s : string) : bool :=
  match s with
  | EmptyString => false
  | String a rest => Ascii.eqb a c || hasChar c rest
  end.

(** [segments.join("/")] *)
Definition joinPath (segments : list string) : string :=
  String.concat "/" segments.

(** The message of the error of [convertCsvToJson] for [n] parse errors. *)
Definition conversionErrorMessage (n : nat) : string :=
  "error" +:+ (if (1 <? n)%nat then "s" else EmptyString)
  +:+ " encountered converting CSV to JSON: "
  +:+ String.concat "," (replicate n "[object Object]").

(** The reason the classifier gives for a key it filters. *)
Definition filterReason (rawKey : string) : string :=
  if Js.endsWith rawKey "/" then folderReason else mismatchReason.

Section FurtherVocabulary.

Context {Event World Failure : Type}.

(** The calls to the bucket, the keyspace and the webhook, as opposed to the
    calls to the execution tracker and the progress hook. *)
Definition dataCall (c : Call Event) : Prop :=
  match c with
  | CallGetObject _ | CallDeleteObject _ | CallGetValue _ _ _
  | CallSetValue _ _ _ | CallFetchPost _ _ _ => True
  | _ => False
  end.

Definition trackerCall (c : Call Event) : Prop := ~ dataCall c.

Definition notStoreCall (c : Call Event) : Prop :=
  match c with
  | CallGetValue _ _ _ | CallSetValue _ _ _ => False
  | _ => True
  end.

(** A call to the keyspace names the inventory keyspace, and a value written
    has an entry. *)
Definition inventoryCall (c : Call Event) : Prop :=
  match c with
  | CallGetValue _ keyspaceName _ =>
      keyspaceName = INVENTORY_DATA_STASH_KEYSPACE_NAME
  | CallSetValue _ value keyspaceName =>
      keyspaceName = INVENTORY_DATA_STASH_KEYSPACE_NAME /\ value <> ∅
  | _ => True
  end.

(** A keyspace that answers a read with what was last written: [view] is its
    content, reads leave it alone, writes do not throw and set one key. *)
Definition storeView (env : Env Event World Failure)
    (view : World -> gmap string StashValue) : Prop :=
  (forall k keyspaceName w,
     getValue env k keyspaceName w = (inr (view w !! k), w))
  /\ (forall k value keyspaceName w,
        fst (setValue env k value keyspaceName w) = inr tt
        /\ view (snd (setValue env k value keyspaceName w))
           = <[k := value]> (view w)).

(** The tracker and the hook answer every call. *)
Definition trackerAnswers (env : Env Event World Failure) : Prop :=
  trackerNeverThrows env
  /\ (forall executionId event w,
        fst (recordNewExecution env executionId event w) = inr tt)
  /\ (forall executionId w,
        fst (markExecutionAsSuccessful env executionId w) = inr tt).

End FurtherVocabulary.

(** The webhook, the deletion and the keyspace answer every call. *)
Definition servicesAnswer {Event World Failure : Type}
    (env : Env Event World Failure) : Prop :=
  (forall url senderId items w,
     fst (fetchPost env url senderId items w) = inr tt)
  /\ (forall k w, fst (deleteObject env k w) = inr tt)
  /\ (forall k keyspaceName w, exists value,
        fst (getValue env k keyspaceName w) = inr value)
  /\ (forall k value keyspaceName w,
        fst (setValue env k value keyspaceName w) = inr tt).

(** Every object can be fetched and its text is parsed without error under
    the given header transformation; with [complete], every row parsed has
    the required attributes. *)
Definition feedsConvert {Event World Failure : Type}
    (env : Env Event World Failure) (transform : string -> string)
    (complete : bool) : Prop :=
  forall k w, exists text,
    fst (getObjectText env k w) = inr text
    /\ errors (papaparse_parse env text (conversionOptions transform)) = []
    /\ (complete = true ->
        Forall (fun item => missingRequired item = false)
               (data (papaparse_parse env text (conversionOptions transform)))).

(** The demo deployment with a keyspace that takes every write, a bucket
    whose every object reads as the complete feed, and a webhook that can be
    down. *)
Definition steadyEnv (webhookUp : bool)
    : Env Demo.Event Demo.World Demo.Failure :=
  mkEnv (functionName Demo.env) (generateExecutionId Demo.env)
    (recordNewExecution Demo.env) (markExecutionAsSuccessful Demo.env)
    (failedExecution Demo.env) (trackProgress Demo.env)
    (toBucketNotificationEvent Demo.env) (requiredEnvVar Demo.env)
    (fun _ w => (inr Demo.feedComplete, w))
    (deleteObject Demo.env)
    (getValue Demo.env)
    (fun k value _ w =>
       (inr tt, Demo.mkWorld (Demo.objects w) (<[k := value]> (Demo.stash w))
                             (Demo.posts w) (Demo.stashWritable w)))
    (fun url senderId inventoryJson w =>
       if webhookUp then fetchPost Demo.env url senderId inventoryJson w
       else (throwE (newError "ECONNREFUSED"), w))
    (papaparse_parse Demo.env) (toLowerCase Demo.env).

(** * Properties *)

(** ** The primitives on examples *)

Example split_scenario_A :
  Js.split "/" "trading_partners/shop_1/inventory/feed.csv"
  = ["trading_partners"; "shop_1"; "inventory"; "feed.csv"].
Proof. reflexivity. Qed.

Example decode_plus_and_percent :
  decodeObjectKey "a+b%2Fc%C3%A9" = inr ("a b/c" +:+ Js.octetsToString [195; 169]%N).
Proof. reflexivity. Qed.

Example decode_malformed :
  decodeObjectKey "x/inventory/100%" = throwE Js.uriMalformed.
Proof. reflexivity. Qed.

Example group_scenario_C :
  groupEventKeys [mkRecord "b" "trading_partners/shop_1/inventory/";
                  mkRecord "b" "other/shop_1/x.csv"]
  = inr (mkGrouped
           [mkFilteredKey "trading_partners/shop_1/inventory/" folderReason;
            mkFilteredKey "other/shop_1/x.csv" mismatchReason] []).
Proof. reflexivity. Qed.

Example header_forward :
  transformHeader_forward asciiToLowerCase "Unit  Price / EUR" = "unit_price_eur".
Proof. reflexivity. Qed.

Example header_stash :
  transformHeader_stash asciiToLowerCase "Unit  Price / EUR" = "unit_price_/_eur".
Proof. reflexivity. Qed.

Example split_edges :
  Js.split "/" EmptyString = [EmptyString]
  /\ Js.split "/" "/" = [EmptyString; EmptyString]
  /\ Js.split "/" "a//b/" = ["a"; EmptyString; "b"; EmptyString]
  /\ Js.split "/" "feed.csv" = ["feed.csv"].
Proof. repeat split. Qed.

Example endsWith_edges :
  Js.endsWith EmptyString "/" = false
  /\ Js.endsWith "/" "/" = true
  /\ Js.endsWith "a/b" "/" = false.
Proof. repeat split. Qed.

(** Escapes that are not the UTF-8 form of a code point are refused:
    truncated or non-hexadecimal escapes, a lone continuation octet, an
    overlong form, a surrogate, a value above U+10FFFF, a sequence cut
    short; hexadecimal digits are accepted in both cases. *)
Example decode_refusals :
  Forall (fun s => Js.decodeURIComponent s = throwE Js.uriMalformed)
    ["%"; "%2"; "%zz"; "%80"; "%C0%80"; "%ED%A0%80"; "%F4%90%80%80";
     "%C3"; "%C3x"; "%C3%28"; "%F8%88%80%80%80"]
  /\ Js.decodeURIComponent "%e4%bd%a0%F0%9F%98%80"
     = inr (Js.octetsToString [228; 189; 160; 240; 159; 152; 128]%N)
  /\ Js.decodeURIComponent "a%25b%2Bc" = inr "a%b+c".
Proof. split; [repeat constructor|split; reflexivity]. Qed.

Example extract_sender :
  extractShopIdFromKey "trading_partners/shop_1/inventory/feed.csv" = inr "shop_1"
  /\ extractShopIdFromKey "inventory/feed.csv"
     = throwE (newError "unable to extract sender ID from object key").
Proof. split; reflexivity. Qed.

(** ** The header transformation *)

Section Runs.

Variable inClass : ascii -> bool.

(** The runs of [maximalRuns] tile the string. *)
Lemma maximalRuns_tiles s :
  joinStrings (map snd (maximalRuns inClass s)) = s.
Proof.
  induction s as [|c rest IH]; [reflexivity|].
  simpl. destruct (maximalRuns inClass rest) as [|[b run] runs].
  - simpl in *. by rewrite <- IH.
  - destruct (Bool.eqb b (inClass c)); simpl in *; by rewrite <- IH.
Qed.

(** Each run is not empty and made of one kind of character. *)
Lemma maximalRuns_homogeneous s :
  Forall (homogeneous inClass) (maximalRuns inClass s).
Proof.
  induction s as [|c rest IH]; [constructor|].
  simpl. destruct (maximalRuns inClass rest) as [|[b run] runs].
  - constructor; [|constructor]. split; [done|].
    simpl. intros c' [<-|[]]. done.
  - destruct (Bool.eqb b (inClass c)) eqn:Hb.
    + apply Bool.eqb_prop in Hb. subst b.
      inversion IH as [|? ? [_ Hrun] Hruns]; subst.
      constructor; [|done]. split; [done|].
      simpl. intros c' [<-|Hin]; [done|]. by apply Hrun.
    + constructor; [|done]. split; [done|].
      simpl. intros c' [<-|[]]. done.
Qed.

(** Two neighbouring runs are of different kinds: the runs are maximal. *)
Lemma maximalRuns_alternating s : alternating (maximalRuns inClass s).
Proof.
  induction s as [|c rest IH]; [done|].
  simpl. destruct (maximalRuns inClass rest) as [|[b run] runs]; [done|].
  destruct (Bool.eqb b (inClass c)) eqn:Hb.
  - destruct runs; [done|]. exact IH.
  - split; [|exact IH]. simpl. intros Heq.
    rewrite Heq, Bool.eqb_reflx in Hb. discriminate.
Qed.

(** The scanner of [replace] against the runs, in both of its states. *)
Lemma replaceRuns_runs s :
  Js.replaceRuns inClass "_" false s
    = joinStrings (map collapseRun (maximalRuns inClass s))
  /\ Js.replaceRuns inClass "_" true s
    = joinStrings (map collapseRun (dropLeadingMatch (maximalRuns inClass s))).
Proof.
  induction s as [|c rest [IHout IHin]]; [done|].
  simpl. rewrite IHout, IHin.
  destruct (inClass c) eqn:Hc;
    destruct (maximalRuns inClass rest) as [|[[] run] runs]; simpl; done.
Qed.

Lemma replaceRuns_collapse s :
  Js.replaceRuns inClass "_" false s = collapseRuns inClass s.
Proof. apply replaceRuns_runs. Qed.

End Runs.

(** C7, as the specification words it, fails for the handler that merges into
    Stash: its pattern is [/ +/g], a slash is not a separator there. *)
Lemma C7_stash_keeps_slashes :
  transformHeader_stash asciiToLowerCase "Unit/Price"
    <> specTransformHeader asciiToLowerCase "Unit/Price"
  /\ transformHeader_stash asciiToLowerCase "Unit/Price" = "unit/price"
  /\ specTransformHeader asciiToLowerCase "Unit/Price" = "unit_price".
Proof. by vm_compute. Qed.

(** C7 (amended): the header transformation is lower-casing followed by the
    collapse of every maximal run of separators into one underscore, the
    separators being space and slash in the handler that only forwards and
    space alone in the handler that merges into Stash. *)
Theorem C7_header_transformation (toLowerCase : string -> string) (header : string) :
  transformHeader_forward toLowerCase header
    = specTransformHeader toLowerCase header
  /\ transformHeader_stash toLowerCase header
    = collapseRuns isSpace (toLowerCase header).
Proof.
  split; apply replaceRuns_collapse.
Qed.

(** ** The classifier *)

Lemma substring_all s : substring 0 (String.length s) s = s.
Proof. induction s as [|c s IH]; simpl; [done|]. by rewrite IH. Qed.

Lemma substring_skip front s n :
  substring (String.length front) n (front +:+ s) = substring 0 n s.
Proof. induction front as [|c front IH]; simpl; done. Qed.

Lemma substring_split s k :
  (k <= String.length s)%nat ->
  s = substring 0 k s +:+ substring k (String.length s - k) s.
Proof.
  revert k. induction s as [|c s IH]; intros [|k] Hk; simpl in *; try lia.
  - done.
  - by rewrite substring_all.
  - change (String c s = String c (substring 0 k s +:+ substring k (String.length s - k) s)).
    f_equal. apply IH. lia.
Qed.

Lemma length_append s1 s2 :
  String.length (s1 +:+ s2) = (String.length s1 + String.length s2)%nat.
Proof.
  induction s1 as [|c s1 IH]; [done|].
  change (S (String.length (s1 +:+ s2))
          = S (String.length s1 + String.length s2)).
  by rewrite IH.
Qed.

(** [endsWith] is "ends in". *)
Lemma endsWith_spec s suffix :
  Js.endsWith s suffix = true <-> exists front, s = front +:+ suffix.
Proof.
  unfold Js.endsWith. rewrite andb_true_iff, Nat.leb_le, String.eqb_eq. split.
  - intros [Hle Hsub]. exists (substring 0 (String.length s - String.length suffix) s).
    pose proof (substring_split s (String.length s - String.length suffix)
                  ltac:(lia)) as Hs.
    replace (String.length s - (String.length s - String.length suffix))%nat
      with (String.length suffix) in Hs by lia.
    rewrite Hsub in Hs. exact Hs.
  - intros [front ->]. rewrite length_append. split; [lia|].
    replace (String.length front + String.length suffix - String.length suffix)%nat
      with (String.length front) by lia.
    rewrite substring_skip. apply substring_all.
Qed.

(** The path test is "fewer than two segments, or a second-to-last segment
    other than [inventory]". *)
Lemma notInInventoryDirectory_spec (segments : list string) :
  notInInventoryDirectory segments = true <->
  (List.length segments < 2)%nat
  \/ segments !! (List.length segments - 2)%nat <> Some "inventory".
Proof.
  unfold notInInventoryDirectory.
  rewrite orb_true_iff, Nat.ltb_lt, negb_true_iff, bool_decide_eq_false. tauto.
Qed.

(** With two segments or more, the segment tested is the one before the
    last. *)
Lemma second_to_last (front : list string) (dir last : string) :
  (front ++ [dir; last]) !! (List.length (front ++ [dir; last]) - 2)%nat = Some dir.
Proof.
  rewrite length_app. simpl.
  replace (List.length front + 2 - 2)%nat with (List.length front + 0)%nat by lia.
  rewrite lookup_app_r by lia.
  replace (List.length front + 0 - List.length front)%nat with 0%nat by lia. done.
Qed.

Lemma groupStep_classify filtered collected record :
  groupStep (filtered, collected) record
  = bindE (classify record) (fun c =>
      inr (filtered ++ filteredOf [c], collected ++ eligibleOf [c])).
Proof.
  unfold groupStep, classify, filteredOf, eligibleOf.
  destruct (Js.endsWith _ _); [simpl; by rewrite app_nil_r|].
  destruct (notInInventoryDirectory _); [simpl; by rewrite app_nil_r|].
  destruct (decodeObjectKey _); simpl; [done|].
  by rewrite app_nil_r.
Qed.

Lemma fold_groupStep_thrown records e :
  fold_left (fun acc record => bindE acc (fun st => groupStep st record))
            records (inl e) = inl e.
Proof. induction records as [|r rs IH]; simpl; done. Qed.

Lemma fold_groupStep records : forall filtered collected,
  fold_left (fun acc record => bindE acc (fun st => groupStep st record))
            records (inr (filtered, collected))
  = bindE (classifyAll records) (fun cs =>
      inr (filtered ++ filteredOf cs, collected ++ eligibleOf cs)).
Proof.
  induction records as [|r rs IH]; intros filtered collected.
  - unfold filteredOf, eligibleOf. simpl. by rewrite !app_nil_r.
  - cbn [fold_left classifyAll].
    change (bindE (inr (filtered, collected)) (fun st => groupStep st r))
      with (groupStep (filtered, collected) r).
    rewrite groupStep_classify.
    destruct (classify r) as [e|c]; simpl; [apply fold_groupStep_thrown|].
    rewrite IH. destruct (classifyAll rs) as [e|cs]; simpl; [done|].
    destruct c; simpl; rewrite <- ?app_assoc; done.
Qed.

Lemma groupEventKeys_spec records : groupEventKeys records = specClassifier records.
Proof.
  unfold groupEventKeys, specClassifier. rewrite fold_groupStep.
  destruct (classifyAll records); done.
Qed.

Lemma classifyAll_length records cs :
  classifyAll records = inr cs -> List.length cs = List.length records.
Proof.
  revert cs. induction records as [|r rs IH]; intros cs; simpl.
  - by intros [= <-].
  - destruct (classify r); simpl; [done|].
    destruct (classifyAll rs); simpl; [done|].
    intros [= <-]. simpl. f_equal. by apply IH.
Qed.

Lemma classified_length (cs : list Classification) :
  (List.length (filteredOf cs) + List.length (eligibleOf cs))%nat = List.length cs.
Proof.
  unfold filteredOf, eligibleOf.
  induction cs as [|[f|k] cs IH]; cbn; [done| |]; cbn in IH; lia.
Qed.

(** C8: the classifier of the source, a [reduce] that pushes to a local array,
    computes what the three rules of the specification give when applied to
    each record in order: a raw key ending in ["/"] is filtered as a folder;
    otherwise a key with fewer than two segments, or whose second-to-last
    segment is not [inventory], is filtered as a path mismatch; otherwise the
    key is decoded (["+"] to space, then percent-decoding) and emitted with
    the record's bucket name, a throw of the decoding being the throw of the
    classifier.  It is a function of the records alone: lifted into the
    handler it leaves the state as it found it. *)
Theorem C8_classifier_rules (records : list BucketNotificationRecord) :
  groupEventKeys records = specClassifier records
  /\ (forall record : BucketNotificationRecord,
        let rawKey := s3_object_key record in
        let segments := Js.split "/" rawKey in
        ((exists front, rawKey = front +:+ "/") ->
           classify record = inr (Filtered (mkFilteredKey rawKey folderReason)))
        /\ (~ (exists front, rawKey = front +:+ "/") ->
            (List.length segments < 2)%nat
            \/ segments !! (List.length segments - 2)%nat <> Some "inventory" ->
            classify record = inr (Filtered (mkFilteredKey rawKey mismatchReason)))
        /\ (~ (exists front, rawKey = front +:+ "/") ->
            (2 <= List.length segments)%nat ->
            segments !! (List.length segments - 2)%nat = Some "inventory" ->
            classify record
            = bindE (Js.decodeURIComponent (Js.replaceEach "+" " " rawKey))
                (fun decodedKey =>
                   inr (Eligible (mkKeyToProcess (s3_bucket_name record) decodedKey)))))
  /\ (forall (Event World : Type) (s : State Event World),
        liftE (groupEventKeys records) s = (groupEventKeys records, s)).
Proof.
  split; [apply groupEventKeys_spec|]. split; [|done].
  intros record rawKey segments. unfold classify. fold rawKey. fold segments.
  repeat split.
  - intros Hfolder. apply endsWith_spec in Hfolder. by rewrite Hfolder.
  - intros Hfile Hpath.
    destruct (Js.endsWith rawKey "/") eqn:Hends;
      [by apply endsWith_spec in Hends|].
    apply notInInventoryDirectory_spec in Hpath. by rewrite Hpath.
  - intros Hfile Hlen Hdir.
    destruct (Js.endsWith rawKey "/") eqn:Hends;
      [by apply endsWith_spec in Hends|].
    destruct (notInInventoryDirectory segments) eqn:Hpath; [|done].
    apply notInInventoryDirectory_spec in Hpath as [Hshort|Hother]; [lia|done].
Qed.

(** The third rule on a key with an encoded space. *)
Lemma C8_classifier_rules_witness :
  classify (mkRecord "b" "trading_partners/shop+1/inventory/feed.csv")
  = inr (Eligible (mkKeyToProcess "b" "trading_partners/shop 1/inventory/feed.csv")).
Proof.
  destruct (C8_classifier_rules []) as (_ & Hrules & _).
  destruct (Hrules (mkRecord "b" "trading_partners/shop+1/inventory/feed.csv"))
    as (_ & _ & Heligible).
  rewrite Heligible.
  - reflexivity.
  - intros Hfolder. apply endsWith_spec in Hfolder. discriminate Hfolder.
  - simpl. lia.
  - reflexivity.
Defined.

(** C10: the record with raw key [trading_partners/a%2Fb/inventory/f.csv] is
    eligible, its raw key having four segments with [inventory] before the
    last, while its decoded key has five segments, so the extraction of the
    sender identifier throws for it. *)
Theorem C10_eligible_key_without_sender :
  exists (record : BucketNotificationRecord) (k : KeyToProcess),
    s3_object_key record = "trading_partners/a%2Fb/inventory/f.csv"
    /\ Js.split "/" (s3_object_key record)
       = ["trading_partners"; "a%2Fb"; "inventory"; "f.csv"]
    /\ groupEventKeys [record] = inr (mkGrouped [] [k])
    /\ key k = "trading_partners/a/b/inventory/f.csv"
    /\ List.length (Js.split "/" (key k)) = 5%nat
    /\ extractShopIdFromKey (key k)
       = throwE (newError "unable to extract sender ID from object key").
Proof.
  exists (mkRecord "bucket" "trading_partners/a%2Fb/inventory/f.csv").
  exists (mkKeyToProcess "bucket" "trading_partners/a/b/inventory/f.csv").
  repeat split.
Qed.

(** ** The handler *)

Section HandlerFacts.

Context {Event World Failure : Type}.
Variable env : Env Event World Failure.

Lemma call_run {A} (event : Thrown + A -> Call Event)
    (op : World -> (Thrown + A) * World) (s : State Event World) :
  call event op s
  = (fst (op (world s)),
     mkState (snd (op (world s)))
             (trace s ++ [event (fst (op (world s)))])).
Proof. unfold call. by destruct (op (world s)). Qed.

Lemma bind_inr {A B} (m : M Event World A) (k : A -> M Event World B)
    s a s1 :
  m s = (inr a, s1) -> bind m k s = k a s1.
Proof. unfold bind. by intros ->. Qed.

Lemma bind_inl {A B} (m : M Event World A) (k : A -> M Event World B)
    s e s1 :
  m s = (inl e, s1) -> bind m k s = (inl e, s1).
Proof. unfold bind. by intros ->. Qed.

Lemma awaitTrackProgress_run message context s :
  awaitTrackProgress env message context s
  = (fst (trackProgress env message context (world s)),
     mkState (snd (trackProgress env message context (world s)))
             (trace s ++ [CallTrackProgress message context])).
Proof. unfold awaitTrackProgress. by rewrite call_run. Qed.

Lemma settle_failedExecution executionId error s :
  settle env (ReturnFailedExecution executionId error) s
  = (match fst (failedExecution env executionId error (world s)) with
     | inr failure => inr (Failed failure)
     | inl e => inl e
     end,
     mkState (snd (failedExecution env executionId error (world s)))
             (trace s ++ [CallFailedExecution executionId error])).
Proof.
  simpl. unfold bind, awaitFailedExecution. rewrite call_run.
  by destruct (fst (failedExecution env executionId error (world s))).
Qed.

(** Whatever the [try] of the handler does, the handler hands back a value
    once the tracker helpers called outside of it do not throw. *)
Lemma handlerWith_returns tryBlock :
  trackerNeverThrows env ->
  forall event s, exists outcome s',
    handlerWith env tryBlock event s = (inr outcome, s')
    /\ forall failure, outcome = Failed failure ->
         exists executionId error w,
           fst (failedExecution env executionId error w) = inr failure.
Proof.
  intros ([name Hname] & Hid & Htrack & Hfailed) event s.
  destruct (Hid event) as [executionId Hexec].
  unfold handlerWith.
  erewrite bind_inr; [|unfold liftE; by rewrite Hexec].
  erewrite bind_inr; [|unfold liftE; by rewrite Hname].
  erewrite bind_inr; [|by rewrite awaitTrackProgress_run, Htrack].
  set (s0 := mkState _ _).
  assert (Hsettle : forall id error s1, exists failure,
            settle env (ReturnFailedExecution id error) s1
            = (inr (Failed failure),
               mkState (snd (failedExecution env id error (world s1)))
                       (trace s1 ++ [CallFailedExecution id error]))
            /\ fst (failedExecution env id error (world s1)) = inr failure).
  { intros id error s1. rewrite settle_failedExecution.
    destruct (Hfailed id error (world s1)) as [failure Hf].
    rewrite Hf. eauto. }
  unfold bind, tryCatch.
  destruct (handlerTry env tryBlock executionId event s0)
    as [[e|returned] s1].
  - unfold handlerCatch.
    erewrite bind_inr; [|by rewrite awaitTrackProgress_run, Htrack].
    unfold ret.
    edestruct Hsettle as (failure & -> & Hf).
    eexists (Failed failure), _. split; [done|].
    intros ? [= <-]. eauto.
  - destruct returned as [results|id error].
    + exists (Results results), s1. split; [done|]. intros ? [=].
    + edestruct Hsettle as (failure & -> & Hf).
      eexists (Failed failure), _. split; [done|].
      intros ? [= <-]. eauto.
Qed.

(** Without that, an exception does escape: a throw of the progress hook
    before the [try] is the result of the handler. *)
Lemma handlerWith_escape tryBlock event s name executionId e w :
  functionName env = inr name ->
  generateExecutionId env event = inr executionId ->
  trackProgress env ("starting " +:+ name) (CtxStart event executionId) (world s)
    = (inl e, w) ->
  fst (handlerWith env tryBlock event s) = inl e.
Proof.
  intros Hname Hexec Hthrow.
  unfold handlerWith.
  erewrite bind_inr; [|unfold liftE; by rewrite Hexec].
  erewrite bind_inr; [|unfold liftE; by rewrite Hname].
  erewrite bind_inl; [|by rewrite awaitTrackProgress_run, Hthrow].
  done.
Qed.

End HandlerFacts.

(** C3: for every input event the invocation hands back a structured value,
    the [ProcessingResults] or the failure object made by [failedExecution],
    and no exception escapes.  The helpers of the execution tracker and the
    progress hook, which the handler also calls outside its [try], are taken
    not to throw; every other collaborator may. *)
Theorem C3_handler_always_returns {Event World Failure : Type}
    (env : Env Event World Failure) (event : Event) (s : State Event World) :
  trackerNeverThrows env ->
  (exists outcome s',
     handler_stash env event s = (inr outcome, s')
     /\ forall failure, outcome = Failed failure ->
          exists executionId error w,
            fst (failedExecution env executionId error w) = inr failure)
  /\ (exists outcome s',
        handler_forward env event s = (inr outcome, s')
        /\ forall failure, outcome = Failed failure ->
             exists executionId error w,
               fst (failedExecution env executionId error w) = inr failure).
Proof.
  intros Htracker. split; by apply handlerWith_returns.
Qed.

(** ** The end of the batch *)

Section AggregatorFacts.

Context {Event World Failure : Type}.
Variable env : Env Event World Failure.

Lemma bind_inv {A B} (m : M Event World A) (k : A -> M Event World B)
    s b s' :
  bind m k s = (inr b, s') ->
  exists a s1, m s = (inr a, s1) /\ k a s1 = (inr b, s').
Proof.
  unfold bind. destruct (m s) as [[e|a] s1]; [done|]. eauto.
Qed.

Lemma liftE_inv {A} (r : Thrown + A) (s : State Event World) a s' :
  liftE r s = (inr a, s') -> r = inr a /\ s' = s.
Proof. unfold liftE. by intros [= -> ->]. Qed.

Lemma tryCatch_inv {A} (body : M Event World A) handler s a s' :
  tryCatch body handler s = (inr a, s') ->
  body s = (inr a, s')
  \/ exists e s1, body s = (inl e, s1) /\ handler e s1 = (inr a, s').
Proof.
  unfold tryCatch. destruct (body s) as [[e|a0] s1]; [eauto|].
  intros [= -> ->]. by left.
Qed.

Lemma awaitMarkExecutionAsSuccessful_run executionId s :
  awaitMarkExecutionAsSuccessful env executionId s
  = (fst (markExecutionAsSuccessful env executionId (world s)),
     mkState (snd (markExecutionAsSuccessful env executionId (world s)))
             (trace s ++ [CallMarkExecutionAsSuccessful executionId])).
Proof. unfold awaitMarkExecutionAsSuccessful. by rewrite call_run. Qed.

Lemma finalize_errors executionId grouped results s :
  processingErrors results <> [] ->
  finalize env executionId grouped results s
  = (inr (ReturnFailedExecution executionId
            (newError (summaryMessage
                         (List.length (processingErrors results))
                         (List.length (g_keysToProcess grouped))))), s).
Proof.
  intros Herrors. unfold finalize.
  destruct (processingErrors results); [done|]. done.
Qed.

Lemma finalize_no_error executionId grouped results s :
  processingErrors results = [] ->
  finalize env executionId grouped results s
  = bind (awaitMarkExecutionAsSuccessful env executionId)
      (fun _ => bind (awaitTrackProgress env "results" (CtxResults results))
                  (fun _ => ret (ReturnResults results))) s.
Proof. intros Herrors. unfold finalize. by rewrite Herrors. Qed.

(** The calls made from the end of the loop to the return. *)
Lemma conclude_calls executionId grouped results s :
  exists calls,
    trace (snd (bind (finalize env executionId grouped results)
                     (settle env) s)) = trace s ++ calls
    /\ (CallMarkExecutionAsSuccessful executionId ∈ calls
        <-> processingErrors results = [])
    /\ (processingErrors results <> [] ->
        calls = [CallFailedExecution executionId
                   (newError (summaryMessage
                                (List.length (processingErrors results))
                                (List.length (g_keysToProcess grouped))))]).
Proof.
  destruct (decide (processingErrors results = [])) as [Hnone|Hsome].
  - exists (CallMarkExecutionAsSuccessful executionId ::
            match fst (markExecutionAsSuccessful env executionId (world s)) with
            | inr _ => [CallTrackProgress "results" (CtxResults results)]
            | inl _ => []
            end).
    split; [|split; [|done]].
    + unfold bind at 1. rewrite finalize_no_error by done.
      unfold bind. rewrite awaitMarkExecutionAsSuccessful_run.
      destruct (fst (markExecutionAsSuccessful env executionId (world s)))
        as [e|[]]; [done|].
      rewrite awaitTrackProgress_run. simpl.
      destruct (fst (trackProgress env _ _ _)) as [e|[]]; simpl;
        by rewrite <- app_assoc.
    + split; [done|]. intros _. apply list_elem_of_here.
  - exists [CallFailedExecution executionId
              (newError (summaryMessage
                           (List.length (processingErrors results))
                           (List.length (g_keysToProcess grouped))))].
    split; [|split; [|done]].
    + erewrite bind_inr by (by apply finalize_errors).
      by rewrite settle_failedExecution.
    + split; [|done]. intros Hin. apply list_elem_of_singleton in Hin. done.
Qed.

(** The results come back only from the branch without errors. *)
Lemma finalize_results_inv executionId grouped results s r s' :
  finalize env executionId grouped results s = (inr (ReturnResults r), s') ->
  r = results /\ processingErrors results = []
  /\ CallMarkExecutionAsSuccessful executionId ∈ trace s'.
Proof.
  destruct (decide (processingErrors results = [])) as [Hnone|Hsome].
  - rewrite finalize_no_error by done. intros Hrun.
    apply bind_inv in Hrun as ([] & s1 & Hmark & Hrun).
    apply bind_inv in Hrun as ([] & s2 & Htrack & Hrun).
    unfold ret in Hrun. injection Hrun as <- <-.
    split; [done|]. split; [done|].
    rewrite awaitMarkExecutionAsSuccessful_run in Hmark.
    rewrite awaitTrackProgress_run in Htrack.
    injection Hmark as _ <-. injection Htrack as _ <-. simpl.
    apply elem_of_app. left. apply elem_of_app. right.
    apply list_elem_of_here.
  - rewrite finalize_errors by done. done.
Qed.

Lemma finalize_results executionId grouped results s :
  processingErrors results = [] ->
  fst (markExecutionAsSuccessful env executionId (world s)) = inr tt ->
  (forall w, fst (trackProgress env "results" (CtxResults results) w) = inr tt) ->
  fst (bind (finalize env executionId grouped results) (settle env) s)
  = inr (Results results).
Proof.
  intros Hnone Hmark Htrack.
  unfold bind at 1. rewrite finalize_no_error by done.
  erewrite bind_inr;
    [|by rewrite awaitMarkExecutionAsSuccessful_run, Hmark].
  erewrite bind_inr; [|by rewrite awaitTrackProgress_run, Htrack].
  done.
Qed.

Lemma conclude_results_inv executionId grouped results s r :
  fst (bind (finalize env executionId grouped results) (settle env) s)
  = inr (Results r) ->
  r = results /\ processingErrors results = [].
Proof.
  destruct (bind _ _ s) as [o s'] eqn:Hrun. simpl. intros ->.
  apply bind_inv in Hrun as (returned & s1 & Hfinalize & Hsettle).
  destruct returned as [r0|id error].
  - simpl in Hsettle. unfold ret in Hsettle. injection Hsettle as -> ->.
    apply finalize_results_inv in Hfinalize as (-> & Hnone & _). done.
  - rewrite settle_failedExecution in Hsettle.
    destruct (fst (failedExecution env id error (world s1))); done.
Qed.

(** *** The key loop *)

Variable tryBlock :
  string -> KeyToProcess -> string -> string -> ProcessingResults ->
  M Event World ProcessingResults.
Hypothesis tryBlock_settles : settlesKey tryBlock.

Lemma processKey_inv url results k s results' s' :
  processKey env tryBlock url results k s = (inr results', s') ->
  results' = pushProcessed results (key k)
  \/ exists error, results' = pushError results (key k) error.
Proof.
  unfold processKey. intros Hrun.
  apply bind_inv in Hrun as (senderId & s1 & _ & Hrun).
  apply bind_inv in Hrun as (fileContents & s2 & _ & Hrun).
  apply tryCatch_inv in Hrun as [Hbody|(e & s3 & _ & Hcatch)].
  - by eapply tryBlock_settles.
  - apply bind_inv in Hcatch as ([] & s4 & _ & Hret).
    unfold ret in Hret. injection Hret as <- _. eauto.
Qed.

(** A loop that ends without an entry in [processingErrors] has pushed
    every key, in order, to [processedKeys]. *)
Lemma processKeys_no_error url ks : forall results s results' s',
  processKeys env tryBlock url results ks s = (inr results', s') ->
  processingErrors results' = [] ->
  processingErrors results = []
  /\ processedKeys results' = processedKeys results ++ map key ks
  /\ filteredKeys results' = filteredKeys results.
Proof.
  induction ks as [|k rest IH]; intros results s results' s' Hrun Hnone.
  - simpl in Hrun. unfold ret in Hrun. injection Hrun as <- _.
    by rewrite app_nil_r.
  - simpl in Hrun.
    apply bind_inv in Hrun as (results1 & s1 & Hkey & Hrest).
    destruct (IH _ _ _ _ Hrest Hnone) as (Hnone1 & Hprocessed & Hfiltered).
    apply processKey_inv in Hkey as [->|[error ->]]; simpl in *.
    + rewrite Hprocessed, <- app_assoc. done.
    + by destruct (processingErrors results).
Qed.

(** Every key of a loop that reaches its end is in [processedKeys] or in
    [processingErrors]: the two lists grow by one entry per key, and
    [filteredKeys] is left alone. *)
Lemma processKeys_accounting url ks : forall results s results' s',
  processKeys env tryBlock url results ks s = (inr results', s') ->
  exists processed failed,
    processedKeys results' = processedKeys results ++ processed
    /\ map ke_key (processingErrors results')
       = map ke_key (processingErrors results) ++ failed
    /\ Permutation (processed ++ failed) (map key ks)
    /\ filteredKeys results' = filteredKeys results.
Proof.
  induction ks as [|k rest IH]; intros results s results' s' Hrun.
  - simpl in Hrun. unfold ret in Hrun. injection Hrun as <- _.
    exists [], []. by rewrite !app_nil_r.
  - simpl in Hrun.
    apply bind_inv in Hrun as (results1 & s1 & Hkey & Hrest).
    destruct (IH _ _ _ _ Hrest)
      as (processed & failed & Hp & Hf & Hperm & Hfiltered).
    apply processKey_inv in Hkey as [->|[error ->]]; simpl in *.
    + exists (key k :: processed), failed.
      rewrite Hp, Hf, <- app_assoc. repeat split; try done.
      simpl. by constructor.
    + exists processed, (key k :: failed).
      rewrite Hp, Hf, map_app, <- app_assoc. repeat split; try done.
      simpl. rewrite <- Hperm. symmetry. apply Permutation_middle.
Qed.

(** What a handler that hands back [ProcessingResults] went through. *)
Lemma handlerWith_results_inv event s results s' :
  handlerWith env tryBlock event s = (inr (Results results), s') ->
  exists executionId records grouped,
    generateExecutionId env event = inr executionId
    /\ toBucketNotificationEvent env event = inr records
    /\ groupEventKeys records = inr grouped
    /\ processingErrors results = []
    /\ filteredKeys results = g_filteredKeys grouped
    /\ processedKeys results = map key (g_keysToProcess grouped)
    /\ CallMarkExecutionAsSuccessful executionId ∈ trace s'.
Proof.
  unfold handlerWith. intros Hrun.
  apply bind_inv in Hrun as (executionId & s1 & Hexec & Hrun).
  apply liftE_inv in Hexec as [Hexec ->].
  apply bind_inv in Hrun as (name & s1 & _ & Hrun).
  apply bind_inv in Hrun as ([] & s2 & _ & Hrun).
  apply bind_inv in Hrun as (returned & s3 & Htry & Hsettle).
  destruct returned as [r0|id error].
  2:{ rewrite settle_failedExecution in Hsettle.
      destruct (fst (failedExecution env id error (world s3))); done. }
  simpl in Hsettle. unfold ret in Hsettle. injection Hsettle as -> ->.
  apply tryCatch_inv in Htry as [Hbody|(e & s4 & _ & Hcatch)].
  2:{ unfold handlerCatch in Hcatch.
      apply bind_inv in Hcatch as ([] & s5 & _ & Hret). done. }
  unfold handlerTry in Hbody.
  apply bind_inv in Hbody as ([] & s4 & _ & Hbody).
  apply bind_inv in Hbody as (records & s5 & Hrecords & Hbody).
  apply liftE_inv in Hrecords as [Hrecords ->].
  apply bind_inv in Hbody as (url & s5 & _ & Hbody).
  apply bind_inv in Hbody as (grouped & s6 & Hgrouped & Hbody).
  apply liftE_inv in Hgrouped as [Hgrouped ->].
  apply bind_inv in Hbody as ([] & s7 & _ & Hbody).
  apply bind_inv in Hbody as (results1 & s8 & Hloop & Hfinalize).
  apply finalize_results_inv in Hfinalize as (-> & Hnone & Hmark).
  apply processKeys_no_error in Hloop as (_ & Hprocessed & Hfiltered);
    [|done].
  exists executionId, records, grouped. repeat split; done.
Qed.

End AggregatorFacts.

Section BothHandlers.

Context {Event World Failure : Type}.
Variable env : Env Event World Failure.

Lemma tryBlock_forward_settles : settlesKey (tryBlock_forward env).
Proof.
  intros url k senderId fileContents results s results' s' Hrun.
  unfold tryBlock_forward in Hrun.
  apply bind_inv in Hrun as (items & s1 & _ & Hrun).
  apply bind_inv in Hrun as ([] & s2 & _ & Hrun).
  apply bind_inv in Hrun as ([] & s3 & _ & Hrun).
  apply bind_inv in Hrun as ([] & s4 & _ & Hrun).
  unfold ret in Hrun. injection Hrun as <- _. by left.
Qed.

Lemma persistAndSettle_settles k senderId items results s results' s' :
  persistAndSettle env k senderId items results s = (inr results', s') ->
  results' = pushProcessed results (key k)
  \/ results' = pushError results (key k) (newError skipMessage).
Proof.
  unfold persistAndSettle. intros Hrun.
  apply bind_inv in Hrun as (outcomes & s1 & _ & Hrun).
  destruct (0 <? List.length (omap id outcomes))%nat.
  - apply bind_inv in Hrun as ([] & s2 & _ & Hrun).
    unfold ret in Hrun. injection Hrun as <- _. by right.
  - apply bind_inv in Hrun as ([] & s2 & _ & Hrun).
    unfold ret in Hrun. injection Hrun as <- _. by left.
Qed.

Lemma tryBlock_stash_settles : settlesKey (tryBlock_stash env).
Proof.
  intros url k senderId fileContents results s results' s' Hrun.
  unfold tryBlock_stash in Hrun.
  apply bind_inv in Hrun as (items & s1 & _ & Hrun).
  apply bind_inv in Hrun as ([] & s2 & _ & Hrun).
  apply bind_inv in Hrun as ([] & s3 & _ & Hrun).
  apply persistAndSettle_settles in Hrun as [->| ->]; eauto.
Qed.

(** One record, one classification. *)
Lemma classifyAll_each records : forall cs,
  classifyAll records = inr cs ->
  Forall2 (fun record c => classify record = inr c) records cs.
Proof.
  induction records as [|r rs IH]; intros cs; simpl.
  - intros [= <-]. constructor.
  - destruct (classify r) as [e|c] eqn:Hc; simpl; [done|].
    destruct (classifyAll rs) as [e|cs'] eqn:Hcs; simpl; [done|].
    intros [= <-]. constructor; [done|]. by apply IH.
Qed.

Lemma results_accounted tryBlock event s results s' :
  settlesKey tryBlock ->
  handlerWith env tryBlock event s = (inr (Results results), s') ->
  exists records cs,
    toBucketNotificationEvent env event = inr records
    /\ Forall2 (fun record c => classify record = inr c) records cs
    /\ filteredKeys results = filteredOf cs
    /\ processedKeys results = map key (eligibleOf cs)
    /\ processingErrors results = []
    /\ (List.length (filteredKeys results)
        + List.length (processedKeys results))%nat = List.length records.
Proof.
  intros Hsettles Hrun.
  apply handlerWith_results_inv in Hrun
    as (executionId & records & grouped & _ & Hrecords & Hgrouped & Hnone
        & Hfiltered & Hprocessed & _); [|done].
  rewrite groupEventKeys_spec in Hgrouped. unfold specClassifier in Hgrouped.
  destruct (classifyAll records) as [e|cs] eqn:Hcs; [done|].
  simpl in Hgrouped. injection Hgrouped as <-. simpl in *.
  exists records, cs. repeat split; try done.
  - by apply classifyAll_each.
  - rewrite Hfiltered, Hprocessed, length_map, classified_length.
    by apply classifyAll_length.
Qed.

End BothHandlers.

(** C4, as stated, fails: the lists hold raw keys for filtered records and
    decoded keys for processed ones.  The batch below has a record whose key
    [a/inventory/x%2F] decodes to [a/inventory/x/], the raw key of its second
    record, a folder. The invocation hands back [ProcessingResults] in which
    [a/inventory/x/] is in two lists and [a/inventory/x%2F] in none. *)
Lemma C4_key_in_two_lists_and_key_in_none :
  let event := [mkRecord "b" "a/inventory/x%2F"; mkRecord "b" "a/inventory/x/"] in
  let s0 := Demo.start [("a/inventory/x/", Demo.feedComplete)] true in
  exists results s',
    handler_stash Demo.env event s0 = (inr (Results results), s')
    /\ map fk_key (filteredKeys results) = ["a/inventory/x/"]
    /\ processedKeys results = ["a/inventory/x/"]
    /\ processingErrors results = [].
Proof.
  eexists _, _. split; [by vm_compute|]. by vm_compute.
Qed.

(** C4 (amended): when the invocation hands back [ProcessingResults], every
    input record is accounted for once: the records are classified one by
    one, [filteredKeys] holds the filtered ones with their raw key,
    [processedKeys] holds the decoded key of each eligible one, in order,
    [processingErrors] is empty, and the two lists together are as long as
    the batch. *)
Theorem C4_records_accounted_once {Event World Failure : Type}
    (env : Env Event World Failure) (event : Event) (s s' : State Event World)
    (results : ProcessingResults) :
  handler_stash env event s = (inr (Results results), s')
  \/ handler_forward env event s = (inr (Results results), s') ->
  exists records cs,
    toBucketNotificationEvent env event = inr records
    /\ Forall2 (fun record c => classify record = inr c) records cs
    /\ filteredKeys results = filteredOf cs
    /\ processedKeys results = map key (eligibleOf cs)
    /\ processingErrors results = []
    /\ (List.length (filteredKeys results)
        + List.length (processedKeys results))%nat = List.length records.
Proof.
  intros [Hrun|Hrun].
  - eapply results_accounted; [apply (tryBlock_stash_settles env)|exact Hrun].
  - eapply results_accounted; [apply (tryBlock_forward_settles env)|exact Hrun].
Qed.

(** The accounting on scenario A: one record, eligible and processed. *)
Lemma C4_records_accounted_once_witness :
  let event := [mkRecord "b" Demo.keyA] in
  let s0 := Demo.start [(Demo.keyA, Demo.feedComplete)] true in
  let results := mkResults [] [] [Demo.keyA] in
  handler_stash Demo.env event s0
  = (inr (Results results), snd (handler_stash Demo.env event s0))
  /\ exists records cs,
       toBucketNotificationEvent Demo.env event = inr records
       /\ Forall2 (fun record c => classify record = inr c) records cs
       /\ filteredKeys results = filteredOf cs
       /\ processedKeys results = map key (eligibleOf cs)
       /\ processingErrors results = []
       /\ (List.length (filteredKeys results)
           + List.length (processedKeys results))%nat = List.length records.
Proof.
  intros event s0 results.
  assert (Hrun : handler_stash Demo.env event s0
                 = (inr (Results results), snd (handler_stash Demo.env event s0)))
    by (vm_compute; reflexivity).
  split; [exact Hrun|].
  apply (C4_records_accounted_once Demo.env event s0
           (snd (handler_stash Demo.env event s0)) results).
  left. exact Hrun.
Defined.

(** The handler on a batch whose only key cannot be fetched. *)
Lemma C3_handler_always_returns_witness :
  let event := [mkRecord "b" Demo.keyA] in
  let s0 := Demo.start [] true in
  trackerNeverThrows Demo.env
  /\ exists outcome s', handler_stash Demo.env event s0 = (inr outcome, s').
Proof.
  intros event s0.
  assert (Htracker : trackerNeverThrows Demo.env).
  { split; [eexists; reflexivity|].
    split; [intros; eexists; reflexivity|].
    split; [intros; reflexivity|].
    intros; eexists; reflexivity. }
  split; [exact Htracker|].
  destruct (C3_handler_always_returns Demo.env event s0 Htracker)
    as [(outcome & s' & Hrun & _) _].
  exists outcome, s'. exact Hrun.
Defined.

(** C6: once the loop is over, [markExecutionAsSuccessful] is called exactly
    when [processingErrors] is empty; the [ProcessingResults] are handed back
    only then, and they are handed back then as soon as the tracker's calls
    succeed; with an entry in [processingErrors] nothing is called but
    [failedExecution], once, with the one error whose message counts the
    errors and the keys attempted. *)
Theorem C6_success_iff_no_errors {Event World Failure : Type}
    (env : Env Event World Failure) (executionId : string)
    (grouped : GroupedEventKeys) (results : ProcessingResults)
    (s : State Event World) :
  let conclude := bind (finalize env executionId grouped results) (settle env) in
  let summary :=
    newError (summaryMessage (List.length (processingErrors results))
                             (List.length (g_keysToProcess grouped))) in
  (exists calls,
     trace (snd (conclude s)) = trace s ++ calls
     /\ (CallMarkExecutionAsSuccessful executionId ∈ calls
         <-> processingErrors results = [])
     /\ (processingErrors results <> [] ->
         calls = [CallFailedExecution executionId summary]))
  /\ (forall r, fst (conclude s) = inr (Results r) ->
        r = results /\ processingErrors results = [])
  /\ (processingErrors results = [] ->
      fst (markExecutionAsSuccessful env executionId (world s)) = inr tt ->
      (forall w, fst (trackProgress env "results" (CtxResults results) w) = inr tt) ->
      fst (conclude s) = inr (Results results))
  /\ (processingErrors results <> [] ->
      summaryMessage (List.length (processingErrors results))
                     (List.length (g_keysToProcess grouped))
      = "encountered " +:+ counted (List.length (processingErrors results)) "error"
        +:+ " while attempting to process "
        +:+ counted (List.length (g_keysToProcess grouped)) "key"
      /\ conclude s = settle env (ReturnFailedExecution executionId summary) s).
Proof.
  intros conclude summary. repeat split.
  - apply conclude_calls.
  - by eapply conclude_results_inv.
  - by eapply conclude_results_inv.
  - apply finalize_results.
  - unfold conclude. erewrite bind_inr by (by apply finalize_errors). done.
Qed.

(** Both ways on the demo deployment: an empty error list gives the results,
    one error out of two keys gives the summary. *)
Lemma C6_success_iff_no_errors_witness :
  let grouped := mkGrouped [] [mkKeyToProcess "b" "k1"; mkKeyToProcess "b" "k2"] in
  let clean := mkResults [] [] ["k1"; "k2"] in
  let failed := mkResults [] [mkKeyError "k1" (newError "NoSuchKey")] ["k2"] in
  let s0 := Demo.start [] true in
  fst (bind (finalize Demo.env "execution-1" grouped clean) (settle Demo.env) s0)
  = inr (Results clean)
  /\ fst (bind (finalize Demo.env "execution-1" grouped failed) (settle Demo.env) s0)
     = inr (Failed (Demo.mkFailure "execution-1"
         (newError "encountered 1 error while attempting to process 2 keys"))).
Proof.
  intros grouped clean failed s0. split.
  - destruct (C6_success_iff_no_errors Demo.env "execution-1" grouped clean s0)
      as (_ & _ & Hsuccess & _).
    apply Hsuccess; reflexivity.
  - destruct (C6_success_iff_no_errors Demo.env "execution-1" grouped failed s0)
      as (_ & _ & _ & Hfailure).
    destruct Hfailure as [_ ->]; [discriminate|]. reflexivity.
Defined.

(** ** Isolation of the keys *)

(** C1, as stated, fails for the two steps the loop takes before its [try]:
    a key without sender identifier ([inventory/feed.csv], eligible, two
    segments) and a key whose object cannot be fetched each end the whole
    invocation in the failure of the tracker; the loop throws, no entry is
    made in [processingErrors], and the key after it in the batch is not
    fetched. *)
Lemma C1_failure_before_try_aborts_batch :
  let good := mkKeyToProcess "b" Demo.keyA in
  let s0 := Demo.start [(Demo.keyA, Demo.feedComplete)] true in
  let noSender := [mkRecord "b" "inventory/feed.csv"; mkRecord "b" Demo.keyA] in
  let noObject := [mkRecord "b" "trading_partners/shop_2/inventory/gone.csv";
                   mkRecord "b" Demo.keyA] in
  (fst (handler_stash Demo.env noSender s0)
   = inr (Failed (Demo.mkFailure "execution-1"
            (newError "unable to extract sender ID from object key")))
   /\ fst (processKeys Demo.env (tryBlock_stash Demo.env) Demo.webhookUrl
             (mkResults [] [] [])
             [mkKeyToProcess "b" "inventory/feed.csv"; good] s0)
      = throwE (newError "unable to extract sender ID from object key")
   /\ CallGetObject good ∉ trace (snd (handler_stash Demo.env noSender s0)))
  /\ (fst (handler_stash Demo.env noObject s0)
      = inr (Failed (Demo.mkFailure "execution-1" (newError "NoSuchKey")))
      /\ fst (processKeys Demo.env (tryBlock_stash Demo.env) Demo.webhookUrl
                (mkResults [] [] [])
                [mkKeyToProcess "b" "trading_partners/shop_2/inventory/gone.csv";
                 good] s0)
         = throwE (newError "NoSuchKey")
      /\ CallGetObject good ∉ trace (snd (handler_stash Demo.env noObject s0))).
Proof.
  intros good s0 noSender noObject.
  repeat split; try (vm_compute; reflexivity).
  - vm_compute. intros Hin.
    repeat (apply elem_of_cons in Hin as [Heq|Hin]; [discriminate Heq|]).
    by apply elem_of_nil in Hin.
  - vm_compute. intros Hin.
    repeat (apply elem_of_cons in Hin as [Heq|Hin]; [discriminate Heq|]).
    by apply elem_of_nil in Hin.
Qed.

Section Isolation.

Context {Event World Failure : Type}.
Variable env : Env Event World Failure.
Variable tryBlock :
  string -> KeyToProcess -> string -> string -> ProcessingResults ->
  M Event World ProcessingResults.

Lemma processKey_try_failure url results k s senderId fileContents s1 e s2 s3 :
  extractShopIdFromKey (key k) = inr senderId ->
  awaitGetObject env k s = (inr fileContents, s1) ->
  tryBlock url k senderId fileContents results s1 = (inl e, s2) ->
  awaitTrackProgress env "error processing document"
    (CtxKeyError (key k) (keyLevelError e)) s2 = (inr tt, s3) ->
  processKey env tryBlock url results k s
  = (inr (pushError results (key k) (keyLevelError e)), s3).
Proof.
  intros Hsender Hfetch Htry Htrack. unfold processKey.
  erewrite bind_inr; [|unfold liftE; by rewrite Hsender].
  erewrite bind_inr by exact Hfetch.
  unfold tryCatch. rewrite Htry.
  erewrite bind_inr by exact Htrack. done.
Qed.

Lemma processKey_try_success url results k s senderId fileContents s1 results' s2 :
  extractShopIdFromKey (key k) = inr senderId ->
  awaitGetObject env k s = (inr fileContents, s1) ->
  tryBlock url k senderId fileContents results s1 = (inr results', s2) ->
  processKey env tryBlock url results k s = (inr results', s2).
Proof.
  intros Hsender Hfetch Htry. unfold processKey.
  erewrite bind_inr; [|unfold liftE; by rewrite Hsender].
  erewrite bind_inr by exact Hfetch.
  unfold tryCatch. by rewrite Htry.
Qed.

(** A loop whose keys all have a sender identifier and an object that can
    be fetched reaches its end, whatever happens inside the [try] blocks. *)
Lemma processKeys_completes url ks :
  (forall message context w,
     fst (trackProgress env message context w) = inr tt) ->
  (forall k w, k ∈ ks -> exists text, fst (getObjectText env k w) = inr text) ->
  Forall (fun k => exists senderId,
            extractShopIdFromKey (key k) = inr senderId) ks ->
  forall results s, exists results',
    fst (processKeys env tryBlock url results ks s) = inr results'.
Proof.
  intros Htrack Hfetch Hsenders.
  induction Hsenders as [|k rest [senderId Hsender] _ IH];
    intros results s; simpl.
  - by eexists.
  - destruct (Hfetch k (world s)) as [text Htext]; [apply list_elem_of_here|].
    assert (Hget : awaitGetObject env k s
                   = (inr text, mkState (snd (getObjectText env k (world s)))
                                        (trace s ++ [CallGetObject k]))).
    { unfold awaitGetObject. by rewrite call_run, Htext. }
    set (s1 := mkState _ _) in Hget.
    destruct (tryBlock url k senderId text results s1)
      as [[e|results1] s2] eqn:Htry.
    + erewrite bind_inr.
      2:{ eapply processKey_try_failure; try done.
          by rewrite awaitTrackProgress_run, Htrack. }
      apply IH. intros k' w Hin. apply Hfetch. by apply list_elem_of_further.
    + erewrite bind_inr by (by eapply processKey_try_success).
      apply IH. intros k' w Hin. apply Hfetch. by apply list_elem_of_further.
Qed.

End Isolation.

(** C1 (amended): for every eligible key in a batch, a failure raised inside
    the [try] block of that key (conversion, forwarding, merge into the
    store, deletion) is recorded as one entry of [processingErrors], for that
    key, and the loop goes on with the remaining keys of the batch from the
    results so extended. *)
Theorem C1_failure_in_try_is_isolated {Event World Failure : Type}
    (env : Env Event World Failure)
    (tryBlock : string -> KeyToProcess -> string -> string ->
                ProcessingResults -> M Event World ProcessingResults)
    (url : string) (results : ProcessingResults) (k : KeyToProcess)
    (rest : list KeyToProcess) (s s1 s2 s3 : State Event World)
    (senderId fileContents : string) (e : Thrown) :
  extractShopIdFromKey (key k) = inr senderId ->
  awaitGetObject env k s = (inr fileContents, s1) ->
  tryBlock url k senderId fileContents results s1 = (inl e, s2) ->
  awaitTrackProgress env "error processing document"
    (CtxKeyError (key k) (keyLevelError e)) s2 = (inr tt, s3) ->
  let recorded := pushError results (key k) (keyLevelError e) in
  processKey env tryBlock url results k s = (inr recorded, s3)
  /\ processingErrors recorded
     = processingErrors results ++ [mkKeyError (key k) (keyLevelError e)]
  /\ processedKeys recorded = processedKeys results
  /\ processKeys env tryBlock url results (k :: rest) s
     = processKeys env tryBlock url recorded rest s3.
Proof.
  intros Hsender Hfetch Htry Htrack recorded.
  assert (Hkey : processKey env tryBlock url results k s = (inr recorded, s3))
    by (by eapply processKey_try_failure).
  repeat split; [done|].
  simpl. by erewrite bind_inr by exact Hkey.
Qed.

(** The isolation on the demo deployment: the keyspace refuses the write, the
    key is recorded with that error and the loop goes on. *)
Lemma C1_failure_in_try_is_isolated_witness :
  let k := mkKeyToProcess "b" Demo.keyA in
  let next := mkKeyToProcess "b" "trading_partners/shop_2/inventory/feed.csv" in
  let s0 := Demo.start [(Demo.keyA, Demo.feedComplete)] false in
  let results := mkResults [] [] [] in
  let e := ThrownError (newError "stash unavailable") in
  let s1 := snd (awaitGetObject Demo.env k s0) in
  let s2 := snd (tryBlock_stash Demo.env Demo.webhookUrl k "shop_1"
                   Demo.feedComplete results s1) in
  let s3 := snd (awaitTrackProgress Demo.env "error processing document"
                   (CtxKeyError (key k) (keyLevelError e)) s2) in
  processKeys Demo.env (tryBlock_stash Demo.env) Demo.webhookUrl results
    [k; next] s0
  = processKeys Demo.env (tryBlock_stash Demo.env) Demo.webhookUrl
      (mkResults [] [mkKeyError Demo.keyA (newError "stash unavailable")] [])
      [next] s3.
Proof.
  intros k next s0 results e s1 s2 s3.
  destruct (C1_failure_in_try_is_isolated Demo.env (tryBlock_stash Demo.env)
              Demo.webhookUrl results k [next] s0 s1 s2 s3
              "shop_1" Demo.feedComplete e) as (_ & _ & _ & Hloop).
  - reflexivity.
  - vm_compute. reflexivity.
  - vm_compute. reflexivity.
  - vm_compute. reflexivity.
  - exact Hloop.
Defined.

(** ** What one key sends out *)

Section Emits.

Context {Event World Failure : Type}.
Variable env : Env Event World Failure.
Variable P : Call Event -> Prop.

Lemma emits_ret {A} (a : A) : emits (World:=World) P (ret a).
Proof. intros s. exists []. by rewrite app_nil_r. Qed.

Lemma emits_liftE {A} (r : Thrown + A) : emits (World:=World) P (liftE r).
Proof. intros s. exists []. by rewrite app_nil_r. Qed.

Lemma emits_bind {A B} (m : M Event World A) (k : A -> M Event World B) :
  emits P m -> (forall a, emits P (k a)) -> emits P (bind m k).
Proof.
  intros Hm Hk s. destruct (Hm s) as (calls1 & Htrace1 & Hcalls1).
  unfold bind. destruct (m s) as [[e|a] s1]; simpl in *; [eauto|].
  destruct (Hk a s1) as (calls2 & Htrace2 & Hcalls2).
  exists (calls1 ++ calls2). rewrite Htrace2, Htrace1, app_assoc.
  split; [done|]. by apply Forall_app.
Qed.

Lemma emits_tryCatch {A} (body : M Event World A) handler :
  emits P body -> (forall e, emits P (handler e)) ->
  emits P (tryCatch body handler).
Proof.
  intros Hbody Hhandler s. destruct (Hbody s) as (calls1 & Htrace1 & Hcalls1).
  unfold tryCatch. destruct (body s) as [[e|a] s1]; simpl in *; [|eauto].
  destruct (Hhandler e s1) as (calls2 & Htrace2 & Hcalls2).
  exists (calls1 ++ calls2). rewrite Htrace2, Htrace1, app_assoc.
  split; [done|]. by apply Forall_app.
Qed.

Lemma emits_call {A} (event : Thrown + A -> Call Event)
    (op : World -> (Thrown + A) * World) :
  (forall r, P (event r)) -> emits P (call event op).
Proof.
  intros Hevent s. rewrite call_run. simpl.
  eexists. split; [done|]. constructor; [apply Hevent|constructor].
Qed.

Lemma emits_promiseAll {A} (callbacks : list (M Event World A)) :
  Forall (emits P) callbacks -> emits P (promiseAll callbacks).
Proof.
  induction 1 as [|callback rest Hcallback _ IH]; intros s; simpl.
  - exists []. by rewrite app_nil_r.
  - destruct (Hcallback s) as (calls1 & Htrace1 & Hcalls1).
    destruct (callback s) as [[e|a] s1]; simpl in *;
      destruct (IH s1) as (calls2 & Htrace2 & Hcalls2);
      exists (calls1 ++ calls2);
      (split; [|by apply Forall_app]).
    + by rewrite Htrace2, Htrace1, app_assoc.
    + destruct (promiseAll rest s1) as [[e|l] s2]; simpl in *;
        by rewrite Htrace2, Htrace1, app_assoc.
Qed.

End Emits.

Lemma emits_weaken {Event World A} (P Q : Call Event -> Prop)
    (m : M Event World A) :
  (forall c, P c -> Q c) -> emits P m -> emits Q m.
Proof.
  intros HPQ Hm s. destruct (Hm s) as (calls & Htrace & Hcalls).
  exists calls. split; [done|]. eapply Forall_impl; eauto.
Qed.

Section Store.

Context {Event World Failure : Type}.
Variable env : Env Event World Failure.

Lemma awaitGetValue_run k keyspaceName s :
  awaitGetValue env k keyspaceName s
  = (fst (getValue env k keyspaceName (world s)),
     mkState (snd (getValue env k keyspaceName (world s)))
             (trace s ++ [CallGetValue k keyspaceName
                            (fst (getValue env k keyspaceName (world s)))])).
Proof. unfold awaitGetValue. by rewrite call_run. Qed.

Lemma awaitSetValue_run k value keyspaceName s :
  awaitSetValue env k value keyspaceName s
  = (fst (setValue env k value keyspaceName (world s)),
     mkState (snd (setValue env k value keyspaceName (world s)))
             (trace s ++ [CallSetValue k value keyspaceName])).
Proof. unfold awaitSetValue. by rewrite call_run. Qed.

(** The frame of the merge. *)
Lemma mergedValue_sender existing senderId item :
  mergedValue existing senderId item !! senderId
  = Some (mkPriceQuantity (prop item "price") (prop item "quantity")).
Proof. unfold mergedValue. apply lookup_insert_eq. Qed.

Lemma mergedValue_other existing senderId item other :
  other <> senderId ->
  mergedValue existing senderId item !! other = default ∅ existing !! other.
Proof. intros Hne. unfold mergedValue. by rewrite lookup_insert_ne. Qed.

(** A complete item: one read, then one write of the merge of what was
    read. *)
Lemma itemCallback_complete senderId item s existing w1 :
  missingRequired item = false ->
  getValue env (prop item "sku") INVENTORY_DATA_STASH_KEYSPACE_NAME (world s)
    = (inr existing, w1) ->
  let value := mergedValue existing senderId item in
  snd (itemCallback env senderId item s)
  = mkState
      (snd (setValue env (prop item "sku") value
              INVENTORY_DATA_STASH_KEYSPACE_NAME w1))
      (trace s ++
       [CallGetValue (prop item "sku") INVENTORY_DATA_STASH_KEYSPACE_NAME
          (inr existing);
        CallSetValue (prop item "sku") value
          INVENTORY_DATA_STASH_KEYSPACE_NAME]).
Proof.
  intros Hcomplete Hget value. unfold itemCallback. rewrite Hcomplete.
  erewrite bind_inr; [|by rewrite awaitGetValue_run, Hget].
  unfold bind. rewrite awaitSetValue_run. simpl.
  rewrite <- app_assoc.
  by destruct (fst (setValue env _ _ _ w1)).
Qed.

(** An item that lacks a required attribute: no call at all. *)
Lemma itemCallback_skipped senderId item s :
  missingRequired item = true ->
  itemCallback env senderId item s = (inr (Some item), s).
Proof. intros Hmissing. unfold itemCallback. by rewrite Hmissing. Qed.

(** When every record of a file lacks a required attribute (the rows of a
    file converted with [header: true] all have the columns of the header
    line) the validation settles without a call to the store. *)
Lemma promiseAll_all_skipped senderId items s :
  Forall (fun item => missingRequired item = true) items ->
  promiseAll (map (itemCallback env senderId) items) s = (inr (map Some items), s).
Proof.
  induction 1 as [|item rest Hmissing _ IH]; [done|].
  cbn [map promiseAll].
  by rewrite (itemCallback_skipped senderId item s Hmissing), IH.
Qed.

Lemma itemCallback_outcome senderId item s outcome s' :
  itemCallback env senderId item s = (inr outcome, s') ->
  outcome = if missingRequired item then Some item else None.
Proof.
  unfold itemCallback. destruct (missingRequired item).
  - unfold ret. by intros [= <- _].
  - intros Hrun.
    apply bind_inv in Hrun as (existing & s1 & _ & Hrun).
    apply bind_inv in Hrun as ([] & s2 & _ & Hrun).
    unfold ret in Hrun. by injection Hrun as <- _.
Qed.

(** The items pushed to [skippedInventoryItems] are the items that lack a
    required attribute. *)
Lemma promiseAll_outcomes senderId items : forall s outcomes s',
  promiseAll (map (itemCallback env senderId) items) s = (inr outcomes, s') ->
  omap id outcomes = List.filter missingRequired items.
Proof.
  induction items as [|item rest IH]; intros s outcomes s';
    cbn [map promiseAll].
  - unfold ret. by intros [= <- _].
  - destruct (itemCallback env senderId item s) as [[e|outcome] s1] eqn:Hitem;
      [done|].
    destruct (promiseAll _ s1) as [[e|l] s2] eqn:Hrest; [done|].
    intros [= <- <-].
    apply itemCallback_outcome in Hitem as ->.
    apply IH in Hrest.
    change (List.filter missingRequired (item :: rest))
      with (if missingRequired item
            then item :: List.filter missingRequired rest
            else List.filter missingRequired rest).
    rewrite <- Hrest. by destruct (missingRequired item).
Qed.

Lemma itemCallback_emits senderId items item :
  item ∈ items ->
  emits (storeCall senderId items) (itemCallback env senderId item).
Proof.
  intros Hin. unfold itemCallback.
  destruct (missingRequired item) eqn:Hcomplete; [apply emits_ret|].
  apply emits_bind; [by apply emits_call|]. intros existing.
  apply emits_bind; [|intros; apply emits_ret].
  apply emits_call. intros _. simpl. by exists item, existing.
Qed.

Lemma itemCallbacks_emit senderId items :
  emits (storeCall senderId items)
        (promiseAll (map (itemCallback env senderId) items)).
Proof.
  apply emits_promiseAll. apply Forall_map, Forall_forall.
  intros item Hin. by apply itemCallback_emits.
Qed.

Lemma storeCall_keyCall url senderId items (c : Call Event) :
  storeCall senderId items c -> keyCall url senderId items c.
Proof. destruct c; simpl; done. Qed.

Lemma storeCall_notDelete senderId items (c : Call Event) :
  storeCall senderId items c -> notDelete c.
Proof. destruct c; simpl; done. Qed.

Lemma persistAndSettle_emits url k senderId items results :
  emits (keyCall url senderId items)
        (persistAndSettle env k senderId items results).
Proof.
  unfold persistAndSettle. apply emits_bind.
  - eapply emits_weaken; [apply storeCall_keyCall|apply itemCallbacks_emit].
  - intros outcomes. destruct (0 <? _)%nat.
    + apply emits_bind; [by apply emits_call|intros; apply emits_ret].
    + apply emits_bind; [by apply emits_call|intros; apply emits_ret].
Qed.

(** What the [try] of a key sends out once its file is converted. *)
Lemma tryBlock_stash_emits url k senderId fileContents results items :
  convertCsvToJson env fileContents
    (Some (conversionOptions (transformHeader_stash (toLowerCase env))))
  = inr items ->
  emits (keyCall url senderId items)
        (tryBlock_stash env url k senderId fileContents results).
Proof.
  intros Hconverted s. unfold tryBlock_stash.
  erewrite bind_inr; [|unfold liftE; by rewrite Hconverted].
  revert s. apply emits_bind; [by apply emits_call|]. intros _.
  apply emits_bind; [by apply emits_call|]. intros _.
  apply persistAndSettle_emits.
Qed.

(** With an item skipped, the [try] sends no [DeleteObject] and can only
    end in the entry with the skip message. *)
Lemma persistAndSettle_skipped k senderId items results :
  Exists (fun item => missingRequired item = true) items ->
  emits notDelete (persistAndSettle env k senderId items results)
  /\ forall s results' s',
       persistAndSettle env k senderId items results s = (inr results', s') ->
       results' = pushError results (key k) (newError skipMessage).
Proof.
  intros Hskipped.
  assert (Hsome : forall s outcomes s',
            promiseAll (map (itemCallback env senderId) items) s
            = (inr outcomes, s') ->
            (0 <? List.length (omap id outcomes))%nat = true).
  { intros s outcomes s' Hrun. apply promiseAll_outcomes in Hrun as ->.
    apply Nat.ltb_lt. apply Exists_exists in Hskipped as (item & Hin & Hmissing).
    assert (Hfiltered : In item (List.filter missingRequired items))
      by (apply filter_In; split; [by apply list_elem_of_In|done]).
    destruct (List.filter missingRequired items); [done|]. simpl. lia. }
  split.
  - intros s. unfold persistAndSettle, bind.
    destruct (itemCallbacks_emit senderId items s) as (calls & Htrace & Hcalls).
    destruct (promiseAll _ s) as [[e|outcomes] s1] eqn:Hitems; simpl in *.
    + exists calls. split; [done|].
      eapply Forall_impl; [exact Hcalls|apply storeCall_notDelete].
    + rewrite (Hsome _ _ _ Hitems). rewrite awaitTrackProgress_run.
      eexists (calls ++ [_]).
      destruct (fst (trackProgress env _ _ _)); simpl;
        rewrite Htrace, <- app_assoc;
        (split; [done|]);
        (apply Forall_app; split;
         [eapply Forall_impl; [exact Hcalls|apply storeCall_notDelete]
         |by repeat constructor]).
  - intros s results' s' Hrun. unfold persistAndSettle in Hrun.
    apply bind_inv in Hrun as (outcomes & s1 & Hitems & Hrun).
    rewrite (Hsome _ _ _ Hitems) in Hrun.
    apply bind_inv in Hrun as ([] & s2 & _ & Hrun).
    unfold ret in Hrun. by injection Hrun as <- _.
Qed.

End Store.

Section PerKey.

Context {Event World Failure : Type}.
Variable env : Env Event World Failure.

Lemma awaitFetch_run url senderId items s :
  awaitFetch env url senderId items s
  = (fst (fetchPost env url senderId items (world s)),
     mkState (snd (fetchPost env url senderId items (world s)))
             (trace s ++ [CallFetchPost url senderId items])).
Proof. unfold awaitFetch. by rewrite call_run. Qed.

Lemma awaitGetObject_trace k s text s1 :
  awaitGetObject env k s = (inr text, s1) ->
  trace s1 = trace s ++ [CallGetObject k].
Proof.
  unfold awaitGetObject. rewrite call_run. by intros [= _ <-].
Qed.

(** A computation only adds to the trace. *)
Lemma posted_stays {A} (m : M Event World A) (c : Call Event) s :
  emits (fun _ => True) m -> c ∈ trace s -> c ∈ trace (snd (m s)).
Proof.
  intros Hm Hin. destruct (Hm s) as (calls & -> & _).
  apply elem_of_app. by left.
Qed.

(** The POST of the handler that merges into Stash carries every converted
    item. *)
Lemma tryBlock_stash_posts url k senderId fileContents results items s :
  convertCsvToJson env fileContents
    (Some (conversionOptions (transformHeader_stash (toLowerCase env))))
  = inr items ->
  fst (trackProgress env "converted inventory JSON"
         (CtxConverted senderId items) (world s)) = inr tt ->
  CallFetchPost url senderId items
    ∈ trace (snd (tryBlock_stash env url k senderId fileContents results s)).
Proof.
  intros Hconverted Htrack. unfold tryBlock_stash.
  erewrite bind_inr; [|unfold liftE; by rewrite Hconverted].
  erewrite bind_inr; [|by rewrite awaitTrackProgress_run, Htrack].
  unfold bind at 1. rewrite awaitFetch_run.
  set (s2 := mkState _ (_ ++ [CallFetchPost url senderId items])).
  assert (Hposted : CallFetchPost url senderId items ∈ trace s2).
  { simpl. apply elem_of_app. right. apply list_elem_of_here. }
  destruct (fst (fetchPost env _ _ _ _)) as [e|[]]; [done|].
  apply posted_stays; [|done].
  eapply emits_weaken; [|apply (persistAndSettle_emits env url)]. done.
Qed.

(** So does the POST of the handler that only forwards, which has no check
    of the attributes at all. *)
Lemma tryBlock_forward_posts url k senderId fileContents results items s :
  convertCsvToJson env fileContents
    (Some (conversionOptions (transformHeader_forward (toLowerCase env))))
  = inr items ->
  fst (trackProgress env "converted inventory JSON"
         (CtxConverted senderId items) (world s)) = inr tt ->
  CallFetchPost url senderId items
    ∈ trace (snd (tryBlock_forward env url k senderId fileContents results s)).
Proof.
  intros Hconverted Htrack. unfold tryBlock_forward.
  erewrite bind_inr; [|unfold liftE; by rewrite Hconverted].
  erewrite bind_inr; [|by rewrite awaitTrackProgress_run, Htrack].
  unfold bind at 1. rewrite awaitFetch_run.
  set (s2 := mkState _ (_ ++ [CallFetchPost url senderId items])).
  assert (Hposted : CallFetchPost url senderId items ∈ trace s2).
  { simpl. apply elem_of_app. right. apply list_elem_of_here. }
  destruct (fst (fetchPost env _ _ _ _)) as [e|[]]; [done|].
  apply posted_stays; [|done].
  apply emits_bind; [by apply emits_call|intros; apply emits_ret].
Qed.

Lemma tryBlock_stash_skipped url k senderId fileContents results items :
  convertCsvToJson env fileContents
    (Some (conversionOptions (transformHeader_stash (toLowerCase env))))
  = inr items ->
  Exists (fun item => missingRequired item = true) items ->
  emits notDelete (tryBlock_stash env url k senderId fileContents results)
  /\ forall s results' s',
       tryBlock_stash env url k senderId fileContents results s
       = (inr results', s') ->
       results' = pushError results (key k) (newError skipMessage).
Proof.
  intros Hconverted Hskipped.
  destruct (persistAndSettle_skipped env k senderId items results Hskipped)
    as [Hemits Hends].
  split.
  - intros s. unfold tryBlock_stash.
    erewrite bind_inr; [|unfold liftE; by rewrite Hconverted].
    revert s. apply emits_bind; [by apply emits_call|]. intros _.
    apply emits_bind; [by apply emits_call|]. intros _. exact Hemits.
  - intros s results' s' Hrun. unfold tryBlock_stash in Hrun.
    apply bind_inv in Hrun as (items' & s1 & Hitems & Hrun).
    apply liftE_inv in Hitems as [Hitems ->].
    rewrite Hconverted in Hitems. injection Hitems as <-.
    apply bind_inv in Hrun as ([] & s2 & _ & Hrun).
    apply bind_inv in Hrun as ([] & s3 & _ & Hrun).
    by eapply Hends.
Qed.

Lemma processKey_skipped url results k s s1 senderId fileContents items :
  extractShopIdFromKey (key k) = inr senderId ->
  awaitGetObject env k s = (inr fileContents, s1) ->
  convertCsvToJson env fileContents
    (Some (conversionOptions (transformHeader_stash (toLowerCase env))))
  = inr items ->
  Exists (fun item => missingRequired item = true) items ->
  (exists calls,
     trace (snd (processKey env (tryBlock_stash env) url results k s))
     = trace s ++ calls /\ Forall notDelete calls)
  /\ forall results',
       fst (processKey env (tryBlock_stash env) url results k s) = inr results' ->
       exists error, results' = pushError results (key k) error.
Proof.
  intros Hsender Hfetch Hconverted Hskipped.
  destruct (tryBlock_stash_skipped url k senderId fileContents results items
              Hconverted Hskipped) as [Hemits Hends].
  unfold processKey.
  erewrite bind_inr; [|unfold liftE; by rewrite Hsender].
  erewrite bind_inr by exact Hfetch.
  split.
  - match goal with
    | |- context [tryCatch ?body ?handler s1] =>
        assert (Hcaught : emits notDelete (tryCatch body handler))
    end.
    { apply emits_tryCatch; [exact Hemits|]. intros e.
      apply emits_bind; [by apply emits_call|]. intros _. apply emits_ret. }
    destruct (Hcaught s1) as (calls & Htrace & Hcalls).
    exists (CallGetObject k :: calls).
    rewrite Htrace, (awaitGetObject_trace _ _ _ _ Hfetch), <- app_assoc.
    split; [done|]. by constructor.
  - intros results' Hrun.
    destruct (tryCatch _ _ s1) as [r s'] eqn:Htry. simpl in Hrun. subst r.
    apply tryCatch_inv in Htry as [Hbody|(e & s2 & _ & Hcatch)].
    + apply Hends in Hbody. eauto.
    + apply bind_inv in Hcatch as ([] & s3 & _ & Hret).
      unfold ret in Hret. injection Hret as <- _. eauto.
Qed.

Lemma processKey_skip_message url results k s s1 s2 s3 s4 s5 senderId
    fileContents items outcomes :
  extractShopIdFromKey (key k) = inr senderId ->
  awaitGetObject env k s = (inr fileContents, s1) ->
  convertCsvToJson env fileContents
    (Some (conversionOptions (transformHeader_stash (toLowerCase env))))
  = inr items ->
  Exists (fun item => missingRequired item = true) items ->
  awaitTrackProgress env "converted inventory JSON"
    (CtxConverted senderId items) s1 = (inr tt, s2) ->
  awaitFetch env url senderId items s2 = (inr tt, s3) ->
  promiseAll (map (itemCallback env senderId) items) s3 = (inr outcomes, s4) ->
  awaitTrackProgress env skipMessage
    (CtxSkipped (key k) (List.filter missingRequired items)) s4 = (inr tt, s5) ->
  processKey env (tryBlock_stash env) url results k s
  = (inr (pushError results (key k) (newError skipMessage)), s5).
Proof.
  intros Hsender Hfetch Hconverted Hskipped Htrack Hpost Hitems Hnote.
  eapply processKey_try_success; [exact Hsender|exact Hfetch|].
  unfold tryBlock_stash.
  erewrite bind_inr; [|unfold liftE; by rewrite Hconverted].
  erewrite bind_inr by exact Htrack.
  erewrite bind_inr by exact Hpost.
  unfold persistAndSettle.
  erewrite bind_inr by exact Hitems.
  rewrite (promiseAll_outcomes env _ _ _ _ _ Hitems).
  replace (0 <? List.length (List.filter missingRequired items))%nat
    with true.
  - by erewrite bind_inr by exact Hnote.
  - symmetry. apply Nat.ltb_lt.
    apply Exists_exists in Hskipped as (item & Hin & Hmissing).
    assert (Hfiltered : In item (List.filter missingRequired items))
      by (apply filter_In; split; [by apply list_elem_of_In|done]).
    destruct (List.filter missingRequired items); [done|]. simpl. lia.
Qed.

End PerKey.

(** ** Validation, forwarding and the keyed store *)

(** C2, as stated, fails for the forwarding: the POST is made before the
    attributes are checked and carries every converted record.  The feed
    below has no price column; its record is not stored, and is what the
    webhook receives. *)
Lemma C2_incomplete_record_is_forwarded :
  let event := [mkRecord "b" Demo.keyA] in
  let s0 := Demo.start [(Demo.keyA, Demo.feedNoPrice)] true in
  let item : Item := {[ "sku" := "X"; "quantity" := "3" ]} in
  let s' := snd (handler_stash Demo.env event s0) in
  missingRequired item = true
  /\ CallFetchPost Demo.webhookUrl "shop_1" [item] ∈ trace s'
  /\ Demo.posts (world s') = [(Demo.webhookUrl, "shop_1", [item])]
  /\ Demo.stash (world s') = ∅.
Proof.
  intros event s0 item s'. split; [by vm_compute|].
  split; [|split; by vm_compute].
  vm_compute. do 5 apply list_elem_of_further. apply list_elem_of_here.
Qed.

(** C2 (amended): a converted record that lacks [sku], [quantity] or [price]
    is not written to the keyed store, every write of the key coming from a
    record that has the three; it is included in what is forwarded to the
    webhook, the POST of the key carrying every converted record, in the
    handler that merges into Stash as in the one that only forwards. *)
Theorem C2_incomplete_records_not_stored_but_forwarded
    {Event World Failure : Type} (env : Env Event World Failure)
    (url : string) (k : KeyToProcess) (senderId fileContents : string)
    (results : ProcessingResults) (items : list Item) (s : State Event World) :
  convertCsvToJson env fileContents
    (Some (conversionOptions (transformHeader_stash (toLowerCase env))))
  = inr items ->
  let run := tryBlock_stash env url k senderId fileContents results s in
  (exists calls,
     trace (snd run) = trace s ++ calls
     /\ (forall sku value keyspaceName,
           CallSetValue sku value keyspaceName ∈ calls ->
           exists item existing,
             item ∈ items /\ missingRequired item = false
             /\ sku = prop item "sku"
             /\ value = mergedValue existing senderId item)
     /\ (forall u sid body,
           CallFetchPost u sid body ∈ calls ->
           u = url /\ sid = senderId /\ body = items))
  /\ (fst (trackProgress env "converted inventory JSON"
             (CtxConverted senderId items) (world s)) = inr tt ->
      CallFetchPost url senderId items ∈ trace (snd run))
  /\ (forall forwarded,
        convertCsvToJson env fileContents
          (Some (conversionOptions (transformHeader_forward (toLowerCase env))))
        = inr forwarded ->
        fst (trackProgress env "converted inventory JSON"
               (CtxConverted senderId forwarded) (world s)) = inr tt ->
        CallFetchPost url senderId forwarded
          ∈ trace (snd (tryBlock_forward env url k senderId fileContents
                          results s))).
Proof.
  intros Hconverted run.
  split; [|split; [|intros forwarded Hforwarded Htrack;
                    by apply tryBlock_forward_posts]].
  - destruct (tryBlock_stash_emits env url k senderId fileContents results items
                Hconverted s) as (calls & Htrace & Hcalls).
    exists calls. split; [exact Htrace|].
    rewrite Forall_forall in Hcalls. split.
    + intros sku value keyspaceName Hin.
      destruct (Hcalls _ Hin) as (item & existing & ? & ? & ? & ? & ?).
      by exists item, existing.
    + intros u sid body Hin. exact (Hcalls _ Hin).
  - by apply tryBlock_stash_posts.
Qed.

(** On the feed without price column: nothing is stored, the record is
    posted. *)
Lemma C2_incomplete_records_not_stored_but_forwarded_witness :
  let k := mkKeyToProcess "b" Demo.keyA in
  let item : Item := {[ "sku" := "X"; "quantity" := "3" ]} in
  let s0 := Demo.start [(Demo.keyA, Demo.feedNoPrice)] true in
  convertCsvToJson Demo.env Demo.feedNoPrice
    (Some (conversionOptions (transformHeader_stash asciiToLowerCase)))
  = inr [item]
  /\ CallFetchPost Demo.webhookUrl "shop_1" [item]
     ∈ trace (snd (tryBlock_stash Demo.env Demo.webhookUrl k "shop_1"
                     Demo.feedNoPrice (mkResults [] [] []) s0)).
Proof.
  intros k item s0.
  assert (Hconverted : convertCsvToJson Demo.env Demo.feedNoPrice
            (Some (conversionOptions (transformHeader_stash asciiToLowerCase)))
          = inr [item]) by (vm_compute; reflexivity).
  split; [exact Hconverted|].
  destruct (C2_incomplete_records_not_stored_but_forwarded Demo.env
              Demo.webhookUrl k "shop_1" Demo.feedNoPrice (mkResults [] [] [])
              [item] s0 Hconverted) as (_ & Hposted & _).
  apply Hposted. reflexivity.
Defined.

(** C5: a key that was converted and has a record lacking a required
    attribute is never added to [processedKeys], no [DeleteObject] is sent
    for it, and what the loop records for it is an entry of
    [processingErrors]; that entry carries the skip message once the
    validation is reached and settled, that is when the POST, the merges of
    the complete records and the progress hook did not throw; when every
    record of the key lacks an attribute there is no merge to settle. *)
Theorem C5_skipped_key_is_kept_and_reported
    {Event World Failure : Type} (env : Env Event World Failure)
    (url : string) (results : ProcessingResults) (k : KeyToProcess)
    (senderId fileContents : string) (items : list Item)
    (s s1 : State Event World) :
  extractShopIdFromKey (key k) = inr senderId ->
  awaitGetObject env k s = (inr fileContents, s1) ->
  convertCsvToJson env fileContents
    (Some (conversionOptions (transformHeader_stash (toLowerCase env))))
  = inr items ->
  Exists (fun item => missingRequired item = true) items ->
  let run := processKey env (tryBlock_stash env) url results k s in
  (exists calls,
     trace (snd run) = trace s ++ calls
     /\ forall k', CallDeleteObject k' ∉ calls)
  /\ (forall results',
        fst run = inr results' ->
        processedKeys results' = processedKeys results
        /\ exists error,
             processingErrors results'
             = processingErrors results ++ [mkKeyError (key k) error])
  /\ (forall s2 s3 s4 s5 outcomes,
        awaitTrackProgress env "converted inventory JSON"
          (CtxConverted senderId items) s1 = (inr tt, s2) ->
        awaitFetch env url senderId items s2 = (inr tt, s3) ->
        promiseAll (map (itemCallback env senderId) items) s3
          = (inr outcomes, s4) ->
        awaitTrackProgress env skipMessage
          (CtxSkipped (key k) (List.filter missingRequired items)) s4
          = (inr tt, s5) ->
        run = (inr (pushError results (key k) (newError skipMessage)), s5))
  /\ (Forall (fun item => missingRequired item = true) items ->
      forall s2 s3 s5,
        awaitTrackProgress env "converted inventory JSON"
          (CtxConverted senderId items) s1 = (inr tt, s2) ->
        awaitFetch env url senderId items s2 = (inr tt, s3) ->
        awaitTrackProgress env skipMessage
          (CtxSkipped (key k) (List.filter missingRequired items)) s3
          = (inr tt, s5) ->
        run = (inr (pushError results (key k) (newError skipMessage)), s5)).
Proof.
  intros Hsender Hfetch Hconverted Hskipped run.
  destruct (processKey_skipped env url results k s s1 senderId fileContents
              items Hsender Hfetch Hconverted Hskipped)
    as [(calls & Htrace & Hcalls) Hends].
  split; [|split; [|split]].
  - exists calls. split; [exact Htrace|].
    intros k' Hin. rewrite Forall_forall in Hcalls.
    exact (Hcalls _ Hin).
  - intros results' Hrun. destruct (Hends _ Hrun) as [error ->].
    split; [done|]. by exists error.
  - intros s2 s3 s4 s5 outcomes Htrack Hpost Hitems Hnote.
    by eapply processKey_skip_message.
  - intros Hall s2 s3 s5 Htrack Hpost Hnote.
    eapply processKey_skip_message; try done.
    by apply promiseAll_all_skipped.
Qed.

(** Scenario B on the demo deployment: the feed has no price column. *)
Lemma C5_skipped_key_is_kept_and_reported_witness :
  let k := mkKeyToProcess "b" Demo.keyA in
  let s0 := Demo.start [(Demo.keyA, Demo.feedNoPrice)] true in
  let results := mkResults [] [] [] in
  let run := processKey Demo.env (tryBlock_stash Demo.env) Demo.webhookUrl
               results k s0 in
  fst run = inr (mkResults [] [mkKeyError Demo.keyA (newError skipMessage)] [])
  /\ Demo.objects (world (snd run)) !! Demo.keyA = Some Demo.feedNoPrice.
Proof.
  intros k s0 results run.
  split; [|by vm_compute].
  destruct (C5_skipped_key_is_kept_and_reported Demo.env Demo.webhookUrl
              results k "shop_1" Demo.feedNoPrice
              [{[ "sku" := "X"; "quantity" := "3" ]}] s0
              (snd (awaitGetObject Demo.env k s0)))
    as (_ & _ & Hmessage & _).
  - reflexivity.
  - vm_compute. reflexivity.
  - vm_compute. reflexivity.
  - apply Exists_cons_hd. vm_compute. reflexivity.
  - unfold run. erewrite Hmessage; [reflexivity|..];
      vm_compute; reflexivity.
Defined.

(** C9: for a record that has the required attributes, the value written for
    its sku is the value read for that sku just before (empty when there is
    none) with the entry of the current sender identifier set to the price
    and quantity of the record; the entry of every other sender identifier
    is the one that was read. *)
Theorem C9_written_value_is_a_merge
    {Event World Failure : Type} (env : Env Event World Failure)
    (senderId : string) (item : Item) (s : State Event World)
    (existing : option StashValue) (w1 : World) :
  missingRequired item = false ->
  getValue env (prop item "sku") INVENTORY_DATA_STASH_KEYSPACE_NAME (world s)
    = (inr existing, w1) ->
  let sku := prop item "sku" in
  let value := mergedValue existing senderId item in
  snd (itemCallback env senderId item s)
  = mkState
      (snd (setValue env sku value INVENTORY_DATA_STASH_KEYSPACE_NAME w1))
      (trace s ++
       [CallGetValue sku INVENTORY_DATA_STASH_KEYSPACE_NAME (inr existing);
        CallSetValue sku value INVENTORY_DATA_STASH_KEYSPACE_NAME])
  /\ value = <[senderId := mkPriceQuantity (prop item "price")
                                           (prop item "quantity")]>
               (default ∅ existing)
  /\ value !! senderId
     = Some (mkPriceQuantity (prop item "price") (prop item "quantity"))
  /\ (forall other, other <> senderId ->
        value !! other = default ∅ existing !! other).
Proof.
  intros Hcomplete Hget sku value. repeat split.
  - by apply itemCallback_complete.
  - apply mergedValue_sender.
  - intros other Hother. by apply mergedValue_other.
Qed.

(** Sender [b] sends sku [X] after sender [a] did: both entries are in the
    value written. *)
Lemma C9_written_value_is_a_merge_witness :
  let item : Item := {[ "sku" := "X"; "quantity" := "7"; "price" := "12" ]} in
  let fromA : StashValue := {[ "a" := mkPriceQuantity "10" "3" ]} in
  let s0 : State Demo.Event Demo.World :=
    mkState (Demo.mkWorld ∅ {[ "X" := fromA ]} [] true) [] in
  Demo.stash (world (snd (itemCallback Demo.env "b" item s0))) !! "X"
  = Some ({[ "a" := mkPriceQuantity "10" "3";
             "b" := mkPriceQuantity "12" "7" ]} : StashValue).
Proof.
  intros item fromA s0.
  destruct (C9_written_value_is_a_merge Demo.env "b" item s0 (Some fromA)
              (world s0)) as (Hstate & _).
  - reflexivity.
  - reflexivity.
  - rewrite Hstate. vm_compute. reflexivity.
Defined.

(** ** The scenarios of the specification on the demo deployment *)

(** Scenario A: one key, two complete rows. *)
Example scenario_A :
  let event := [mkRecord "b" Demo.keyA] in
  let s0 := Demo.start [(Demo.keyA, Demo.feedComplete)] true in
  let run := handler_stash Demo.env event s0 in
  let row1 : Item := {[ "sku" := "X"; "quantity" := "3"; "price" := "10" ]} in
  let row2 : Item := {[ "sku" := "Y"; "quantity" := "1"; "price" := "25" ]} in
  fst run = inr (Results (mkResults [] [] [Demo.keyA]))
  /\ Demo.posts (world (snd run)) = [(Demo.webhookUrl, "shop_1", [row1; row2])]
  /\ Demo.objects (world (snd run)) !! Demo.keyA = None
  /\ Demo.stash (world (snd run)) !! "X"
     = Some ({[ "shop_1" := mkPriceQuantity "10" "3" ]} : StashValue).
Proof. repeat split; by vm_compute. Qed.

(** Scenario C: a folder and a key outside an inventory directory. *)
Example scenario_C :
  let event := [mkRecord "b" "trading_partners/shop_1/inventory/";
                mkRecord "b" "other/shop_1/x.csv"] in
  fst (handler_forward Demo.env event (Demo.start [] true))
  = inr (Results (mkResults
           [mkFilteredKey "trading_partners/shop_1/inventory/" folderReason;
            mkFilteredKey "other/shop_1/x.csv" mismatchReason] [] [])).
Proof. by vm_compute. Qed.

(** Scenario D: sender [a], then sender [b], send sku [X]. *)
Example scenario_D :
  let keyOf (sender : string) :=
    "trading_partners/" +:+ sender +:+ "/inventory/feed.csv" in
  let s0 := Demo.start [(keyOf "a", Demo.lines ["sku,quantity,price"; "X,3,10"]);
                        (keyOf "b", Demo.lines ["sku,quantity,price"; "X,7,12"])]
                       true in
  let s1 := snd (handler_stash Demo.env [mkRecord "b" (keyOf "a")] s0) in
  let s2 := snd (handler_stash Demo.env [mkRecord "b" (keyOf "b")] s1) in
  Demo.stash (world s2) !! "X"
  = Some ({[ "a" := mkPriceQuantity "10" "3";
             "b" := mkPriceQuantity "12" "7" ]} : StashValue).
Proof. by vm_compute. Qed.

(** A throw of the progress hook before the [try] is not caught: the
    assumption of C3 on the tracker cannot be dropped. *)
Example hook_throw_escapes :
  let env := mkEnv (functionName Demo.env) (generateExecutionId Demo.env)
               (recordNewExecution Demo.env)
               (markExecutionAsSuccessful Demo.env)
               (failedExecution Demo.env)
               (fun _ _ w => (throwE (newError "hook down"), w))
               (toBucketNotificationEvent Demo.env) (requiredEnvVar Demo.env)
               (getObjectText Demo.env) (deleteObject Demo.env)
               (getValue Demo.env) (setValue Demo.env) (fetchPost Demo.env)
               (papaparse_parse Demo.env) (toLowerCase Demo.env) in
  fst (handler_stash env [] (Demo.start [] true))
  = throwE (newError "hook down").
Proof. by vm_compute. Qed.

(** * Further properties *)

(** ** Paths: splitting and joining *)

Lemma append_cons c s1 s2 : String c s1 +:+ s2 = String c (s1 +:+ s2).
Proof. reflexivity. Qed.

Lemma append_empty s : EmptyString +:+ s = s.
Proof. reflexivity. Qed.

Lemma split_not_nil sep s : Js.split sep s <> [].
Proof.
  destruct s as [|c rest]; simpl; [done|].
  destruct (Ascii.eqb c sep); [done|]. by destruct (Js.split sep rest).
Qed.

Lemma split_plain sep s : hasChar sep s = false -> Js.split sep s = [s].
Proof.
  induction s as [|c rest IH]; simpl; [done|].
  intros [Hc Hrest]%orb_false_elim. rewrite Hc, IH by done. done.
Qed.

Lemma split_app sep s1 s2 :
  Js.split sep (s1 +:+ String sep s2) = Js.split sep s1 ++ Js.split sep s2.
Proof.
  induction s1 as [|c rest IH].
  - rewrite append_empty. simpl. by rewrite Ascii.eqb_refl.
  - rewrite append_cons. simpl. rewrite IH.
    destruct (Ascii.eqb c sep); [done|].
    pose proof (split_not_nil sep rest).
    by destruct (Js.split sep rest).
Qed.

Lemma concat_cons sep x y rest :
  String.concat sep (x :: y :: rest) = x +:+ sep +:+ String.concat sep (y :: rest).
Proof. reflexivity. Qed.

Lemma split_join sep (segments : list string) :
  segments <> [] ->
  Forall (fun segment => hasChar sep segment = false) segments ->
  Js.split sep (String.concat (String sep EmptyString) segments) = segments.
Proof.
  intros Hsome Hplain. induction Hplain as [|x rest Hx Hrest IH]; [done|].
  destruct rest as [|y rest].
  - simpl. by apply split_plain.
  - rewrite concat_cons, append_cons, append_empty, split_app.
    rewrite split_plain by done. rewrite IH by done. done.
Qed.

Lemma join_split sep s :
  String.concat (String sep EmptyString) (Js.split sep s) = s.
Proof.
  induction s as [|c rest IH]; [done|]. simpl.
  pose proof (split_not_nil sep rest) as Hsome.
  destruct (Ascii.eqb c sep) eqn:Hc.
  - apply Ascii.eqb_eq in Hc as ->.
    destruct (Js.split sep rest) as [|h t]; [done|].
    by rewrite concat_cons, append_empty, append_cons, append_empty, IH.
  - destruct (Js.split sep rest) as [|h [|h' t]]; [done| |].
    + simpl in *. by rewrite IH.
    + rewrite concat_cons, append_cons. rewrite concat_cons in IH.
      by rewrite IH.
Qed.

Lemma split_segments sep s :
  Forall (fun segment => hasChar sep segment = false) (Js.split sep s).
Proof.
  induction s as [|c rest IH]; simpl; [by repeat constructor|].
  destruct (Ascii.eqb c sep) eqn:Hc; [by constructor|].
  destruct (Js.split sep rest) as [|h t]; [by repeat constructor; simpl; rewrite Hc|].
  inversion IH; subst. constructor; [|done]. simpl. by rewrite Hc.
Qed.

(** X1: the extraction of the sender identifier succeeds exactly on the keys
    made of four segments, [a/senderId/c/d], and gives the second; on any
    other key it throws. *)
Theorem X1_sender_is_second_of_four (objectKey senderId : string) :
  extractShopIdFromKey objectKey = inr senderId
  <-> exists a c d,
        Forall (fun segment => hasChar "/" segment = false) [a; senderId; c; d]
        /\ objectKey = joinPath [a; senderId; c; d].
Proof.
  unfold extractShopIdFromKey, joinPath. split.
  - intros Hrun.
    pose proof (join_split "/" objectKey) as Hjoin.
    pose proof (split_segments "/" objectKey) as Hplain.
    destruct (Js.split "/" objectKey) as [|a [|b [|c [|d [|]]]]]; try done.
    simpl in Hrun. injection Hrun as ->.
    exists a, c, d. by split.
  - intros (a & c & d & Hplain & ->).
    rewrite (split_join "/") by done. done.
Qed.

(** ** Decoding of the keys *)

Lemma decodeFrom_plain s :
  hasChar "%" s = false -> Js.decodeFrom [] 0 s = inr s.
Proof.
  induction s as [|c rest IH]; simpl; [done|].
  intros [Hc Hrest]%orb_false_elim. rewrite Hc, IH by done. done.
Qed.

Lemma hasChar_replaceEach c target by_ s :
  c <> target -> c <> by_ ->
  hasChar c (Js.replaceEach target by_ s) = hasChar c s.
Proof.
  intros Htarget Hby. induction s as [|a rest IH]; simpl; [done|].
  rewrite IH. f_equal.
  destruct (Ascii.eqb a target) eqn:Ha.
  - apply Ascii.eqb_eq in Ha as ->.
    apply Ascii.eqb_neq in Htarget, Hby.
    rewrite Ascii.eqb_sym in Htarget. rewrite Ascii.eqb_sym in Hby.
    by rewrite Htarget, Hby.
  - done.
Qed.

Lemma replaceEach_plain target by_ s :
  hasChar target s = false -> Js.replaceEach target by_ s = s.
Proof.
  induction s as [|a rest IH]; simpl; [done|].
  intros [Ha Hrest]%orb_false_elim. by rewrite Ha, IH.
Qed.

Lemma split_replaceEach sep target by_ s :
  sep <> target -> sep <> by_ ->
  Js.split sep (Js.replaceEach target by_ s)
  = map (Js.replaceEach target by_) (Js.split sep s).
Proof.
  intros Htarget Hby. induction s as [|a rest IH]; simpl; [done|].
  rewrite IH.
  destruct (Ascii.eqb a target) eqn:Ha.
  - apply Ascii.eqb_eq in Ha as ->.
    apply Ascii.eqb_neq in Htarget, Hby.
    rewrite Ascii.eqb_sym in Htarget. rewrite Ascii.eqb_sym in Hby.
    rewrite Htarget, Hby.
    pose proof (split_not_nil sep rest).
    destruct (Js.split sep rest); [done|]. simpl.
    by rewrite Ascii.eqb_refl.
  - destruct (Ascii.eqb a sep); [done|].
    pose proof (split_not_nil sep rest).
    destruct (Js.split sep rest); [done|]. simpl. by rewrite Ha.
Qed.

Lemma decodeObjectKey_plain objectKey :
  hasChar "%" objectKey = false ->
  decodeObjectKey objectKey = inr (Js.replaceEach "+" " " objectKey).
Proof.
  intros Hplain. unfold decodeObjectKey, Js.decodeURIComponent.
  apply decodeFrom_plain. by rewrite hasChar_replaceEach.
Qed.

(** X2: on a key without percent sign the decoding does not throw and only
    turns each plus sign into a space; without plus sign either, the key is
    its own decoding. *)
Theorem X2_decoding_without_escapes (objectKey : string) :
  hasChar "%" objectKey = false ->
  decodeObjectKey objectKey = inr (Js.replaceEach "+" " " objectKey)
  /\ String.length (Js.replaceEach "+" " " objectKey) = String.length objectKey
  /\ (hasChar "+" objectKey = false -> decodeObjectKey objectKey = inr objectKey).
Proof.
  intros Hplain.
  pose proof (decodeObjectKey_plain objectKey Hplain) as Hdecoded.
  split; [exact Hdecoded|]. split.
  - clear. induction objectKey as [|a rest IH]; simpl; [done|]. by rewrite IH.
  - intros Hnoplus. by rewrite Hdecoded, replaceEach_plain.
Qed.

Lemma X2_decoding_without_escapes_witness :
  decodeObjectKey "trading_partners/shop+1/inventory/feed.csv"
  = inr "trading_partners/shop 1/inventory/feed.csv".
Proof.
  destruct (X2_decoding_without_escapes
              "trading_partners/shop+1/inventory/feed.csv") as [Hdecoded _].
  - reflexivity.
  - rewrite Hdecoded. reflexivity.
Defined.

Lemma decodeFrom_error n : forall s pending need e,
  (String.length s <= n)%nat ->
  Js.decodeFrom pending need s = inl e -> e = ThrownError Js.uriMalformed.
Proof.
  induction n as [|n IH]; intros s pending need e Hlen.
  - destruct s; [|simpl in Hlen; lia].
    simpl. destruct need; [done|]. by intros [= <-].
  - destruct s as [|c rest]; simpl.
    { destruct need; [done|]. by intros [= <-]. }
    simpl in Hlen.
    assert (Hrec : forall s' pending' need' e',
              (String.length s' <= String.length rest)%nat ->
              Js.decodeFrom pending' need' s' = inl e' ->
              e' = ThrownError Js.uriMalformed).
    { intros s' pending' need' e' Hs'. apply IH. lia. }
    assert (Hbind : forall s' (k : string -> string) e',
              (String.length s' <= String.length rest)%nat ->
              bindE (Js.decodeFrom [] 0 s') (fun r => inr (k r)) = inl e' ->
              e' = ThrownError Js.uriMalformed).
    { intros s' k e' Hs' Hrun.
      destruct (Js.decodeFrom [] 0 s') eqn:Hdec; [|done].
      injection Hrun as <-. by eapply Hrec. }
    destruct (Ascii.eqb c "%").
    + destruct rest as [|h1 [|h2 rest']]; try (by intros [= <-]).
      simpl in Hrec, Hbind.
      destruct (Js.hexDigit h1); [|by intros [= <-]].
      destruct (Js.hexDigit h2); [|by intros [= <-]].
      destruct need as [|[|need']].
      * destruct (Js.leadingOnes _) as [|[|[|[|[|]]]]];
          try (by intros [= <-]);
          first [apply Hbind; lia | apply Hrec; lia].
      * destruct (Js.validUtf8 _); [|by intros [= <-]]. apply Hbind. lia.
      * apply Hrec. lia.
    + destruct need; [|by intros [= <-]]. by apply Hbind.
Qed.

Lemma decodeObjectKey_error objectKey e :
  decodeObjectKey objectKey = inl e -> e = ThrownError Js.uriMalformed.
Proof. unfold decodeObjectKey, Js.decodeURIComponent. by apply decodeFrom_error with (n := String.length (Js.replaceEach "+" " " objectKey)). Qed.

Lemma classify_filtered record :
  notInInventoryDirectory (Js.split "/" (s3_object_key record)) = true
  \/ Js.endsWith (s3_object_key record) "/" = true ->
  classify record
  = inr (Filtered (mkFilteredKey (s3_object_key record)
                                 (filterReason (s3_object_key record)))).
Proof.
  unfold classify, filterReason.
  destruct (Js.endsWith _ "/"); [done|]. by intros [->|?].
Qed.

Lemma split_last_of_folder front :
  last (Js.split "/" (front +:+ "/")) = Some EmptyString.
Proof. rewrite split_app. simpl. by rewrite last_snoc. Qed.

(** A key whose last segment is not empty is not a folder. *)
Lemma endsWith_last rawKey segment :
  last (Js.split "/" rawKey) = Some segment -> segment <> EmptyString ->
  Js.endsWith rawKey "/" = false.
Proof.
  intros Hlast Hsome. destruct (Js.endsWith rawKey "/") eqn:Hends; [|done].
  apply endsWith_spec in Hends as [front ->].
  rewrite split_last_of_folder in Hlast. by injection Hlast as <-.
Qed.

Lemma inInventoryDirectory (front : list string) (file : string) :
  notInInventoryDirectory (front ++ ["inventory"; file]) = false.
Proof.
  unfold notInInventoryDirectory. rewrite second_to_last.
  rewrite bool_decide_eq_true_2 by done.
  rewrite length_app. simpl.
  replace (List.length front + 2 <? 2)%nat with false; [done|].
  symmetry. apply Nat.ltb_ge. lia.
Qed.

(** A key in an inventory directory, written without percent sign, is
    eligible, and decoding leaves its segments in place. *)
Lemma classify_inventory bucket (front : list string) (file : string) :
  let segments := front ++ ["inventory"; file] in
  Forall (fun segment => hasChar "/" segment = false) segments ->
  hasChar "%" (joinPath segments) = false ->
  file <> EmptyString ->
  classify (mkRecord bucket (joinPath segments))
  = inr (Eligible (mkKeyToProcess bucket
                     (Js.replaceEach "+" " " (joinPath segments))))
  /\ Js.split "/" (Js.replaceEach "+" " " (joinPath segments))
     = map (Js.replaceEach "+" " ") segments.
Proof.
  intros segments Hplain Hpercent Hfile.
  assert (Hsplit : Js.split "/" (joinPath segments) = segments).
  { apply (split_join "/"); [|done]. unfold segments. by destruct front. }
  split.
  - unfold classify. simpl. rewrite Hsplit.
    rewrite (endsWith_last _ file); [| |done].
    2:{ rewrite Hsplit. unfold segments.
        change (front ++ ["inventory"; file])
          with (front ++ ["inventory"] ++ [file]).
        rewrite app_assoc. apply last_snoc. }
    unfold segments at 1. rewrite inInventoryDirectory.
    by rewrite decodeObjectKey_plain.
  - rewrite split_replaceEach by done. by rewrite Hsplit.
Qed.

(** X3: a raw key [.../inventory/file] written without percent sign, whatever
    its depth and its first segments, is eligible; the sender identifier is
    then extracted exactly when two segments come before [inventory], and is
    the second of them with its plus signs turned into spaces; at any other
    depth the extraction throws for a key the classifier let through. *)
Theorem X3_eligible_keys_and_their_sender (bucket : string)
    (front : list string) (file : string) :
  let segments := front ++ ["inventory"; file] in
  let decoded := Js.replaceEach "+" " " (joinPath segments) in
  Forall (fun segment => hasChar "/" segment = false) segments ->
  hasChar "%" (joinPath segments) = false ->
  file <> EmptyString ->
  groupEventKeys [mkRecord bucket (joinPath segments)]
  = inr (mkGrouped [] [mkKeyToProcess bucket decoded])
  /\ (forall a senderId, front = [a; senderId] ->
        extractShopIdFromKey decoded = inr (Js.replaceEach "+" " " senderId))
  /\ (List.length front <> 2%nat ->
      extractShopIdFromKey decoded
      = throwE (newError "unable to extract sender ID from object key")).
Proof.
  intros segments decoded Hplain Hpercent Hfile.
  destruct (classify_inventory bucket front file Hplain Hpercent Hfile)
    as [Hclassify Hsplit].
  fold segments in Hclassify, Hsplit. fold decoded in Hclassify, Hsplit.
  split; [|split].
  - rewrite groupEventKeys_spec. unfold specClassifier. simpl.
    by rewrite Hclassify.
  - intros a senderId ->. unfold extractShopIdFromKey. by rewrite Hsplit.
  - intros Hdepth. unfold extractShopIdFromKey. rewrite Hsplit.
    rewrite length_map. unfold segments. rewrite length_app. simpl.
    replace (List.length front + 2 =? 4)%nat with false; [done|].
    symmetry. apply Nat.eqb_neq. lia.
Qed.

Lemma X3_eligible_keys_and_their_sender_witness :
  groupEventKeys [mkRecord "b" "inbox/acme+corp/inventory/feed.csv"]
  = inr (mkGrouped [] [mkKeyToProcess "b" "inbox/acme corp/inventory/feed.csv"])
  /\ extractShopIdFromKey "inbox/acme corp/inventory/feed.csv" = inr "acme corp"
  /\ extractShopIdFromKey "inventory/feed.csv"
     = throwE (newError "unable to extract sender ID from object key").
Proof.
  destruct (X3_eligible_keys_and_their_sender "b" ["inbox"; "acme+corp"]
              "feed.csv") as (Hgroup & Hsender & _);
    [by repeat constructor|reflexivity|discriminate|].
  destruct (X3_eligible_keys_and_their_sender "b" [] "feed.csv")
    as (_ & _ & Hthrow);
    [by repeat constructor|reflexivity|discriminate|].
  split; [exact Hgroup|]. split.
  - exact (Hsender "inbox" "acme+corp" eq_refl).
  - apply Hthrow. simpl. lia.
Defined.

(** ** The classifier on a batch *)

Lemma classifyAll_app records1 records2 :
  classifyAll (records1 ++ records2)
  = bindE (classifyAll records1) (fun cs1 =>
      bindE (classifyAll records2) (fun cs2 => inr (cs1 ++ cs2))).
Proof.
  induction records1 as [|r rs IH]; simpl.
  - by destruct (classifyAll records2).
  - destruct (classify r); simpl; [done|]. rewrite IH.
    destruct (classifyAll rs); simpl; [done|].
    by destruct (classifyAll records2).
Qed.

(** X4: classifying a batch made of two batches gives the filtered keys and
    the eligible keys of the first followed by those of the second; a throw
    in the first batch, or else in the second, is the throw of the whole. *)
Theorem X4_classifier_of_concatenation
    (records1 records2 : list BucketNotificationRecord) :
  groupEventKeys (records1 ++ records2)
  = bindE (groupEventKeys records1) (fun g1 =>
      bindE (groupEventKeys records2) (fun g2 =>
        inr (mkGrouped (g_filteredKeys g1 ++ g_filteredKeys g2)
                       (g_keysToProcess g1 ++ g_keysToProcess g2)))).
Proof.
  rewrite !groupEventKeys_spec. unfold specClassifier.
  rewrite classifyAll_app.
  destruct (classifyAll records1) as [e|cs1]; simpl; [done|].
  destruct (classifyAll records2) as [e|cs2]; simpl; [done|].
  unfold filteredOf, eligibleOf. by rewrite !omap_app.
Qed.

Lemma classify_thrown record e :
  classify record = inl e ->
  e = ThrownError Js.uriMalformed
  /\ Js.endsWith (s3_object_key record) "/" = false
  /\ notInInventoryDirectory (Js.split "/" (s3_object_key record)) = false
  /\ hasChar "%" (s3_object_key record) = true.
Proof.
  unfold classify.
  destruct (Js.endsWith _ "/"); [done|].
  destruct (notInInventoryDirectory _); [done|].
  destruct (decodeObjectKey _) as [e'|decoded] eqn:Hdecode; simpl; [|done].
  intros [= <-]. split; [by eapply decodeObjectKey_error|].
  repeat split.
  destruct (hasChar "%" (s3_object_key record)) eqn:Hpercent; [done|].
  by rewrite decodeObjectKey_plain in Hdecode.
Qed.

(** X5: the classifier throws only the [URIError] of a malformed escape, and
    only for a record that would be eligible: a folder key or a key outside
    an inventory directory is filtered without being decoded, and a batch
    whose keys have no percent sign is always classified. *)
Theorem X5_classifier_throws_only_on_bad_escapes
    (records : list BucketNotificationRecord) :
  (forall e, groupEventKeys records = inl e ->
     e = ThrownError Js.uriMalformed
     /\ exists record,
          record ∈ records
          /\ Js.endsWith (s3_object_key record) "/" = false
          /\ notInInventoryDirectory (Js.split "/" (s3_object_key record)) = false
          /\ hasChar "%" (s3_object_key record) = true)
  /\ (Forall (fun record => hasChar "%" (s3_object_key record) = false) records ->
      exists grouped, groupEventKeys records = inr grouped).
Proof.
  assert (Hthrown : forall e, classifyAll records = inl e ->
            e = ThrownError Js.uriMalformed
            /\ exists record,
                 record ∈ records
                 /\ Js.endsWith (s3_object_key record) "/" = false
                 /\ notInInventoryDirectory
                      (Js.split "/" (s3_object_key record)) = false
                 /\ hasChar "%" (s3_object_key record) = true).
  { induction records as [|r rs IH]; intros e; simpl; [done|].
    destruct (classify r) as [e'|c] eqn:Hc; simpl.
    - intros [= <-]. apply classify_thrown in Hc as (-> & Hc).
      split; [done|]. exists r. split; [apply list_elem_of_here|done].
    - destruct (classifyAll rs) as [e'|cs]; simpl; [|done].
      intros [= <-]. destruct (IH e' eq_refl) as (-> & record & Hin & Hrecord).
      split; [done|]. exists record. split; [by apply list_elem_of_further|done]. }
  split.
  - intros e. rewrite groupEventKeys_spec. unfold specClassifier.
    destruct (classifyAll records) as [e'|cs]; simpl; [|done].
    intros [= <-]. by apply Hthrown.
  - intros Hplain. rewrite groupEventKeys_spec. unfold specClassifier.
    destruct (classifyAll records) as [e|cs]; simpl; [|by eexists].
    destruct (Hthrown e eq_refl) as (_ & record & Hin & _ & _ & Hpercent).
    rewrite Forall_forall in Hplain. by rewrite (Hplain _ Hin) in Hpercent.
Qed.

Lemma X5_classifier_throws_only_on_bad_escapes_witness :
  groupEventKeys [mkRecord "b" "x/inventory/100%"]
  = throwE Js.uriMalformed
  /\ groupEventKeys [mkRecord "b" "100%/"; mkRecord "b" "x/100%"]
     = inr (mkGrouped [mkFilteredKey "100%/" folderReason;
                       mkFilteredKey "x/100%" mismatchReason] [])
  /\ exists grouped,
       groupEventKeys [mkRecord "b" "x/inventory/100"] = inr grouped.
Proof.
  split; [reflexivity|]. split; [reflexivity|].
  destruct (X5_classifier_throws_only_on_bad_escapes
              [mkRecord "b" "x/inventory/100"]) as [_ Hclassified].
  apply Hclassified. by repeat constructor.
Defined.

Lemma classify_outcome record c :
  classify record = inr c ->
  match c with
  | Filtered f =>
      f = mkFilteredKey (s3_object_key record)
                        (filterReason (s3_object_key record))
      /\ (Js.endsWith (s3_object_key record) "/" = true
          \/ notInInventoryDirectory (Js.split "/" (s3_object_key record)) = true)
  | Eligible k =>
      bucketName k = s3_bucket_name record
      /\ decodeObjectKey (s3_object_key record) = inr (key k)
      /\ Js.endsWith (s3_object_key record) "/" = false
      /\ notInInventoryDirectory (Js.split "/" (s3_object_key record)) = false
  end.
Proof.
  unfold classify, filterReason.
  destruct (Js.endsWith _ "/") eqn:Hends; [intros [= <-]; eauto|].
  destruct (notInInventoryDirectory _) eqn:Hpath; [intros [= <-]; eauto|].
  destruct (decodeObjectKey _); simpl; [done|]. intros [= <-]. eauto.
Qed.

(** X6: a classified batch is split in two without loss: there are as many
    filtered and eligible keys as records; a filtered key is the raw key of a
    folder or of an object outside an inventory directory, with the matching
    reason; an eligible key has the bucket name of its record and the
    decoding of its raw key, which is neither a folder nor outside an
    inventory directory. *)
Theorem X6_classifier_partitions_the_batch
    (records : list BucketNotificationRecord) (grouped : GroupedEventKeys) :
  groupEventKeys records = inr grouped ->
  (List.length (g_filteredKeys grouped)
   + List.length (g_keysToProcess grouped))%nat = List.length records
  /\ Forall (fun f => exists record,
               record ∈ records
               /\ f = mkFilteredKey (s3_object_key record)
                                    (filterReason (s3_object_key record))
               /\ (Js.endsWith (s3_object_key record) "/" = true
                   \/ notInInventoryDirectory
                        (Js.split "/" (s3_object_key record)) = true))
            (g_filteredKeys grouped)
  /\ Forall (fun k => exists record,
               record ∈ records
               /\ bucketName k = s3_bucket_name record
               /\ decodeObjectKey (s3_object_key record) = inr (key k)
               /\ Js.endsWith (s3_object_key record) "/" = false
               /\ notInInventoryDirectory
                    (Js.split "/" (s3_object_key record)) = false)
            (g_keysToProcess grouped).
Proof.
  rewrite groupEventKeys_spec. unfold specClassifier.
  destruct (classifyAll records) as [e|cs] eqn:Hcs; simpl; [done|].
  intros [= <-]. simpl.
  split; [rewrite classified_length; by apply classifyAll_length|].
  apply classifyAll_each in Hcs.
  split; apply Forall_forall; intros x Hin.
  - apply list_elem_of_omap in Hin as ([f|k] & Hc & Heq); [|done].
    injection Heq as ->.
    apply list_elem_of_lookup in Hc as [i Hi].
    destruct (Forall2_lookup_r _ _ _ _ _ Hcs Hi) as (record & Hrecord & Hclass).
    apply classify_outcome in Hclass as [-> Hwhy].
    exists record. split; [by eapply list_elem_of_lookup_2|done].
  - apply list_elem_of_omap in Hin as ([f|k] & Hc & Heq); [done|].
    injection Heq as ->.
    apply list_elem_of_lookup in Hc as [i Hi].
    destruct (Forall2_lookup_r _ _ _ _ _ Hcs Hi) as (record & Hrecord & Hclass).
    apply classify_outcome in Hclass.
    exists record. split; [by eapply list_elem_of_lookup_2|done].
Qed.

Lemma X6_classifier_partitions_the_batch_witness :
  let records := [mkRecord "b" "trading_partners/shop_1/inventory/";
                  mkRecord "b" "trading_partners/shop+1/inventory/feed.csv";
                  mkRecord "b" "readme.txt"] in
  exists grouped,
    groupEventKeys records = inr grouped
    /\ (List.length (g_filteredKeys grouped)
        + List.length (g_keysToProcess grouped))%nat = 3%nat.
Proof.
  intros records. eexists. split; [reflexivity|].
  refine (proj1 (X6_classifier_partitions_the_batch records _ _)).
  reflexivity.
Defined.

(** ** The normalised headers *)

Lemma hasChar_cons c a s :
  hasChar c (String a s) = Ascii.eqb a c || hasChar c s.
Proof. reflexivity. Qed.

Lemma replaceRuns_no_separator (inClass : ascii -> bool) (c : ascii) s :
  inClass c = true -> inClass "_"%char = false ->
  forall inMatch, hasChar c (Js.replaceRuns inClass "_" inMatch s) = false.
Proof.
  intros Hc Hunderscore.
  assert (Hne : Ascii.eqb "_"%char c = false).
  { apply Ascii.eqb_neq. intros <-. congruence. }
  induction s as [|a rest IH]; intros inMatch; simpl; [done|].
  destruct (inClass a) eqn:Ha.
  - destruct inMatch; [apply IH|].
    rewrite append_cons, append_empty, hasChar_cons. by rewrite Hne, IH.
  - rewrite hasChar_cons, IH.
    replace (Ascii.eqb a c) with false; [done|].
    symmetry. apply Ascii.eqb_neq. intros ->. congruence.
Qed.

Lemma replaceRuns_length (inClass : ascii -> bool) s : forall inMatch,
  (String.length (Js.replaceRuns inClass "_" inMatch s) <= String.length s)%nat.
Proof.
  induction s as [|a rest IH]; intros inMatch; simpl; [done|].
  destruct (inClass a).
  - destruct inMatch.
    + specialize (IH true). lia.
    + rewrite append_cons, append_empty. simpl. specialize (IH true). lia.
  - simpl. specialize (IH false). lia.
Qed.

Lemma replaceRuns_ext (inClass inClass' : ascii -> bool) s :
  (forall c, hasChar c s = true -> inClass c = inClass' c) ->
  forall inMatch,
    Js.replaceRuns inClass "_" inMatch s = Js.replaceRuns inClass' "_" inMatch s.
Proof.
  induction s as [|a rest IH]; intros Hagree inMatch; simpl; [done|].
  rewrite <- (Hagree a) by (simpl; by rewrite Ascii.eqb_refl).
  assert (Hrest : forall c, hasChar c rest = true -> inClass c = inClass' c).
  { intros c Hc. apply Hagree. simpl. rewrite Hc. apply orb_true_r. }
  by rewrite !(IH Hrest).
Qed.

Lemma replaceRuns_plain (inClass : ascii -> bool) s :
  (forall c, hasChar c s = true -> inClass c = false) ->
  Js.replaceRuns inClass "_" false s = s.
Proof.
  induction s as [|a rest IH]; intros Hplain; simpl; [done|].
  rewrite (Hplain a) by (simpl; by rewrite Ascii.eqb_refl).
  rewrite IH; [done|]. intros c Hc. apply Hplain. simpl. rewrite Hc.
  apply orb_true_r.
Qed.

Lemma replaceRuns_idempotent (inClass : ascii -> bool) s :
  inClass "_"%char = false ->
  forall inMatch inMatch',
    Js.replaceRuns inClass "_" inMatch' (Js.replaceRuns inClass "_" inMatch s)
    = Js.replaceRuns inClass "_" inMatch s.
Proof.
  intros Hunderscore. induction s as [|a rest IH]; intros inMatch inMatch';
    simpl; [done|].
  destruct (inClass a) eqn:Ha.
  - destruct inMatch; [apply IH|].
    rewrite append_cons, append_empty. simpl.
    by rewrite Hunderscore, IH.
  - simpl. by rewrite Ha, IH.
Qed.

(** X7: whatever the header, its normal form has no space left (and no slash
    in the handler that only forwards), and is no longer than the header in
    lower case. *)
Theorem X7_normalised_header_has_no_separator
    (toLowerCase : string -> string) (header : string) :
  hasChar " " (transformHeader_stash toLowerCase header) = false
  /\ hasChar " " (transformHeader_forward toLowerCase header) = false
  /\ hasChar "/" (transformHeader_forward toLowerCase header) = false
  /\ (String.length (transformHeader_stash toLowerCase header)
      <= String.length (toLowerCase header))%nat
  /\ (String.length (transformHeader_forward toLowerCase header)
      <= String.length (toLowerCase header))%nat.
Proof.
  unfold transformHeader_stash, transformHeader_forward.
  repeat split; try (by apply replaceRuns_no_separator);
    apply replaceRuns_length.
Qed.

(** X8: a header that is already in normal form is kept: when the header in
    lower case has no space (no space and no slash for the handler that only
    forwards) the normal form is the header in lower case; and normalising
    the separators a second time changes nothing. *)
Theorem X8_normal_form_is_kept
    (toLowerCase : string -> string) (header : string) :
  (hasChar " " (toLowerCase header) = false ->
   transformHeader_stash toLowerCase header = toLowerCase header)
  /\ (hasChar " " (toLowerCase header) = false ->
      hasChar "/" (toLowerCase header) = false ->
      transformHeader_forward toLowerCase header = toLowerCase header)
  /\ Js.replaceRuns isSpace "_" false (transformHeader_stash toLowerCase header)
     = transformHeader_stash toLowerCase header
  /\ Js.replaceRuns isSpaceOrSlash "_" false
       (transformHeader_forward toLowerCase header)
     = transformHeader_forward toLowerCase header.
Proof.
  unfold transformHeader_stash, transformHeader_forward.
  split; [|split; [|split; by apply replaceRuns_idempotent]].
  - intros Hspace. apply replaceRuns_plain. intros c Hc. unfold isSpace.
    apply Ascii.eqb_neq. intros ->. congruence.
  - intros Hspace Hslash. apply replaceRuns_plain. intros c Hc.
    unfold isSpaceOrSlash. apply orb_false_intro;
      apply Ascii.eqb_neq; intros ->; congruence.
Qed.

Lemma X8_normal_form_is_kept_witness :
  transformHeader_stash asciiToLowerCase "SKU" = "sku"
  /\ transformHeader_forward asciiToLowerCase "unit_price" = "unit_price".
Proof.
  destruct (X8_normal_form_is_kept asciiToLowerCase "SKU") as (Hstash & _).
  destruct (X8_normal_form_is_kept asciiToLowerCase "unit_price")
    as (_ & Hforward & _).
  split; [rewrite Hstash; reflexivity|].
  rewrite Hforward; reflexivity.
Defined.

(** X9: the two handlers give a header the same normal form as soon as the
    header has no slash; with a slash they differ, the handler that merges
    into Stash keeping it. *)
Theorem X9_handlers_agree_on_headers_without_slash
    (toLowerCase : string -> string) (header : string) :
  (hasChar "/" (toLowerCase header) = false ->
   transformHeader_stash toLowerCase header
   = transformHeader_forward toLowerCase header)
  /\ (hasChar "/" (toLowerCase header) = true ->
      hasChar "/" (transformHeader_stash toLowerCase header) = true
      /\ transformHeader_stash toLowerCase header
         <> transformHeader_forward toLowerCase header).
Proof.
  unfold transformHeader_stash, transformHeader_forward. split.
  - intros Hslash. apply replaceRuns_ext. intros c Hc.
    unfold isSpace, isSpaceOrSlash.
    replace (Ascii.eqb c "/") with false; [by rewrite orb_false_r|].
    symmetry. apply Ascii.eqb_neq. intros ->. congruence.
  - intros Hslash.
    assert (Hkept : forall s inMatch, hasChar "/" s = true ->
              hasChar "/" (Js.replaceRuns isSpace "_" inMatch s) = true).
    { clear. induction s as [|a rest IH]; intros inMatch; simpl; [done|].
      unfold isSpace at 1. destruct (Ascii.eqb a " ") eqn:Ha.
      - apply Ascii.eqb_eq in Ha as ->. simpl. intros Hrest.
        destruct inMatch; [by apply IH|].
        rewrite append_cons, append_empty, hasChar_cons. simpl. by apply IH.
      - rewrite hasChar_cons. destruct (Ascii.eqb a "/"); [done|].
        simpl. apply IH. }
    split; [by apply Hkept|].
    intros Heq. apply Hkept with (inMatch := false) in Hslash.
    rewrite Heq in Hslash.
    by rewrite (replaceRuns_no_separator isSpaceOrSlash "/") in Hslash.
Qed.

Lemma X9_handlers_agree_on_headers_without_slash_witness :
  transformHeader_stash asciiToLowerCase "Unit Price"
  = transformHeader_forward asciiToLowerCase "Unit Price"
  /\ transformHeader_stash asciiToLowerCase "Qty/Box"
     <> transformHeader_forward asciiToLowerCase "Qty/Box".
Proof.
  destruct (X9_handlers_agree_on_headers_without_slash asciiToLowerCase
              "Unit Price") as [Hsame _].
  destruct (X9_handlers_agree_on_headers_without_slash asciiToLowerCase
              "Qty/Box") as [_ Hdiffer].
  split; [apply Hsame; reflexivity|].
  apply Hdiffer. reflexivity.
Defined.

(** ** The conversion *)

Lemma map_constant {A B} (b : B) (l : list A) :
  map (fun _ => b) l = replicate (List.length l) b.
Proof. induction l as [|a l IH]; simpl; [done|]. by rewrite IH. Qed.

(** X10: the conversion gives the parsed rows exactly when the parser
    reports no error, and never part of them; otherwise it throws an [Error]
    whose message is fixed by the number of parse errors alone (singular for
    one, plural for more, one [[object Object]] per error): what the parser
    said of each error is not in it. *)
Theorem X10_conversion_error_only_counts
    {Event World Failure : Type} (env : Env Event World Failure)
    (inputCsv : string) (parseConfig : option ParseConfig) :
  let result :=
    papaparse_parse env inputCsv
      (default defaultCsvToJsonConversionOptions parseConfig) in
  (errors result = [] ->
   convertCsvToJson env inputCsv parseConfig = inr (data result))
  /\ (errors result <> [] ->
      convertCsvToJson env inputCsv parseConfig
      = throwE (newError (conversionErrorMessage (List.length (errors result)))))
  /\ (forall rows, convertCsvToJson env inputCsv parseConfig = inr rows ->
        errors result = [] /\ rows = data result).
Proof.
  intros result. unfold convertCsvToJson. fold result.
  destruct (errors result) as [|parseError rest] eqn:Herrors.
  - split; [done|]. split; [done|]. simpl. by intros rows [= <-].
  - split; [done|]. split; [|done]. intros _.
    unfold renderErrors, conversionErrorMessage.
    by rewrite map_constant.
Qed.

Lemma X10_conversion_error_only_counts_witness :
  convertCsvToJson Demo.env (Demo.lines ["sku,quantity,price"; "X,3"]) None
  = throwE (newError
      "error encountered converting CSV to JSON: [object Object]")
  /\ convertCsvToJson Demo.env
       (Demo.lines ["sku,quantity,price"; "X,3"; "Y"; "Z,1,2"]) None
     = throwE (newError
         "errors encountered converting CSV to JSON: [object Object],[object Object]").
Proof.
  split.
  - destruct (X10_conversion_error_only_counts Demo.env
                (Demo.lines ["sku,quantity,price"; "X,3"]) None)
      as (_ & Hthrow & _).
    rewrite Hthrow; [reflexivity|]. vm_compute. discriminate.
  - destruct (X10_conversion_error_only_counts Demo.env
                (Demo.lines ["sku,quantity,price"; "X,3"; "Y"; "Z,1,2"]) None)
      as (_ & Hthrow & _).
    rewrite Hthrow; [reflexivity|]. vm_compute. discriminate.
Defined.

(** ** The calls of a whole invocation *)

Section WholeHandler.

Context {Event World Failure : Type}.
Variable env : Env Event World Failure.
Variable P : Call Event -> Prop.
Variable tryBlock :
  string -> KeyToProcess -> string -> string -> ProcessingResults ->
  M Event World ProcessingResults.

Hypothesis P_tracker : forall c, trackerCall c -> P c.
Hypothesis P_fetch : forall k, P (CallGetObject k).
Hypothesis P_tryBlock : forall url k senderId fileContents results,
  emits P (tryBlock url k senderId fileContents results).

Lemma awaitTrackProgress_emits message context :
  emits P (awaitTrackProgress env message context).
Proof. apply emits_call. intros _. apply P_tracker. by intros []. Qed.

Lemma processKey_emits url results k :
  emits P (processKey env tryBlock url results k).
Proof.
  unfold processKey. apply emits_bind; [apply emits_liftE|]. intros senderId.
  apply emits_bind; [by apply emits_call|]. intros fileContents.
  apply emits_tryCatch; [apply P_tryBlock|]. intros e.
  apply emits_bind; [apply awaitTrackProgress_emits|]. intros _.
  apply emits_ret.
Qed.

Lemma processKeys_emits url ks : forall results,
  emits P (processKeys env tryBlock url results ks).
Proof.
  induction ks as [|k rest IH]; intros results; simpl; [apply emits_ret|].
  apply emits_bind; [apply processKey_emits|]. intros results'. apply IH.
Qed.

Lemma handlerWith_emits event : emits P (handlerWith env tryBlock event).
Proof.
  unfold handlerWith.
  apply emits_bind; [apply emits_liftE|]. intros executionId.
  apply emits_bind; [apply emits_liftE|]. intros name.
  apply emits_bind; [apply awaitTrackProgress_emits|]. intros _.
  apply emits_bind.
  - apply emits_tryCatch.
    + unfold handlerTry.
      apply emits_bind;
        [apply emits_call; intros _; apply P_tracker; by intros []|].
      intros _. apply emits_bind; [apply emits_liftE|]. intros records.
      apply emits_bind; [apply emits_liftE|]. intros url.
      apply emits_bind; [apply emits_liftE|]. intros grouped.
      apply emits_bind; [apply awaitTrackProgress_emits|]. intros _.
      apply emits_bind; [apply processKeys_emits|]. intros results.
      unfold finalize. destruct (0 <? _)%nat; [apply emits_ret|].
      apply emits_bind;
        [apply emits_call; intros _; apply P_tracker; by intros []|].
      intros _. apply emits_bind; [apply awaitTrackProgress_emits|].
      intros _. apply emits_ret.
    + intros e. unfold handlerCatch.
      apply emits_bind; [apply awaitTrackProgress_emits|]. intros _.
      apply emits_ret.
  - intros [results|executionId' error]; simpl; [apply emits_ret|].
    apply emits_bind; [|intros; apply emits_ret].
    apply emits_call. intros _. apply P_tracker. by intros [].
Qed.

End WholeHandler.

(** X11: the handler that only forwards never calls the keyed store, whatever
    the event and whatever its collaborators answer: no call of an
    invocation is a [GetValue] or a [SetValue]. *)
Theorem X11_forwarding_handler_never_calls_the_store
    {Event World Failure : Type} (env : Env Event World Failure)
    (event : Event) (s : State Event World) :
  exists calls,
    trace (snd (handler_forward env event s)) = trace s ++ calls
    /\ Forall notStoreCall calls.
Proof.
  apply (handlerWith_emits env notStoreCall (tryBlock_forward env)).
  - intros [] Htracker; simpl; try done; by destruct Htracker.
  - done.
  - intros url k senderId fileContents results. unfold tryBlock_forward.
    apply emits_bind; [apply emits_liftE|]. intros items.
    apply emits_bind; [by apply emits_call|]. intros _.
    apply emits_bind; [by apply emits_call|]. intros _.
    apply emits_bind; [by apply emits_call|]. intros _. apply emits_ret.
Qed.

(** X12: in the handler that merges into Stash every call to the keyed store
    names the inventory keyspace, and a value it writes is never empty: it
    has at least the entry of the sender. *)
Theorem X12_store_calls_name_the_inventory_keyspace
    {Event World Failure : Type} (env : Env Event World Failure)
    (event : Event) (s : State Event World) :
  exists calls,
    trace (snd (handler_stash env event s)) = trace s ++ calls
    /\ Forall inventoryCall calls.
Proof.
  apply (handlerWith_emits env inventoryCall (tryBlock_stash env)).
  - intros [] Htracker; simpl; try done; by destruct Htracker.
  - done.
  - intros url k senderId fileContents results. unfold tryBlock_stash.
    apply emits_bind; [apply emits_liftE|]. intros items.
    apply emits_bind; [by apply emits_call|]. intros _.
    apply emits_bind; [by apply emits_call|]. intros _.
    unfold persistAndSettle. apply emits_bind.
    + apply emits_promiseAll, Forall_map, Forall_forall. intros item _.
      unfold itemCallback. destruct (missingRequired item); [apply emits_ret|].
      apply emits_bind; [by apply emits_call|]. intros existing.
      apply emits_bind; [|intros; apply emits_ret].
      apply emits_call. intros _. split; [done|].
      unfold mergedValue. apply insert_non_empty.
    + intros outcomes. destruct (0 <? _)%nat;
        (apply emits_bind; [by apply emits_call|intros; apply emits_ret]).
Qed.

Section Fatal.

Context {Event World Failure : Type}.
Variable env : Env Event World Failure.
Variable tryBlock :
  string -> KeyToProcess -> string -> string -> ProcessingResults ->
  M Event World ProcessingResults.

Lemma awaitRecordNewExecution_run executionId event s :
  awaitRecordNewExecution env executionId event s
  = (fst (recordNewExecution env executionId event (world s)),
     mkState (snd (recordNewExecution env executionId event (world s)))
             (trace s ++ [CallRecordNewExecution executionId])).
Proof. unfold awaitRecordNewExecution. by rewrite call_run. Qed.

(** The steps of the [try] before the loop, in the order of the source. *)
Lemma handlerTry_preflight_throw executionId event s e s1 :
  awaitRecordNewExecution env executionId event s = (inr tt, s1) ->
  toBucketNotificationEvent env event = inl e
  \/ (exists records,
        toBucketNotificationEvent env event = inr records
        /\ requiredEnvVar env "DESTINATION_WEBHOOK_URL" = inl e)
  \/ (exists records url,
        toBucketNotificationEvent env event = inr records
        /\ requiredEnvVar env "DESTINATION_WEBHOOK_URL" = inr url
        /\ groupEventKeys records = inl e) ->
  handlerTry env tryBlock executionId event s = (inl e, s1).
Proof.
  intros Hrecord Hthrow. unfold handlerTry.
  erewrite bind_inr by exact Hrecord.
  destruct Hthrow as [Hevent|[(records & Hevent & Hurl)
                             |(records & url & Hevent & Hurl & Hgroup)]].
  - erewrite bind_inl; [done|]. unfold liftE. by rewrite Hevent.
  - erewrite bind_inr; [|unfold liftE; by rewrite Hevent].
    erewrite bind_inl; [done|]. unfold liftE. by rewrite Hurl.
  - erewrite bind_inr; [|unfold liftE; by rewrite Hevent].
    erewrite bind_inr; [|unfold liftE; by rewrite Hurl].
    erewrite bind_inl; [done|]. unfold liftE. by rewrite Hgroup.
Qed.

Lemma handlerWith_fatal event s executionId name e :
  trackerAnswers env ->
  generateExecutionId env event = inr executionId ->
  functionName env = inr name ->
  toBucketNotificationEvent env event = inl e
  \/ (exists records,
        toBucketNotificationEvent env event = inr records
        /\ requiredEnvVar env "DESTINATION_WEBHOOK_URL" = inl e)
  \/ (exists records url,
        toBucketNotificationEvent env event = inr records
        /\ requiredEnvVar env "DESTINATION_WEBHOOK_URL" = inr url
        /\ groupEventKeys records = inl e) ->
  trace (snd (handlerWith env tryBlock event s))
  = trace s ++
    [CallTrackProgress ("starting " +:+ name) (CtxStart event executionId);
     CallRecordNewExecution executionId;
     CallTrackProgress "handler error" (CtxHandlerError (handlerLevelError e));
     CallFailedExecution executionId (handlerLevelError e)]
  /\ exists failure, fst (handlerWith env tryBlock event s) = inr (Failed failure).
Proof.
  intros ((_ & _ & Htrack & Hfailed) & Hrecord & _) Hexec Hname Hthrow.
  unfold handlerWith.
  erewrite bind_inr; [|unfold liftE; by rewrite Hexec].
  erewrite bind_inr; [|unfold liftE; by rewrite Hname].
  erewrite bind_inr; [|by rewrite awaitTrackProgress_run, Htrack].
  set (s1 := mkState _ _).
  erewrite bind_inr.
  2:{ unfold tryCatch. erewrite handlerTry_preflight_throw; [| |exact Hthrow].
      2:{ by rewrite awaitRecordNewExecution_run, Hrecord. }
      unfold handlerCatch.
      erewrite bind_inr; [|by rewrite awaitTrackProgress_run, Htrack].
      done. }
  rewrite settle_failedExecution. simpl.
  match goal with
  | |- context [failedExecution env ?id ?error ?w] =>
      destruct (Hfailed id error w) as [failure Hfailure]
  end.
  split; [by rewrite <- !app_assoc|].
  exists failure. by rewrite Hfailure.
Qed.

Lemma groupEventKeys_all_filtered (records : list BucketNotificationRecord) :
  Forall (fun record =>
            Js.endsWith (s3_object_key record) "/" = true
            \/ notInInventoryDirectory (Js.split "/" (s3_object_key record)) = true)
         records ->
  groupEventKeys records
  = inr (mkGrouped
           (map (fun record =>
                   mkFilteredKey (s3_object_key record)
                                 (filterReason (s3_object_key record))) records)
           []).
Proof.
  intros Hfiltered. rewrite groupEventKeys_spec. unfold specClassifier.
  assert (Hall : classifyAll records
                 = inr (map (fun record =>
                          Filtered (mkFilteredKey (s3_object_key record)
                                      (filterReason (s3_object_key record))))
                        records)).
  { induction Hfiltered as [|r rs Hr _ IH]; simpl; [done|].
    rewrite classify_filtered by tauto. simpl. by rewrite IH. }
  rewrite Hall. simpl. f_equal. unfold filteredOf, eligibleOf.
  f_equal; clear; induction records as [|r rs IH]; cbn; [done| |done|done].
  by rewrite <- IH.
Qed.

Lemma handlerWith_nothing_to_do event s executionId name records url :
  trackerAnswers env ->
  generateExecutionId env event = inr executionId ->
  functionName env = inr name ->
  toBucketNotificationEvent env event = inr records ->
  requiredEnvVar env "DESTINATION_WEBHOOK_URL" = inr url ->
  Forall (fun record =>
            Js.endsWith (s3_object_key record) "/" = true
            \/ notInInventoryDirectory (Js.split "/" (s3_object_key record)) = true)
         records ->
  let filtered :=
    map (fun record => mkFilteredKey (s3_object_key record)
                         (filterReason (s3_object_key record))) records in
  let results := mkResults filtered [] [] in
  fst (handlerWith env tryBlock event s) = inr (Results results)
  /\ trace (snd (handlerWith env tryBlock event s))
     = trace s ++
       [CallTrackProgress ("starting " +:+ name) (CtxStart event executionId);
        CallRecordNewExecution executionId;
        CallTrackProgress "grouped event keys" (CtxGrouped (mkGrouped filtered []));
        CallMarkExecutionAsSuccessful executionId;
        CallTrackProgress "results" (CtxResults results)].
Proof.
  intros ((_ & _ & Htrack & _) & Hrecord & Hmark) Hexec Hname Hevent Hurl
         Hfiltered filtered results.
  unfold handlerWith.
  erewrite bind_inr; [|unfold liftE; by rewrite Hexec].
  erewrite bind_inr; [|unfold liftE; by rewrite Hname].
  erewrite bind_inr; [|by rewrite awaitTrackProgress_run, Htrack].
  erewrite bind_inr.
  2:{ unfold tryCatch, handlerTry.
      erewrite bind_inr; [|by rewrite awaitRecordNewExecution_run, Hrecord].
      erewrite bind_inr; [|unfold liftE; by rewrite Hevent].
      erewrite bind_inr; [|unfold liftE; by rewrite Hurl].
      erewrite bind_inr;
        [|unfold liftE; by rewrite groupEventKeys_all_filtered].
      erewrite bind_inr; [|by rewrite awaitTrackProgress_run, Htrack].
      simpl. erewrite bind_inr by done.
      unfold finalize. simpl.
      erewrite bind_inr;
        [|by rewrite awaitMarkExecutionAsSuccessful_run, Hmark].
      erewrite bind_inr; [|by rewrite awaitTrackProgress_run, Htrack].
      done. }
  simpl. split; [done|]. by rewrite <- !app_assoc.
Qed.

End Fatal.

(** X13: when the event cannot be decoded, or else the webhook URL is not
    configured, or else a key of the batch has a malformed escape, the
    invocation touches no object, no value and no webhook: with a tracker
    that answers, its calls are the start of the execution, the record of
    the input, the report of that very error and its hand-over to
    [failedExecution], whose failure object is the outcome.  One bad key
    fails the whole batch before any key is processed. *)
Theorem X13_fatal_errors_fail_fast
    {Event World Failure : Type} (env : Env Event World Failure)
    (event : Event) (s : State Event World)
    (executionId name : string) (e : Thrown) :
  trackerAnswers env ->
  generateExecutionId env event = inr executionId ->
  functionName env = inr name ->
  toBucketNotificationEvent env event = inl e
  \/ (exists records,
        toBucketNotificationEvent env event = inr records
        /\ requiredEnvVar env "DESTINATION_WEBHOOK_URL" = inl e)
  \/ (exists records url,
        toBucketNotificationEvent env event = inr records
        /\ requiredEnvVar env "DESTINATION_WEBHOOK_URL" = inr url
        /\ groupEventKeys records = inl e) ->
  let calls :=
    [CallTrackProgress ("starting " +:+ name) (CtxStart event executionId);
     CallRecordNewExecution executionId;
     CallTrackProgress "handler error" (CtxHandlerError (handlerLevelError e));
     CallFailedExecution executionId (handlerLevelError e)] in
  (trace (snd (handler_stash env event s)) = trace s ++ calls
   /\ exists failure, fst (handler_stash env event s) = inr (Failed failure))
  /\ (trace (snd (handler_forward env event s)) = trace s ++ calls
      /\ exists failure, fst (handler_forward env event s) = inr (Failed failure)).
Proof.
  intros Htracker Hexec Hname Hthrow calls.
  split; by apply handlerWith_fatal.
Qed.

Lemma X13_fatal_errors_fail_fast_witness :
  let event := [mkRecord "b" Demo.keyA; mkRecord "b" "x/inventory/100%"] in
  let s0 := Demo.start [(Demo.keyA, Demo.feedComplete)] true in
  fst (handler_stash Demo.env event s0)
  = inr (Failed (Demo.mkFailure "execution-1" Js.uriMalformed))
  /\ trace (snd (handler_stash Demo.env event s0))
     = [CallTrackProgress "starting inventory-feed-processor"
          (CtxStart event "execution-1");
        CallRecordNewExecution "execution-1";
        CallTrackProgress "handler error" (CtxHandlerError Js.uriMalformed);
        CallFailedExecution "execution-1" Js.uriMalformed].
Proof.
  intros event s0.
  destruct (X13_fatal_errors_fail_fast Demo.env event s0 "execution-1"
              "inventory-feed-processor" (ThrownError Js.uriMalformed))
    as [[Htrace _] _].
  - split; [|split; intros; reflexivity].
    split; [eexists; reflexivity|].
    split; [intros; eexists; reflexivity|].
    split; [intros; reflexivity|]. intros; eexists; reflexivity.
  - reflexivity.
  - reflexivity.
  - right. right. exists event, Demo.webhookUrl. repeat split.
  - split; [vm_compute; reflexivity|]. exact Htrace.
Defined.

(** X14: a batch in which every key is a folder or lies outside an inventory
    directory (the empty batch among them) succeeds without touching an
    object, a value or the webhook: with a tracker that answers, the outcome
    is the results holding every key as filtered with its reason and two
    empty lists, and the execution is marked successful. *)
Theorem X14_batch_without_eligible_key_succeeds
    {Event World Failure : Type} (env : Env Event World Failure)
    (event : Event) (s : State Event World)
    (executionId name url : string) (records : list BucketNotificationRecord) :
  trackerAnswers env ->
  generateExecutionId env event = inr executionId ->
  functionName env = inr name ->
  toBucketNotificationEvent env event = inr records ->
  requiredEnvVar env "DESTINATION_WEBHOOK_URL" = inr url ->
  Forall (fun record =>
            Js.endsWith (s3_object_key record) "/" = true
            \/ notInInventoryDirectory (Js.split "/" (s3_object_key record)) = true)
         records ->
  let filtered :=
    map (fun record => mkFilteredKey (s3_object_key record)
                         (filterReason (s3_object_key record))) records in
  let results := mkResults filtered [] [] in
  let calls :=
    [CallTrackProgress ("starting " +:+ name) (CtxStart event executionId);
     CallRecordNewExecution executionId;
     CallTrackProgress "grouped event keys" (CtxGrouped (mkGrouped filtered []));
     CallMarkExecutionAsSuccessful executionId;
     CallTrackProgress "results" (CtxResults results)] in
  (fst (handler_stash env event s) = inr (Results results)
   /\ trace (snd (handler_stash env event s)) = trace s ++ calls)
  /\ (fst (handler_forward env event s) = inr (Results results)
      /\ trace (snd (handler_forward env event s)) = trace s ++ calls).
Proof.
  intros Htracker Hexec Hname Hevent Hurl Hfiltered filtered results calls.
  split; by eapply handlerWith_nothing_to_do.
Qed.

Lemma X14_batch_without_eligible_key_succeeds_witness :
  let event := [mkRecord "b" "trading_partners/shop_1/inventory/";
                mkRecord "b" "feed.csv"] in
  fst (handler_forward Demo.env event (Demo.start [] true))
  = inr (Results (mkResults
           [mkFilteredKey "trading_partners/shop_1/inventory/" folderReason;
            mkFilteredKey "feed.csv" mismatchReason] [] [])).
Proof.
  intros event.
  destruct (X14_batch_without_eligible_key_succeeds Demo.env event
              (Demo.start [] true) "execution-1" "inventory-feed-processor"
              Demo.webhookUrl event) as [_ [Hresults _]].
  - split; [|split; intros; reflexivity].
    split; [eexists; reflexivity|].
    split; [intros; eexists; reflexivity|].
    split; [intros; reflexivity|]. intros; eexists; reflexivity.
  - reflexivity.
  - reflexivity.
  - reflexivity.
  - reflexivity.
  - constructor; [left; reflexivity|].
    constructor; [right; reflexivity|]. constructor.
  - exact Hresults.
Defined.

(** ** The outcome of one key *)

(** X15: when the key loop reaches its end, every eligible key has ended in
    exactly one of [processedKeys] and [processingErrors]: the two lists
    together are a rearrangement of the keys of the batch, [filteredKeys] is
    as the classifier left it, and there are no more errors than keys. *)
Theorem X15_loop_accounts_for_every_key
    {Event World Failure : Type} (env : Env Event World Failure)
    (url : string) (filtered : list FilteredKey) (ks : list KeyToProcess)
    (s s' : State Event World) (results' : ProcessingResults) :
  processKeys env (tryBlock_stash env) url (mkResults filtered [] []) ks s
    = (inr results', s')
  \/ processKeys env (tryBlock_forward env) url (mkResults filtered [] []) ks s
     = (inr results', s') ->
  filteredKeys results' = filtered
  /\ Permutation (processedKeys results' ++ map ke_key (processingErrors results'))
                 (map key ks)
  /\ (List.length (processingErrors results') <= List.length ks)%nat.
Proof.
  intros Hrun.
  assert (Haccount : exists processed failed,
            processedKeys results' = [] ++ processed
            /\ map ke_key (processingErrors results') = [] ++ failed
            /\ Permutation (processed ++ failed) (map key ks)
            /\ filteredKeys results' = filtered).
  { destruct Hrun as [Hrun|Hrun].
    - eapply (processKeys_accounting env (tryBlock_stash env)
                (tryBlock_stash_settles env)) in Hrun. exact Hrun.
    - eapply (processKeys_accounting env (tryBlock_forward env)
                (tryBlock_forward_settles env)) in Hrun. exact Hrun. }
  destruct Haccount as (processed & failed & Hp & Hf & Hperm & Hfiltered).
  simpl in Hp, Hf. rewrite Hp, Hf. split; [done|]. split; [done|].
  apply Permutation_length in Hperm.
  rewrite length_app, length_map in Hperm.
  rewrite <- (length_map ke_key), Hf. lia.
Qed.

Lemma X15_loop_accounts_for_every_key_witness :
  let ks := [mkKeyToProcess "b" Demo.keyA;
             mkKeyToProcess "b" "trading_partners/shop_2/inventory/feed.csv"] in
  let s0 := Demo.start [(Demo.keyA, Demo.feedComplete);
                        ("trading_partners/shop_2/inventory/feed.csv",
                         Demo.feedNoPrice)] true in
  let run := processKeys Demo.env (tryBlock_stash Demo.env) Demo.webhookUrl
               (mkResults [] [] []) ks s0 in
  fst run = inr (mkResults []
                   [mkKeyError "trading_partners/shop_2/inventory/feed.csv"
                      (newError skipMessage)]
                   [Demo.keyA])
  /\ Permutation
       ([Demo.keyA] ++ ["trading_partners/shop_2/inventory/feed.csv"])
       (map key ks).
Proof.
  intros ks s0 run.
  assert (Hrun : run = (inr (mkResults []
                   [mkKeyError "trading_partners/shop_2/inventory/feed.csv"
                      (newError skipMessage)]
                   [Demo.keyA]), snd run)) by (vm_compute; reflexivity).
  split; [by rewrite Hrun|].
  destruct (X15_loop_accounts_for_every_key Demo.env Demo.webhookUrl [] ks s0
              (snd run) _ (or_introl Hrun)) as (_ & Hperm & _).
  exact Hperm.
Defined.

Section OneKey.

Context {Event World Failure : Type}.
Variable env : Env Event World Failure.

Lemma call_trace {A} (event : Thrown + A -> Call Event)
    (op : World -> (Thrown + A) * World) (s : State Event World) r s' :
  call event op s = (r, s') -> trace s' = trace s ++ [event r].
Proof. rewrite call_run. by intros [= <- <-]. Qed.

Lemma processKey_processed_inv tryBlock url results k s results' s' :
  processKey env tryBlock url results k s = (inr results', s') ->
  processedKeys results' <> processedKeys results ->
  exists senderId fileContents s1,
    extractShopIdFromKey (key k) = inr senderId
    /\ awaitGetObject env k s = (inr fileContents, s1)
    /\ tryBlock url k senderId fileContents results s1 = (inr results', s').
Proof.
  unfold processKey. intros Hrun Hgrew.
  apply bind_inv in Hrun as (senderId & s0 & Hsender & Hrun).
  apply liftE_inv in Hsender as [Hsender ->].
  apply bind_inv in Hrun as (fileContents & s1 & Hfetch & Hrun).
  apply tryCatch_inv in Hrun as [Hbody|(e & s2 & _ & Hcatch)].
  - by exists senderId, fileContents, s1.
  - apply bind_inv in Hcatch as ([] & s3 & _ & Hret).
    unfold ret in Hret. injection Hret as <- _. done.
Qed.

Lemma tryBlock_forward_processed url k senderId fileContents results s results' s' :
  tryBlock_forward env url k senderId fileContents results s = (inr results', s') ->
  exists items,
    convertCsvToJson env fileContents
      (Some (conversionOptions (transformHeader_forward (toLowerCase env))))
    = inr items
    /\ trace s' = trace s ++
         [CallTrackProgress "converted inventory JSON"
            (CtxConverted senderId items);
          CallFetchPost url senderId items;
          CallDeleteObject k]
    /\ results' = pushProcessed results (key k).
Proof.
  unfold tryBlock_forward. intros Hrun.
  apply bind_inv in Hrun as (items & s0 & Hitems & Hrun).
  apply liftE_inv in Hitems as [Hitems ->].
  apply bind_inv in Hrun as ([] & s1 & Htrack & Hrun).
  apply bind_inv in Hrun as ([] & s2 & Hpost & Hrun).
  apply bind_inv in Hrun as ([] & s3 & Hdelete & Hrun).
  unfold ret in Hrun. injection Hrun as <- <-.
  apply call_trace in Htrack, Hpost, Hdelete.
  exists items. split; [done|]. split; [|done].
  rewrite Hdelete, Hpost, Htrack. by rewrite <- !app_assoc.
Qed.

Lemma tryBlock_stash_processed url k senderId fileContents results s results' s' :
  tryBlock_stash env url k senderId fileContents results s = (inr results', s') ->
  processedKeys results' <> processedKeys results ->
  exists items storeCalls,
    convertCsvToJson env fileContents
      (Some (conversionOptions (transformHeader_stash (toLowerCase env))))
    = inr items
    /\ Forall (fun item => missingRequired item = false) items
    /\ Forall (storeCall senderId items) storeCalls
    /\ trace s' = trace s ++
         [CallTrackProgress "converted inventory JSON"
            (CtxConverted senderId items);
          CallFetchPost url senderId items]
         ++ storeCalls ++ [CallDeleteObject k]
    /\ results' = pushProcessed results (key k).
Proof.
  unfold tryBlock_stash. intros Hrun Hgrew.
  apply bind_inv in Hrun as (items & s0 & Hitems & Hrun).
  apply liftE_inv in Hitems as [Hitems ->].
  apply bind_inv in Hrun as ([] & s1 & Htrack & Hrun).
  apply bind_inv in Hrun as ([] & s2 & Hpost & Hrun).
  unfold persistAndSettle in Hrun.
  apply bind_inv in Hrun as (outcomes & s3 & Hcallbacks & Hrun).
  pose proof (promiseAll_outcomes env _ _ _ _ _ Hcallbacks) as Hskipped.
  destruct (itemCallbacks_emit env senderId items s2)
    as (storeCalls & Htrace & HstoreCalls).
  rewrite Hcallbacks in Htrace. simpl in Htrace.
  destruct (0 <? List.length (omap id outcomes))%nat eqn:Hany.
  - apply bind_inv in Hrun as ([] & s4 & _ & Hrun).
    unfold ret in Hrun. injection Hrun as <- _. done.
  - apply bind_inv in Hrun as ([] & s4 & Hdelete & Hrun).
    unfold ret in Hrun. injection Hrun as <- <-.
    apply call_trace in Htrack, Hpost, Hdelete.
    exists items, storeCalls. split; [done|]. split; [|split; [done|]].
    + apply Nat.ltb_ge in Hany. rewrite Hskipped in Hany.
      apply Forall_forall. intros item Hin.
      destruct (missingRequired item) eqn:Hmissing; [|done].
      assert (Hfiltered : In item (List.filter missingRequired items))
        by (apply filter_In; split; [by apply list_elem_of_In|done]).
      destruct (List.filter missingRequired items); [done|]. simpl in Hany. lia.
    + split; [|done].
      rewrite Hdelete, Htrace, Hpost, Htrack. by rewrite <- !app_assoc.
Qed.

Lemma awaitFetch_throw_run url senderId items s e s1 :
  awaitFetch env url senderId items s = (inl e, s1) ->
  trace s1 = trace s ++ [CallFetchPost url senderId items].
Proof. rewrite awaitFetch_run. by intros [= _ <-]. Qed.

End OneKey.

(** X16: a key is reported processed only at the end of a complete run of
    its [try]: after its object was fetched, every converted record was
    posted to the webhook in one call and, last of all, [DeleteObject] was
    called for it and returned; in the handler that merges into Stash, every
    record then has the required attributes and the calls between the POST
    and the deletion are the reads and merges of those records. *)
Theorem X16_processed_means_posted_then_deleted
    {Event World Failure : Type} (env : Env Event World Failure)
    (url : string) (results results' : ProcessingResults) (k : KeyToProcess)
    (s s' : State Event World) :
  processedKeys results' <> processedKeys results ->
  (processKey env (tryBlock_stash env) url results k s = (inr results', s') ->
   exists senderId items storeCalls,
     extractShopIdFromKey (key k) = inr senderId
     /\ Forall (fun item => missingRequired item = false) items
     /\ Forall (storeCall senderId items) storeCalls
     /\ trace s' = trace s ++
          [CallGetObject k;
           CallTrackProgress "converted inventory JSON"
             (CtxConverted senderId items);
           CallFetchPost url senderId items]
          ++ storeCalls ++ [CallDeleteObject k]
     /\ results' = pushProcessed results (key k))
  /\ (processKey env (tryBlock_forward env) url results k s = (inr results', s') ->
      exists senderId items,
        extractShopIdFromKey (key k) = inr senderId
        /\ trace s' = trace s ++
             [CallGetObject k;
              CallTrackProgress "converted inventory JSON"
                (CtxConverted senderId items);
              CallFetchPost url senderId items;
              CallDeleteObject k]
        /\ results' = pushProcessed results (key k)).
Proof.
  intros Hgrew. split; intros Hrun.
  - apply processKey_processed_inv in Hrun
      as (senderId & fileContents & s1 & Hsender & Hfetch & Htry); [|done].
    apply tryBlock_stash_processed in Htry
      as (items & storeCalls & _ & Hcomplete & Hstore & Htrace & ->); [|done].
    exists senderId, items, storeCalls. repeat split; try done.
    rewrite Htrace, (awaitGetObject_trace env _ _ _ _ Hfetch).
    by rewrite <- !app_assoc.
  - apply processKey_processed_inv in Hrun
      as (senderId & fileContents & s1 & Hsender & Hfetch & Htry); [|done].
    apply tryBlock_forward_processed in Htry as (items & _ & Htrace & ->).
    exists senderId, items. repeat split; try done.
    rewrite Htrace, (awaitGetObject_trace env _ _ _ _ Hfetch).
    by rewrite <- !app_assoc.
Qed.

Lemma X16_processed_means_posted_then_deleted_witness :
  let k := mkKeyToProcess "b" Demo.keyA in
  let s0 := Demo.start [(Demo.keyA, Demo.feedNoPrice)] true in
  let results := mkResults [] [] [] in
  let run := processKey Demo.env (tryBlock_forward Demo.env) Demo.webhookUrl
               results k s0 in
  fst run = inr (pushProcessed results Demo.keyA)
  /\ exists senderId items,
       trace (snd run)
       = [CallGetObject k;
          CallTrackProgress "converted inventory JSON"
            (CtxConverted senderId items);
          CallFetchPost Demo.webhookUrl senderId items;
          CallDeleteObject k].
Proof.
  intros k s0 results run.
  assert (Hrun : run = (inr (pushProcessed results Demo.keyA), snd run))
    by (vm_compute; reflexivity).
  split; [by rewrite Hrun|].
  destruct (X16_processed_means_posted_then_deleted Demo.env Demo.webhookUrl
              results (pushProcessed results Demo.keyA) k s0 (snd run))
    as [_ Hforward]; [discriminate|].
  destruct (Hforward Hrun) as (senderId & items & _ & Htrace & _).
  exists senderId, items. exact Htrace.
Defined.

Section WebhookDown.

Context {Event World Failure : Type}.
Variable env : Env Event World Failure.

Lemma processKey_stash_post_throws url results k s s1 s2 s3 s4
    senderId fileContents items e :
  extractShopIdFromKey (key k) = inr senderId ->
  awaitGetObject env k s = (inr fileContents, s1) ->
  convertCsvToJson env fileContents
    (Some (conversionOptions (transformHeader_stash (toLowerCase env))))
  = inr items ->
  awaitTrackProgress env "converted inventory JSON"
    (CtxConverted senderId items) s1 = (inr tt, s2) ->
  awaitFetch env url senderId items s2 = (inl e, s3) ->
  awaitTrackProgress env "error processing document"
    (CtxKeyError (key k) (keyLevelError e)) s3 = (inr tt, s4) ->
  processKey env (tryBlock_stash env) url results k s
  = (inr (pushError results (key k) (keyLevelError e)), s4).
Proof.
  intros Hsender Hfetch Hitems Htrack Hpost Hnote.
  eapply processKey_try_failure; try done.
  unfold tryBlock_stash.
  erewrite bind_inr; [|unfold liftE; by rewrite Hitems].
  erewrite bind_inr by exact Htrack.
  by erewrite bind_inl by exact Hpost.
Qed.

Lemma processKey_forward_post_throws url results k s s1 s2 s3 s4
    senderId fileContents items e :
  extractShopIdFromKey (key k) = inr senderId ->
  awaitGetObject env k s = (inr fileContents, s1) ->
  convertCsvToJson env fileContents
    (Some (conversionOptions (transformHeader_forward (toLowerCase env))))
  = inr items ->
  awaitTrackProgress env "converted inventory JSON"
    (CtxConverted senderId items) s1 = (inr tt, s2) ->
  awaitFetch env url senderId items s2 = (inl e, s3) ->
  awaitTrackProgress env "error processing document"
    (CtxKeyError (key k) (keyLevelError e)) s3 = (inr tt, s4) ->
  processKey env (tryBlock_forward env) url results k s
  = (inr (pushError results (key k) (keyLevelError e)), s4).
Proof.
  intros Hsender Hfetch Hitems Htrack Hpost Hnote.
  eapply processKey_try_failure; try done.
  unfold tryBlock_forward.
  erewrite bind_inr; [|unfold liftE; by rewrite Hitems].
  erewrite bind_inr by exact Htrack.
  by erewrite bind_inl by exact Hpost.
Qed.

Lemma post_throw_trace k s s1 s2 s3 s4 url senderId fileContents items e
    message context message' context' :
  awaitGetObject env k s = (inr fileContents, s1) ->
  awaitTrackProgress env message context s1 = (inr tt, s2) ->
  awaitFetch env url senderId items s2 = (inl e, s3) ->
  awaitTrackProgress env message' context' s3 = (inr tt, s4) ->
  trace s4 = trace s ++
    [CallGetObject k; CallTrackProgress message context;
     CallFetchPost url senderId items; CallTrackProgress message' context'].
Proof.
  intros Hfetch Htrack Hpost Hnote.
  apply awaitGetObject_trace in Hfetch. apply awaitFetch_throw_run in Hpost.
  rewrite awaitTrackProgress_run in Htrack, Hnote.
  injection Htrack as _ <-. injection Hnote as _ <-. simpl in *.
  rewrite Hpost. simpl. rewrite Hfetch. by rewrite <- !app_assoc.
Qed.

End WebhookDown.

(** X17: when the POST to the webhook throws, the key is recorded in
    [processingErrors] with that error and the loop goes on; nothing was
    merged into the keyed store, the POST coming first, and the object is
    not deleted: the calls for the key are the fetch, the progress event, the
    POST and the report of the error. *)
Theorem X17_webhook_failure_leaves_store_and_object
    {Event World Failure : Type} (env : Env Event World Failure)
    (url : string) (results : ProcessingResults) (k : KeyToProcess)
    (s s1 s2 s3 s4 : State Event World)
    (senderId fileContents : string) (items : list Item) (e : Thrown) :
  extractShopIdFromKey (key k) = inr senderId ->
  awaitGetObject env k s = (inr fileContents, s1) ->
  awaitTrackProgress env "converted inventory JSON"
    (CtxConverted senderId items) s1 = (inr tt, s2) ->
  awaitFetch env url senderId items s2 = (inl e, s3) ->
  awaitTrackProgress env "error processing document"
    (CtxKeyError (key k) (keyLevelError e)) s3 = (inr tt, s4) ->
  let recorded := pushError results (key k) (keyLevelError e) in
  trace s4 = trace s ++
    [CallGetObject k;
     CallTrackProgress "converted inventory JSON" (CtxConverted senderId items);
     CallFetchPost url senderId items;
     CallTrackProgress "error processing document"
       (CtxKeyError (key k) (keyLevelError e))]
  /\ (convertCsvToJson env fileContents
        (Some (conversionOptions (transformHeader_stash (toLowerCase env))))
      = inr items ->
      processKey env (tryBlock_stash env) url results k s = (inr recorded, s4))
  /\ (convertCsvToJson env fileContents
        (Some (conversionOptions (transformHeader_forward (toLowerCase env))))
      = inr items ->
      processKey env (tryBlock_forward env) url results k s = (inr recorded, s4)).
Proof.
  intros Hsender Hfetch Htrack Hpost Hnote recorded.
  split; [by eapply post_throw_trace|].
  split; intros Hitems.
  - by eapply processKey_stash_post_throws.
  - by eapply processKey_forward_post_throws.
Qed.

Lemma X17_webhook_failure_leaves_store_and_object_witness :
  let env := steadyEnv false in
  let k := mkKeyToProcess "b" Demo.keyA in
  let s0 := Demo.start [(Demo.keyA, Demo.feedComplete)] true in
  let run := processKey env (tryBlock_stash env) Demo.webhookUrl
               (mkResults [] [] []) k s0 in
  fst run = inr (mkResults [] [mkKeyError Demo.keyA (newError "ECONNREFUSED")] [])
  /\ world (snd run) = world s0.
Proof.
  intros env k s0 run.
  pose (items := [({[ "sku" := "X"; "quantity" := "3"; "price" := "10" ]} : Item);
                  {[ "sku" := "Y"; "quantity" := "1"; "price" := "25" ]}]).
  pose (s1 := snd (awaitGetObject env k s0)).
  pose (s2 := snd (awaitTrackProgress env "converted inventory JSON"
                     (CtxConverted "shop_1" items) s1)).
  pose (s3 := snd (awaitFetch env Demo.webhookUrl "shop_1" items s2)).
  pose (s4 := snd (awaitTrackProgress env "error processing document"
                     (CtxKeyError Demo.keyA (newError "ECONNREFUSED")) s3)).
  destruct (X17_webhook_failure_leaves_store_and_object env Demo.webhookUrl
              (mkResults [] [] []) k s0 s1 s2 s3 s4 "shop_1" Demo.feedComplete
              items (ThrownError (newError "ECONNREFUSED")))
    as (_ & Hstash & _); try (vm_compute; reflexivity).
  unfold run. rewrite Hstash by (vm_compute; reflexivity).
  split; vm_compute; reflexivity.
Defined.

(** ** The merge against a keyspace that keeps what it is given *)

Section Keyspace.

Context {Event World Failure : Type}.
Variable env : Env Event World Failure.
Variable view : World -> gmap string StashValue.
Hypothesis store : storeView env view.

Lemma itemCallback_view senderId item s :
  missingRequired item = false ->
  fst (itemCallback env senderId item s) = inr None
  /\ view (world (snd (itemCallback env senderId item s)))
     = <[prop item "sku" :=
           mergedValue (view (world s) !! prop item "sku") senderId item]>
         (view (world s)).
Proof.
  intros Hcomplete. destruct store as [Hget Hset].
  split.
  - unfold itemCallback. rewrite Hcomplete.
    erewrite bind_inr; [|by rewrite awaitGetValue_run, Hget].
    erewrite bind_inr; [done|].
    rewrite awaitSetValue_run. simpl.
    by rewrite (proj1 (Hset _ _ _ _)).
  - rewrite (itemCallback_complete env senderId item s _ _ Hcomplete (Hget _ _ _)).
    simpl. apply Hset.
Qed.

Lemma mergedValue_again existing senderId item :
  mergedValue (Some (mergedValue existing senderId item)) senderId item
  = mergedValue existing senderId item.
Proof. unfold mergedValue. simpl. apply insert_insert_eq. Qed.

Lemma mergedValue_swap existing a b item1 item2 :
  a <> b ->
  mergedValue (Some (mergedValue existing a item1)) b item2
  = mergedValue (Some (mergedValue existing b item2)) a item1.
Proof. intros Hne. unfold mergedValue. simpl. by apply insert_insert_ne. Qed.

End Keyspace.

(** X18: against a keyspace that keeps what it is given, the callback of a
    record that has the required attributes changes the value stored for the
    sku of the record and no other: that value gets the price and quantity of
    the record under the sender identifier and keeps the entries of the
    other senders; a record that lacks an attribute changes nothing. *)
Theorem X18_merge_touches_one_sku_and_one_sender
    {Event World Failure : Type} (env : Env Event World Failure)
    (view : World -> gmap string StashValue)
    (senderId : string) (item : Item) (s : State Event World) :
  storeView env view ->
  let before := view (world s) in
  let after := view (world (snd (itemCallback env senderId item s))) in
  (missingRequired item = true -> after = before)
  /\ (missingRequired item = false ->
      (forall sku, sku <> prop item "sku" -> after !! sku = before !! sku)
      /\ exists value,
           after !! prop item "sku" = Some value
           /\ value !! senderId
              = Some (mkPriceQuantity (prop item "price") (prop item "quantity"))
           /\ forall other, other <> senderId ->
                value !! other
                = default ∅ (before !! prop item "sku") !! other).
Proof.
  intros Hstore before after. split.
  - intros Hmissing. unfold after.
    by rewrite (itemCallback_skipped env senderId item s Hmissing).
  - intros Hcomplete.
    destruct (itemCallback_view env view Hstore senderId item s Hcomplete)
      as [_ Hview].
    unfold after. rewrite Hview. split.
    + intros sku Hsku. by rewrite lookup_insert_ne.
    + eexists. split; [apply lookup_insert_eq|].
      split; [apply mergedValue_sender|].
      intros other Hother. by apply mergedValue_other.
Qed.

Lemma steady_storeView : storeView (steadyEnv true) Demo.stash.
Proof. split; [done|]. intros k value keyspaceName w. by split. Qed.

Lemma X18_merge_touches_one_sku_and_one_sender_witness :
  let item : Item := {[ "sku" := "X"; "quantity" := "7"; "price" := "12" ]} in
  let s0 : State Demo.Event Demo.World :=
    mkState (Demo.mkWorld ∅ {[ "X" := {[ "a" := mkPriceQuantity "10" "3" ]};
                               "Y" := {[ "a" := mkPriceQuantity "1" "1" ]} ]}
                          [] true) [] in
  let after :=
    Demo.stash (world (snd (itemCallback (steadyEnv true) "b" item s0))) in
  after !! "Y" = Some ({[ "a" := mkPriceQuantity "1" "1" ]} : StashValue)
  /\ exists value, after !! "X" = Some value
       /\ value !! "a" = Some (mkPriceQuantity "10" "3")
       /\ value !! "b" = Some (mkPriceQuantity "12" "7").
Proof.
  intros item s0 after.
  destruct (X18_merge_touches_one_sku_and_one_sender (steadyEnv true)
              Demo.stash "b" item s0) as [_ Hcomplete].
  { split; [reflexivity|]. intros k value keyspaceName w.
    split; reflexivity. }
  destruct Hcomplete as (Hothers & value & Hvalue & Hsender & Hkept);
    [reflexivity|].
  split.
  - unfold after. rewrite (Hothers "Y") by discriminate. reflexivity.
  - exists value. split; [exact Hvalue|]. split; [|exact Hsender].
    rewrite (Hkept "a") by discriminate. reflexivity.
Defined.

(** X19: against a keyspace that keeps what it is given, merging the same
    record of the same sender a second time leaves the keyspace as the first
    merge left it: a feed delivered twice is stored once. *)
Theorem X19_merging_twice_is_merging_once
    {Event World Failure : Type} (env : Env Event World Failure)
    (view : World -> gmap string StashValue)
    (senderId : string) (item : Item) (s : State Event World) :
  storeView env view ->
  let once := snd (itemCallback env senderId item s) in
  let twice := snd (itemCallback env senderId item once) in
  view (world twice) = view (world once).
Proof.
  intros Hstore once twice.
  destruct (missingRequired item) eqn:Hcomplete.
  - unfold twice. by rewrite (itemCallback_skipped env senderId item once Hcomplete).
  - destruct (itemCallback_view env view Hstore senderId item s Hcomplete)
      as [_ Honce].
    destruct (itemCallback_view env view Hstore senderId item once Hcomplete)
      as [_ Htwice].
    fold once in Honce. fold twice in Htwice.
    rewrite Htwice, Honce.
    rewrite lookup_insert_eq, mergedValue_again. apply insert_insert_eq.
Qed.

Lemma X19_merging_twice_is_merging_once_witness :
  let item : Item := {[ "sku" := "X"; "quantity" := "7"; "price" := "12" ]} in
  let s0 := Demo.start [] true in
  let once := snd (itemCallback (steadyEnv true) "b" item s0) in
  let twice := snd (itemCallback (steadyEnv true) "b" item once) in
  Demo.stash (world twice)
  = {[ "X" := ({[ "b" := mkPriceQuantity "12" "7" ]} : StashValue) ]}.
Proof.
  intros item s0 once twice.
  pose proof (X19_merging_twice_is_merging_once (steadyEnv true) Demo.stash
                "b" item s0) as Hsame.
  unfold twice, once. rewrite Hsame.
  - vm_compute. reflexivity.
  - split; [reflexivity|]. intros k value keyspaceName w. split; reflexivity.
Defined.

(** X20: against a keyspace that keeps what it is given, the merges of two
    records sent by two different senders can be made in either order: the
    keyspace ends the same, whether the records have the same sku or not. *)
Theorem X20_merges_of_two_senders_commute
    {Event World Failure : Type} (env : Env Event World Failure)
    (view : World -> gmap string StashValue)
    (a b : string) (item1 item2 : Item) (s : State Event World) :
  storeView env view ->
  a <> b ->
  missingRequired item1 = false ->
  missingRequired item2 = false ->
  view (world (snd (itemCallback env b item2
                      (snd (itemCallback env a item1 s)))))
  = view (world (snd (itemCallback env a item1
                        (snd (itemCallback env b item2 s))))).
Proof.
  intros Hstore Hne Hcomplete1 Hcomplete2.
  destruct (itemCallback_view env view Hstore a item1 s Hcomplete1) as [_ Ha].
  destruct (itemCallback_view env view Hstore b item2 s Hcomplete2) as [_ Hb].
  destruct (itemCallback_view env view Hstore b item2
              (snd (itemCallback env a item1 s)) Hcomplete2) as [_ Hab].
  destruct (itemCallback_view env view Hstore a item1
              (snd (itemCallback env b item2 s)) Hcomplete1) as [_ Hba].
  rewrite Hab, Hba, Ha, Hb.
  destruct (decide (prop item1 "sku" = prop item2 "sku")) as [Hsame|Hdiffer].
  - rewrite Hsame, !lookup_insert_eq, !insert_insert_eq.
    f_equal. by apply mergedValue_swap.
  - rewrite !lookup_insert_ne by done. by apply insert_insert_ne.
Qed.

Lemma X20_merges_of_two_senders_commute_witness :
  let item1 : Item := {[ "sku" := "X"; "quantity" := "3"; "price" := "10" ]} in
  let item2 : Item := {[ "sku" := "X"; "quantity" := "7"; "price" := "12" ]} in
  let s0 := Demo.start [] true in
  Demo.stash (world (snd (itemCallback (steadyEnv true) "b" item2
                            (snd (itemCallback (steadyEnv true) "a" item1 s0)))))
  = Demo.stash (world (snd (itemCallback (steadyEnv true) "a" item1
                              (snd (itemCallback (steadyEnv true) "b" item2 s0))))).
Proof.
  intros item1 item2 s0.
  apply (X20_merges_of_two_senders_commute (steadyEnv true) Demo.stash).
  - split; [reflexivity|]. intros k value keyspaceName w. split; reflexivity.
  - discriminate.
  - reflexivity.
  - reflexivity.
Defined.

(** ** When nothing fails *)

Section NothingFails.

Context {Event World Failure : Type}.
Variable env : Env Event World Failure.
Hypothesis tracker : trackerAnswers env.
Hypothesis services : servicesAnswer env.

Lemma convertCsvToJson_clean text transform :
  errors (papaparse_parse env text (conversionOptions transform)) = [] ->
  convertCsvToJson env text (Some (conversionOptions transform))
  = inr (data (papaparse_parse env text (conversionOptions transform))).
Proof. intros Hclean. unfold convertCsvToJson. simpl. by rewrite Hclean. Qed.

Lemma awaitGetObject_text k s text s1 :
  awaitGetObject env k s = (inr text, s1) ->
  fst (getObjectText env k (world s)) = inr text.
Proof. unfold awaitGetObject. rewrite call_run. by intros [= -> _]. Qed.

Lemma tryBlock_forward_succeeds url k senderId results s text s1 :
  feedsConvert env (transformHeader_forward (toLowerCase env)) false ->
  awaitGetObject env k s = (inr text, s1) ->
  exists s2,
    tryBlock_forward env url k senderId text results s1
    = (inr (pushProcessed results (key k)), s2).
Proof.
  intros Hfeeds Hfetch. apply awaitGetObject_text in Hfetch.
  destruct (Hfeeds k (world s)) as (text' & Htext & Hclean & _).
  rewrite Hfetch in Htext. injection Htext as <-.
  destruct tracker as ((_ & _ & Htrack & _) & _).
  destruct services as (Hpost & Hdelete & _).
  unfold tryBlock_forward.
  erewrite bind_inr;
    [|unfold liftE; by rewrite (convertCsvToJson_clean _ _ Hclean)].
  erewrite bind_inr; [|by rewrite awaitTrackProgress_run, Htrack].
  erewrite bind_inr; [|by rewrite awaitFetch_run, Hpost].
  erewrite bind_inr;
    [|unfold awaitDeleteObject; by rewrite call_run, Hdelete].
  by eexists.
Qed.

Lemma promiseAll_all_complete senderId items :
  Forall (fun item => missingRequired item = false) items ->
  forall s, exists s',
    promiseAll (map (itemCallback env senderId) items) s
    = (inr (map (fun _ => None) items), s').
Proof.
  destruct services as (_ & _ & Hget & Hset).
  induction 1 as [|item rest Hcomplete _ IH]; intros s; [by eexists|].
  cbn [map promiseAll].
  assert (Hitem : exists s1, itemCallback env senderId item s = (inr None, s1)).
  { unfold itemCallback. rewrite Hcomplete.
    destruct (Hget (prop item "sku") INVENTORY_DATA_STASH_KEYSPACE_NAME (world s))
      as [existing Hexisting].
    erewrite bind_inr; [|by rewrite awaitGetValue_run, Hexisting].
    erewrite bind_inr; [|by rewrite awaitSetValue_run, Hset].
    by eexists. }
  destruct Hitem as [s1 ->]. destruct (IH s1) as [s' ->]. by eexists.
Qed.

Lemma tryBlock_stash_succeeds url k senderId results s text s1 :
  feedsConvert env (transformHeader_stash (toLowerCase env)) true ->
  awaitGetObject env k s = (inr text, s1) ->
  exists s2,
    tryBlock_stash env url k senderId text results s1
    = (inr (pushProcessed results (key k)), s2).
Proof.
  intros Hfeeds Hfetch. apply awaitGetObject_text in Hfetch.
  destruct (Hfeeds k (world s)) as (text' & Htext & Hclean & Hcomplete).
  rewrite Hfetch in Htext. injection Htext as <-.
  specialize (Hcomplete eq_refl).
  destruct tracker as ((_ & _ & Htrack & _) & _).
  destruct services as (Hpost & Hdelete & _).
  unfold tryBlock_stash.
  erewrite bind_inr;
    [|unfold liftE; by rewrite (convertCsvToJson_clean _ _ Hclean)].
  erewrite bind_inr; [|by rewrite awaitTrackProgress_run, Htrack].
  erewrite bind_inr; [|by rewrite awaitFetch_run, Hpost].
  unfold persistAndSettle.
  match goal with
  | |- exists _, bind _ _ ?s3 = _ =>
      destruct (promiseAll_all_complete senderId _ Hcomplete s3) as [s4 Hall]
  end.
  erewrite bind_inr by exact Hall.
  replace (omap id (map (fun _ : Item => @None Item) _)) with (@nil Item).
  2:{ clear. induction (data _) as [|item rest IH]; [done|]. by cbn. }
  simpl.
  erewrite bind_inr;
    [|unfold awaitDeleteObject; by rewrite call_run, Hdelete].
  by eexists.
Qed.

Variable tryBlock :
  string -> KeyToProcess -> string -> string -> ProcessingResults ->
  M Event World ProcessingResults.
Hypothesis tryBlock_succeeds : forall url k senderId results s text s1,
  awaitGetObject env k s = (inr text, s1) ->
  exists s2,
    tryBlock url k senderId text results s1
    = (inr (pushProcessed results (key k)), s2).
Hypothesis objects_fetched : forall k w, exists text,
  fst (getObjectText env k w) = inr text.

Lemma processKeys_all_processed url ks :
  Forall (fun k => exists senderId,
            extractShopIdFromKey (key k) = inr senderId) ks ->
  forall results s, exists s',
    processKeys env tryBlock url results ks s
    = (inr (mkResults (filteredKeys results) (processingErrors results)
                      (processedKeys results ++ map key ks)), s').
Proof.
  induction 1 as [|k rest [senderId Hsender] _ IH]; intros results s; simpl.
  - exists s. destruct results. simpl. by rewrite app_nil_r.
  - destruct (objects_fetched k (world s)) as [text Htext].
    assert (Hfetch : awaitGetObject env k s
                     = (inr text, mkState (snd (getObjectText env k (world s)))
                                          (trace s ++ [CallGetObject k]))).
    { unfold awaitGetObject. by rewrite call_run, Htext. }
    destruct (tryBlock_succeeds url k senderId results _ _ _ Hfetch)
      as [s2 Htry].
    erewrite bind_inr by (by eapply processKey_try_success).
    destruct (IH (pushProcessed results (key k)) s2) as [s' ->].
    exists s'. simpl. by rewrite <- app_assoc.
Qed.

Lemma handlerWith_all_processed event s records url grouped :
  toBucketNotificationEvent env event = inr records ->
  requiredEnvVar env "DESTINATION_WEBHOOK_URL" = inr url ->
  groupEventKeys records = inr grouped ->
  Forall (fun k => exists senderId,
            extractShopIdFromKey (key k) = inr senderId)
         (g_keysToProcess grouped) ->
  fst (handlerWith env tryBlock event s)
  = inr (Results (mkResults (g_filteredKeys grouped) []
                            (map key (g_keysToProcess grouped)))).
Proof.
  intros Hevent Hurl Hgrouped Hsenders.
  destruct tracker as (([name Hname] & Hid & Htrack & _) & Hrecord & Hmark).
  destruct (Hid event) as [executionId Hexec].
  unfold handlerWith.
  erewrite bind_inr; [|unfold liftE; by rewrite Hexec].
  erewrite bind_inr; [|unfold liftE; by rewrite Hname].
  erewrite bind_inr; [|by rewrite awaitTrackProgress_run, Htrack].
  set (s0 := mkState _ _).
  assert (Htry : exists s',
            handlerTry env tryBlock executionId event s0
            = (inr (ReturnResults
                      (mkResults (g_filteredKeys grouped) []
                                 (map key (g_keysToProcess grouped)))), s')).
  { unfold handlerTry.
    erewrite bind_inr; [|by rewrite awaitRecordNewExecution_run, Hrecord].
    erewrite bind_inr; [|unfold liftE; by rewrite Hevent].
    erewrite bind_inr; [|unfold liftE; by rewrite Hurl].
    erewrite bind_inr; [|unfold liftE; by rewrite Hgrouped].
    erewrite bind_inr; [|by rewrite awaitTrackProgress_run, Htrack].
    match goal with
    | |- exists _, bind (processKeys env tryBlock url ?results ?ks) _ ?s5 = _ =>
        destruct (processKeys_all_processed url ks Hsenders results s5)
          as [s6 Hloop]
    end.
    erewrite bind_inr by exact Hloop.
    unfold finalize. simpl.
    erewrite bind_inr; [|by rewrite awaitMarkExecutionAsSuccessful_run, Hmark].
    erewrite bind_inr; [|by rewrite awaitTrackProgress_run, Htrack].
    by eexists. }
  destruct Htry as [s' Htry].
  erewrite bind_inr; [|unfold tryCatch; by rewrite Htry].
  done.
Qed.

End NothingFails.

(** X21: when the tracker, the webhook and the deletion answer every call,
    every object can be fetched and is parsed without error, and every
    eligible key has its sender identifier, the handler that only forwards
    hands back the results with every eligible key in [processedKeys], in
    order, and no error, whatever the records hold: it checks no
    attribute. *)
Theorem X21_forwarding_handler_processes_every_key
    {Event World Failure : Type} (env : Env Event World Failure)
    (event : Event) (s : State Event World)
    (records : list BucketNotificationRecord) (url : string)
    (grouped : GroupedEventKeys) :
  trackerAnswers env ->
  servicesAnswer env ->
  feedsConvert env (transformHeader_forward (toLowerCase env)) false ->
  toBucketNotificationEvent env event = inr records ->
  requiredEnvVar env "DESTINATION_WEBHOOK_URL" = inr url ->
  groupEventKeys records = inr grouped ->
  Forall (fun k => exists senderId,
            extractShopIdFromKey (key k) = inr senderId)
         (g_keysToProcess grouped) ->
  fst (handler_forward env event s)
  = inr (Results (mkResults (g_filteredKeys grouped) []
                            (map key (g_keysToProcess grouped)))).
Proof.
  intros Htracker Hservices Hfeeds Hevent Hurl Hgrouped Hsenders.
  eapply handlerWith_all_processed; try done.
  - intros url0 k senderId results s0 text s1.
    by apply tryBlock_forward_succeeds.
  - intros k w. destruct (Hfeeds k w) as (text & Htext & _). by exists text.
Qed.

(** X22: under the same conditions, with a keyspace that answers and feeds
    whose every row has the required attributes, the handler that merges
    into Stash hands back the results with every eligible key in
    [processedKeys], in order, and no error. *)
Theorem X22_merging_handler_processes_every_key
    {Event World Failure : Type} (env : Env Event World Failure)
    (event : Event) (s : State Event World)
    (records : list BucketNotificationRecord) (url : string)
    (grouped : GroupedEventKeys) :
  trackerAnswers env ->
  servicesAnswer env ->
  feedsConvert env (transformHeader_stash (toLowerCase env)) true ->
  toBucketNotificationEvent env event = inr records ->
  requiredEnvVar env "DESTINATION_WEBHOOK_URL" = inr url ->
  groupEventKeys records = inr grouped ->
  Forall (fun k => exists senderId,
            extractShopIdFromKey (key k) = inr senderId)
         (g_keysToProcess grouped) ->
  fst (handler_stash env event s)
  = inr (Results (mkResults (g_filteredKeys grouped) []
                            (map key (g_keysToProcess grouped)))).
Proof.
  intros Htracker Hservices Hfeeds Hevent Hurl Hgrouped Hsenders.
  eapply handlerWith_all_processed; try done.
  - intros url0 k senderId results s0 text s1.
    by apply tryBlock_stash_succeeds.
  - intros k w. destruct (Hfeeds k w) as (text & Htext & _). by exists text.
Qed.

Lemma X21_forwarding_handler_processes_every_key_witness :
  let event := [mkRecord "b" "trading_partners/shop_1/inventory/";
                mkRecord "b" Demo.keyA;
                mkRecord "b" "trading_partners/shop+2/inventory/feed.csv"] in
  fst (handler_forward (steadyEnv true) event (Demo.start [] true))
  = inr (Results (mkResults
           [mkFilteredKey "trading_partners/shop_1/inventory/" folderReason] []
           [Demo.keyA; "trading_partners/shop 2/inventory/feed.csv"])).
Proof.
  intros event.
  apply (X21_forwarding_handler_processes_every_key (steadyEnv true) event
           (Demo.start [] true) event Demo.webhookUrl
           (mkGrouped
              [mkFilteredKey "trading_partners/shop_1/inventory/" folderReason]
              [mkKeyToProcess "b" Demo.keyA;
               mkKeyToProcess "b" "trading_partners/shop 2/inventory/feed.csv"])).
  - split; [|split; intros; reflexivity].
    split; [eexists; reflexivity|].
    split; [intros; eexists; reflexivity|].
    split; [intros; reflexivity|]. intros; eexists; reflexivity.
  - split; [intros; reflexivity|]. split; [intros; reflexivity|].
    split; [intros; eexists; reflexivity|]. intros; reflexivity.
  - intros k w. exists Demo.feedComplete.
    split; [reflexivity|]. split; [vm_compute; reflexivity|discriminate].
  - reflexivity.
  - reflexivity.
  - reflexivity.
  - constructor; [eexists; reflexivity|].
    constructor; [eexists; reflexivity|]. constructor.
Defined.

Lemma X22_merging_handler_processes_every_key_witness :
  let event := [mkRecord "b" Demo.keyA; mkRecord "b" "notes.txt"] in
  fst (handler_stash (steadyEnv true) event (Demo.start [] true))
  = inr (Results (mkResults [mkFilteredKey "notes.txt" mismatchReason] []
                            [Demo.keyA])).
Proof.
  intros event.
  apply (X22_merging_handler_processes_every_key (steadyEnv true) event
           (Demo.start [] true) event Demo.webhookUrl
           (mkGrouped [mkFilteredKey "notes.txt" mismatchReason]
                      [mkKeyToProcess "b" Demo.keyA])).
  - split; [|split; intros; reflexivity].
    split; [eexists; reflexivity|].
    split; [intros; eexists; reflexivity|].
    split; [intros; reflexivity|]. intros; eexists; reflexivity.
  - split; [intros; reflexivity|]. split; [intros; reflexivity|].
    split; [intros; eexists; reflexivity|]. intros; reflexivity.
  - intros k w. exists Demo.feedComplete.
    split; [reflexivity|]. split; [vm_compute; reflexivity|].
    intros _. vm_compute. repeat constructor.
  - reflexivity.
  - reflexivity.
  - reflexivity.
  - constructor; [eexists; reflexivity|]. constructor.
Defined.

(** ** A key that stops the loop *)

Section LoopStops.

Context {Event World Failure : Type}.
Variable env : Env Event World Failure.
Variable tryBlock :
  string -> KeyToProcess -> string -> string -> ProcessingResults ->
  M Event World ProcessingResults.

Lemma processKeys_app url ks1 ks2 : forall results s,
  processKeys env tryBlock url results (ks1 ++ ks2) s
  = bind (processKeys env tryBlock url results ks1)
         (fun results1 => processKeys env tryBlock url results1 ks2) s.
Proof.
  induction ks1 as [|k rest IH]; intros results s; simpl; [done|].
  unfold bind.
  destruct (processKey env tryBlock url results k s) as [[e|results1] s1];
    [done|].
  rewrite IH. done.
Qed.

Lemma processKey_no_sender url results k s e :
  extractShopIdFromKey (key k) = inl e ->
  processKey env tryBlock url results k s = (inl e, s).
Proof.
  intros Hsender. unfold processKey.
  erewrite bind_inl; [done|]. unfold liftE. by rewrite Hsender.
Qed.

Lemma processKey_no_object url results k s senderId e s1 :
  extractShopIdFromKey (key k) = inr senderId ->
  awaitGetObject env k s = (inl e, s1) ->
  processKey env tryBlock url results k s = (inl e, s1).
Proof.
  intros Hsender Hfetch. unfold processKey.
  erewrite bind_inr; [|unfold liftE; by rewrite Hsender].
  by erewrite bind_inl by exact Hfetch.
Qed.

Lemma processKeys_stops url results ks1 k rest s results1 s1 e s2 :
  processKeys env tryBlock url results ks1 s = (inr results1, s1) ->
  processKey env tryBlock url results1 k s1 = (inl e, s2) ->
  processKeys env tryBlock url results (ks1 ++ k :: rest) s = (inl e, s2).
Proof.
  intros Hbefore Hkey. rewrite processKeys_app.
  erewrite bind_inr by exact Hbefore. simpl.
  by erewrite bind_inl by exact Hkey.
Qed.

End LoopStops.

(** X23: a key without sender identifier, or whose object cannot be fetched,
    stops the loop where it stands: the loop throws that error, the results
    gathered for the keys before it are dropped with what was done for them
    left done, and no call is made for the keys after it; for the missing
    sender identifier not even the fetch of the key itself. *)
Theorem X23_key_failing_before_its_try_stops_the_loop
    {Event World Failure : Type} (env : Env Event World Failure)
    (url : string) (results results1 : ProcessingResults)
    (before rest : list KeyToProcess) (k : KeyToProcess)
    (s s1 : State Event World) :
  (processKeys env (tryBlock_stash env) url results before s = (inr results1, s1) ->
   (forall e, extractShopIdFromKey (key k) = inl e ->
      processKeys env (tryBlock_stash env) url results (before ++ k :: rest) s
      = (inl e, s1))
   /\ (forall senderId e s2,
         extractShopIdFromKey (key k) = inr senderId ->
         awaitGetObject env k s1 = (inl e, s2) ->
         processKeys env (tryBlock_stash env) url results (before ++ k :: rest) s
         = (inl e, s2)
         /\ trace s2 = trace s1 ++ [CallGetObject k]))
  /\ (processKeys env (tryBlock_forward env) url results before s
      = (inr results1, s1) ->
      (forall e, extractShopIdFromKey (key k) = inl e ->
         processKeys env (tryBlock_forward env) url results (before ++ k :: rest) s
         = (inl e, s1))
      /\ (forall senderId e s2,
            extractShopIdFromKey (key k) = inr senderId ->
            awaitGetObject env k s1 = (inl e, s2) ->
            processKeys env (tryBlock_forward env) url results
              (before ++ k :: rest) s
            = (inl e, s2)
            /\ trace s2 = trace s1 ++ [CallGetObject k])).
Proof.
  split; intros Hbefore; split.
  - intros e Hsender. eapply processKeys_stops; [exact Hbefore|].
    by apply processKey_no_sender.
  - intros senderId e s2 Hsender Hfetch. split.
    + eapply processKeys_stops; [exact Hbefore|].
      by eapply processKey_no_object.
    + unfold awaitGetObject in Hfetch. rewrite call_run in Hfetch.
      by injection Hfetch as _ <-.
  - intros e Hsender. eapply processKeys_stops; [exact Hbefore|].
    by apply processKey_no_sender.
  - intros senderId e s2 Hsender Hfetch. split.
    + eapply processKeys_stops; [exact Hbefore|].
      by eapply processKey_no_object.
    + unfold awaitGetObject in Hfetch. rewrite call_run in Hfetch.
      by injection Hfetch as _ <-.
Qed.

Lemma X23_key_failing_before_its_try_stops_the_loop_witness :
  let first := mkKeyToProcess "b" Demo.keyA in
  let bad := mkKeyToProcess "b" "inventory/feed.csv" in
  let last := mkKeyToProcess "b" "trading_partners/shop_2/inventory/feed.csv" in
  let s0 := Demo.start [(Demo.keyA, Demo.feedComplete);
                        ("trading_partners/shop_2/inventory/feed.csv",
                         Demo.feedComplete)] true in
  let run := processKeys Demo.env (tryBlock_forward Demo.env) Demo.webhookUrl
               (mkResults [] [] []) ([first] ++ bad :: [last]) s0 in
  fst run = throwE (newError "unable to extract sender ID from object key")
  /\ Demo.objects (world (snd run)) !! Demo.keyA = None
  /\ Demo.objects (world (snd run))
     !! "trading_partners/shop_2/inventory/feed.csv" = Some Demo.feedComplete.
Proof.
  intros first bad last s0 run.
  pose (s1 := snd (processKeys Demo.env (tryBlock_forward Demo.env)
                     Demo.webhookUrl (mkResults [] [] []) [first] s0)).
  destruct (X23_key_failing_before_its_try_stops_the_loop Demo.env
              Demo.webhookUrl (mkResults [] [] []) (mkResults [] [] [Demo.keyA])
              [first] [last] bad s0 s1) as [_ Hforward].
  destruct Hforward as [Hstop _]; [vm_compute; reflexivity|].
  unfold run.
  rewrite (Hstop (ThrownError
                    (newError "unable to extract sender ID from object key")))
    by reflexivity.
  split; [reflexivity|]. split; vm_compute; reflexivity.
Defined.

Lemma X1_sender_is_second_of_four_witness :
  extractShopIdFromKey "trading_partners/shop_1/inventory/feed.csv" = inr "shop_1".
Proof.
  apply (X1_sender_is_second_of_four
           "trading_partners/shop_1/inventory/feed.csv" "shop_1").
  exists "trading_partners", "inventory", "feed.csv".
  split; [|reflexivity]. repeat constructor.
Defined.
